(** * Jukebox: the queue consistency engine

    A shallow embedding of the backend services of the jukebox
    repository:

    - [backend/src/services/room.service.ts]   (RoomService)
    - [backend/src/services/redis.service.ts]  (RedisService)
    - [backend/src/services/youtube.service.ts] (YouTubeService.extractVideoId)
    - [backend/src/routes/room.routes.ts]      (the GET /:roomId/sync handler)

    The PostgreSQL tables are lists of rows (queue_videos, video_votes) or
    finite maps keyed by the primary key (rooms, users); the Redis keyspace
    is one finite map per key family of [RedisService.keys].  Every
    [async] method is a function in a state-and-exception monad over the
    two stores.  The wall clock is a parameter ([clock], the successive
    readings of [Date.now()]), and so are the values the database
    produces (row ids, [CURRENT_TIMESTAMP]) and, for [voteVideo], the
    awaited call that rejects, if one does. *)

From Stdlib Require Import ZArith String Ascii List Bool Lia.
From stdpp Require Import base tactics option list gmap strings pretty sorting.

Local Open Scope string_scope.
Local Open Scope Z_scope.

(** ** Data model (backend/src/types/index.ts) *)

(** A row of [queue_videos].  Timestamps are epoch milliseconds.  The
    field [added_by_username] is the extra column the queue queries add
    by [JOIN users u ... u.username as added_by_username]; it is absent
    from the stored rows. *)
Record QueueVideo := mkQueueVideo {
  qv_id                : string;
  qv_room_id           : string;
  qv_youtube_video_id  : string;
  qv_title             : string;
  qv_thumbnail_url     : string;
  qv_duration          : Z;
  qv_added_by          : string;
  qv_upvotes           : Z;
  qv_downvotes         : Z;
  qv_net_votes         : Z;
  qv_is_played         : bool;
  qv_is_current        : bool;
  qv_added_at          : Z;
  qv_played_at         : option Z;
  qv_added_by_username : option string
}.

(** A row of [video_votes]; [vote_type] is 1 for an upvote and -1 for a
    downvote. *)
Record VideoVote := mkVideoVote {
  vv_video_id  : string;
  vv_user_id   : string;
  vv_vote_type : Z
}.

(** A row of [rooms], without its primary key (the key of the map). *)
Record Room := mkRoom {
  r_admin_id         : string;
  r_is_active        : bool;
  r_current_video_id : option string
}.

Record YouTubeVideoInfo := mkYouTubeVideoInfo {
  yt_video_id      : string;
  yt_title         : string;
  yt_thumbnail_url : string;
  yt_duration      : Z
}.

(** The relational store.  The tables [room_members] and the columns
    that only describe a room or a vote (names, codes, counts, row
    timestamps) are left out. *)
Record DB := mkDB {
  rooms        : gmap string Room;
  users        : gmap string string;     (* id |-> username *)
  queue_videos : list QueueVideo;
  video_votes  : list VideoVote
}.

(** An entry of [room:<id>:members]. *)
Record Member := mkMember {
  m_userId   : string;
  m_username : string;
  m_joinedAt : Z
}.

(** A member of a Redis sorted set: the text [JSON.stringify] produced,
    the row it was produced from (what [JSON.parse] gives back), and the
    score. *)
Record ZEntry := mkZEntry {
  z_member : string;
  z_video  : QueueVideo;
  z_score  : Z
}.

(** The Redis keyspace, one map per key family of [RedisService.keys]:
    [ROOM_QUEUE], [ROOM_VOTES], [ROOM_CURRENT], [ROOM_MEMBERS],
    [USER_VOTES] and [LAST_UPDATE].  Decimal texts written with
    [toString] and read with [parseInt] are kept as numbers.  The
    record holds no time to live: the expiry of a key, 24 hours after
    the write that set it, is the event [Lapse] of the section on
    expiry. *)
Record Redis := mkRedis {
  room_queue   : gmap string (list ZEntry);
  room_votes   : gmap string (gmap string Z);
  room_current : gmap string QueueVideo;
  room_members : gmap string (gmap string Member);
  user_votes   : gmap string (gmap string Z);
  last_update  : gmap string Z
}.

(** A round trip to one of the two stores that reads or writes data;
    BEGIN, COMMIT and ROLLBACK leave no entry. *)
Inductive Access :=
  | StoreRead      (* a SELECT *)
  | StoreWrite     (* an INSERT, UPDATE or DELETE *)
  | CacheRead      (* a reading Redis command *)
  | CacheWrite.    (* a writing Redis command or pipeline *)

(** What the services share: the committed database, the cache, the
    number of [Date.now()] calls made so far, and the round trips made so
    far, oldest first. *)
Record World := mkWorld {
  db    : DB;
  redis : Redis;
  ticks : nat;
  trace : list Access
}.

(** A pooled connection in use ([const client = await pool.connect()]):
    the shared world and the connection's open transaction, if any.
    Statements of the transaction work on [txn]; other connections keep
    reading [db]. *)
Record Session := mkSession {
  world : World;
  txn   : option DB
}.

(** ** Errors and the monad *)

Inductive Error :=
  | NotFoundOrPlayed      (* 'Video not found or already played' *)
  | Unauthorized          (* 'Unauthorized: Only room admin can ...' *)
  | InvalidUrl            (* 'Invalid YouTube URL' *)
  | NoVideoInfo           (* 'Could not fetch video information' *)
  | AlreadyInQueue        (* 'Video already in queue' *)
  | UniqueViolation       (* a primary key rejected by the database *)
  | Transient.            (* an awaited store or cache call rejected *)

Inductive Outcome (A : Type) :=
  | Ok (a : A)
  | Throw (e : Error).
Arguments Ok {A} a.
Arguments Throw {A} e.

Definition ST (S A : Type) : Type := S -> Outcome A * S.

Definition ret {S A} (a : A) : ST S A := fun s => (Ok a, s).

Definition throw {S A} (e : Error) : ST S A := fun s => (Throw e, s).

Definition bind {S A B} (m : ST S A) (k : A -> ST S B) : ST S B :=
  fun s => match m s with
           | (Ok a, s') => k a s'
           | (Throw e, s') => (Throw e, s')
           end.

Notation "x <- m ;; k" := (bind m (fun x => k))
  (at level 100, m at next level, right associativity).
Notation "m ;;; k" := (bind m (fun _ => k))
  (at level 100, right associativity).

(** [try { body } catch (error) { handler; throw error }] *)
Definition try_catch_rethrow {S A} (body : ST S A) (handler : S -> S) : ST S A :=
  fun s => match body s with
           | (Ok a, s') => (Ok a, s')
           | (Throw e, s') => (Throw e, handler s')
           end.

Definition modify {S} (f : S -> S) : ST S unit := fun s => (Ok tt, f s).

(** ** The connection pool and transactions *)

(** What the statements of a connection see. *)
Definition view (s : Session) : DB :=
  match txn s with
  | Some d => d
  | None => db (world s)
  end.

Definition set_db (d : DB) (w : World) : World :=
  {| db := d; redis := redis w; ticks := ticks w; trace := trace w |}.

Definition set_redis (r : Redis) (w : World) : World :=
  {| db := db w; redis := r; ticks := ticks w; trace := trace w |}.

Definition tick (w : World) : World :=
  {| db := db w; redis := redis w; ticks := S (ticks w); trace := trace w |}.

Definition record (a : Access) (w : World) : World :=
  {| db := db w; redis := redis w; ticks := ticks w; trace := trace w ++ [a] |}.

Definition record_in (a : Access) (s : Session) : Session :=
  {| world := record a (world s); txn := txn s |}.

(** [client.query('BEGIN')] *)
Definition query_BEGIN : ST Session unit :=
  modify (fun s => {| world := world s; txn := Some (view s) |}).

(** [client.query('COMMIT')] *)
Definition query_COMMIT : ST Session unit :=
  modify (fun s => match txn s with
                   | Some d => {| world := set_db d (world s); txn := None |}
                   | None => s
                   end).

(** [client.query('ROLLBACK')] *)
Definition rollback (s : Session) : Session :=
  {| world := world s; txn := None |}.

(** A reading statement on the connection. *)
Definition client_select {A} (q : DB -> A) : ST Session A :=
  fun s => (Ok (q (view s)), record_in StoreRead s).

(** A writing statement on the connection: inside a transaction it
    changes the transaction's copy, otherwise it commits on its own. *)
Definition client_update (f : DB -> DB) : ST Session unit :=
  modify (fun s => record_in StoreWrite
                     match txn s with
                     | Some d => {| world := world s; txn := Some (f d) |}
                     | None => {| world := set_db (f (db (world s))) (world s);
                                  txn := None |}
                     end).

(** A call that takes its own connection or talks to Redis: it works on
    the shared world. *)
Definition lift {A} (m : ST World A) : ST Session A :=
  fun s => match m (world s) with
           | (r, w') => (r, {| world := w'; txn := txn s |})
           end.

(** [const client = await pool.connect(); try { ... } finally
    { client.release() }] *)
Definition with_client {A} (body : ST Session A) : ST World A :=
  fun w => match body {| world := w; txn := None |} with
           | (r, s') => (r, world s')
           end.

(** ** SQL statements of RoomService *)

Definition has_key {V} (m : gmap string V) (k : string) : bool :=
  match m !! k with
  | Some _ => true
  | None => false
  end.

(** [ORDER BY]: a stable insertion sort; rows that tie on every sort key
    stay in table order. *)
Fixpoint insert_sorted {A} (le : A -> A -> bool) (x : A) (l : list A) : list A :=
  match l with
  | [] => [x]
  | y :: l' => if le x y then x :: l else y :: insert_sorted le x l'
  end.

Definition sort_by {A} (le : A -> A -> bool) (l : list A) : list A :=
  fold_right (insert_sorted le) [] l.

(** [ORDER BY qv.net_votes DESC, qv.added_at ASC] *)
Definition queue_order (a b : QueueVideo) : bool :=
  (qv_net_votes b <? qv_net_votes a)
  || ((qv_net_votes a =? qv_net_votes b) && (qv_added_at a <=? qv_added_at b)).

Definition with_votes (up down net : Z) (v : QueueVideo) : QueueVideo :=
  {| qv_id := qv_id v; qv_room_id := qv_room_id v;
     qv_youtube_video_id := qv_youtube_video_id v; qv_title := qv_title v;
     qv_thumbnail_url := qv_thumbnail_url v; qv_duration := qv_duration v;
     qv_added_by := qv_added_by v;
     qv_upvotes := up; qv_downvotes := down; qv_net_votes := net;
     qv_is_played := qv_is_played v; qv_is_current := qv_is_current v;
     qv_added_at := qv_added_at v; qv_played_at := qv_played_at v;
     qv_added_by_username := qv_added_by_username v |}.

Definition with_flags (played current : bool) (played_at : option Z)
    (v : QueueVideo) : QueueVideo :=
  {| qv_id := qv_id v; qv_room_id := qv_room_id v;
     qv_youtube_video_id := qv_youtube_video_id v; qv_title := qv_title v;
     qv_thumbnail_url := qv_thumbnail_url v; qv_duration := qv_duration v;
     qv_added_by := qv_added_by v;
     qv_upvotes := qv_upvotes v; qv_downvotes := qv_downvotes v;
     qv_net_votes := qv_net_votes v;
     qv_is_played := played; qv_is_current := current;
     qv_added_at := qv_added_at v; qv_played_at := played_at;
     qv_added_by_username := qv_added_by_username v |}.

Definition with_username (name : option string) (v : QueueVideo) : QueueVideo :=
  {| qv_id := qv_id v; qv_room_id := qv_room_id v;
     qv_youtube_video_id := qv_youtube_video_id v; qv_title := qv_title v;
     qv_thumbnail_url := qv_thumbnail_url v; qv_duration := qv_duration v;
     qv_added_by := qv_added_by v;
     qv_upvotes := qv_upvotes v; qv_downvotes := qv_downvotes v;
     qv_net_votes := qv_net_votes v;
     qv_is_played := qv_is_played v; qv_is_current := qv_is_current v;
     qv_added_at := qv_added_at v; qv_played_at := qv_played_at v;
     qv_added_by_username := name |}.

Definition set_queue_videos (l : list QueueVideo) (d : DB) : DB :=
  {| rooms := rooms d; users := users d; queue_videos := l;
     video_votes := video_votes d |}.

Definition set_video_votes (l : list VideoVote) (d : DB) : DB :=
  {| rooms := rooms d; users := users d; queue_videos := queue_videos d;
     video_votes := l |}.

Definition set_rooms (m : gmap string Room) (d : DB) : DB :=
  {| rooms := m; users := users d; queue_videos := queue_videos d;
     video_votes := video_votes d |}.

(** [UPDATE queue_videos SET ... WHERE <cond>] *)
Definition update_where (cond : QueueVideo -> bool) (f : QueueVideo -> QueueVideo)
    (l : list QueueVideo) : list QueueVideo :=
  map (fun v => if cond v then f v else v) l.

(** [SELECT qv.*, r.id as room_id FROM queue_videos qv
     JOIN rooms r ON qv.room_id = r.id
     WHERE qv.id = $1 AND qv.is_played = false] *)
Definition select_votable (videoId : string) (d : DB) : list QueueVideo :=
  List.filter (fun v => String.eqb (qv_id v) videoId
                        && negb (qv_is_played v)
                        && has_key (rooms d) (qv_room_id v))
              (queue_videos d).

Definition vote_matches (videoId userId : string) (r : VideoVote) : bool :=
  String.eqb (vv_video_id r) videoId && String.eqb (vv_user_id r) userId.

(** [SELECT vote_type FROM video_votes WHERE video_id = $1 AND user_id = $2] *)
Definition select_vote (videoId userId : string) (d : DB) : list Z :=
  map vv_vote_type (List.filter (vote_matches videoId userId) (video_votes d)).

(** [DELETE FROM video_votes WHERE video_id = $1 AND user_id = $2] *)
Definition delete_vote (videoId userId : string) (d : DB) : DB :=
  set_video_votes
    (List.filter (fun r => negb (vote_matches videoId userId r)) (video_votes d)) d.

(** [INSERT INTO video_votes (video_id, user_id, vote_type) VALUES ($1, $2, $3)
     ON CONFLICT (video_id, user_id) DO UPDATE SET vote_type = $3, ...]:
    the conflicting row is rewritten in place, otherwise a row is
    appended. *)
Definition upsert_vote (videoId userId : string) (voteType : Z) (d : DB) : DB :=
  set_video_votes
    (if existsb (vote_matches videoId userId) (video_votes d)
     then map (fun r => if vote_matches videoId userId r
                        then mkVideoVote videoId userId voteType else r)
              (video_votes d)
     else video_votes d ++ [mkVideoVote videoId userId voteType]) d.

(** [UPDATE queue_videos
     SET upvotes = upvotes + $1, downvotes = downvotes + $2,
         net_votes = upvotes + $1 - (downvotes + $2)
     WHERE id = $3]; the right-hand sides read the row as it was. *)
Definition update_vote_counts (upvoteChange downvoteChange : Z) (videoId : string)
    (d : DB) : DB :=
  set_queue_videos
    (update_where (fun v => String.eqb (qv_id v) videoId)
       (fun v => with_votes (qv_upvotes v + upvoteChange)
                            (qv_downvotes v + downvoteChange)
                            (qv_upvotes v + upvoteChange
                             - (qv_downvotes v + downvoteChange)) v)
       (queue_videos d)) d.

(** [SELECT * FROM queue_videos WHERE id = $1] *)
Definition select_video (videoId : string) (d : DB) : list QueueVideo :=
  List.filter (fun v => String.eqb (qv_id v) videoId) (queue_videos d).

(** [JOIN users u ON qv.added_by = u.id], with the column
    [u.username as added_by_username]. *)
Definition join_user (d : DB) (v : QueueVideo) : option QueueVideo :=
  match users d !! qv_added_by v with
  | Some name => Some (with_username (Some name) v)
  | None => None
  end.

(** [SELECT qv.*, u.username as added_by_username
     FROM queue_videos qv JOIN users u ON qv.added_by = u.id
     WHERE qv.room_id = $1 AND qv.is_played = false
     ORDER BY qv.net_votes DESC, qv.added_at ASC] *)
Definition select_queue (roomId : string) (d : DB) : list QueueVideo :=
  sort_by queue_order
    (omap (join_user d)
       (List.filter (fun v => String.eqb (qv_room_id v) roomId
                              && negb (qv_is_played v))
                    (queue_videos d))).

(** [SELECT qv.*, u.username as added_by_username
     FROM queue_videos qv JOIN users u ON qv.added_by = u.id
     WHERE qv.room_id = $1 AND qv.is_current = true] *)
Definition select_current (roomId : string) (d : DB) : list QueueVideo :=
  omap (join_user d)
    (List.filter (fun v => String.eqb (qv_room_id v) roomId && qv_is_current v)
                 (queue_videos d)).

(** [UPDATE queue_videos
     SET is_current = false, is_played = true, played_at = CURRENT_TIMESTAMP
     WHERE room_id = $1 AND is_current = true] *)
Definition mark_current_played (roomId : string) (timestamp : Z) (d : DB) : DB :=
  set_queue_videos
    (update_where (fun v => String.eqb (qv_room_id v) roomId && qv_is_current v)
       (with_flags true false (Some timestamp))
       (queue_videos d)) d.

(** [UPDATE queue_videos SET is_current = true WHERE id = $1] *)
Definition mark_current (videoId : string) (d : DB) : DB :=
  set_queue_videos
    (update_where (fun v => String.eqb (qv_id v) videoId)
       (fun v => with_flags (qv_is_played v) true (qv_played_at v) v)
       (queue_videos d)) d.

(** [UPDATE rooms SET current_video_id = $1 WHERE id = $2] *)
Definition update_room_current (videoId : option string) (roomId : string)
    (d : DB) : DB :=
  set_rooms
    (alter (fun r => {| r_admin_id := r_admin_id r; r_is_active := r_is_active r;
                        r_current_video_id := videoId |}) roomId (rooms d)) d.

(** ** JSON text of a queue row *)

Definition dquote : string := String (ascii_of_nat 34) EmptyString.

Definition json_string (s : string) : string := dquote +:+ s +:+ dquote.

Definition json_bool (b : bool) : string := if b then "true" else "false".

Definition json_number (n : Z) : string := pretty n.

Definition json_nullable {A} (f : A -> string) (o : option A) : string :=
  match o with
  | Some a => f a
  | None => "null"
  end.

Definition json_field (k v : string) : string := json_string k +:+ ":" +:+ v.

Fixpoint json_join (l : list string) : string :=
  match l with
  | [] => EmptyString
  | [x] => x
  | x :: l' => x +:+ "," +:+ json_join l'
  end.

(** [JSON.stringify(video)]: the properties in the order of the
    [QueueVideo] interface, [id] first; a property that is [undefined]
    is left out.  Identifiers, titles and URLs are printed without
    escapes, and the two timestamps as numbers where [JSON.stringify]
    prints the ISO text of the date. *)
Definition JSON_stringify (v : QueueVideo) : string :=
  "{" +:+ json_join
    ([ json_field "id" (json_string (qv_id v));
       json_field "room_id" (json_string (qv_room_id v));
       json_field "youtube_video_id" (json_string (qv_youtube_video_id v));
       json_field "title" (json_string (qv_title v));
       json_field "thumbnail_url" (json_string (qv_thumbnail_url v));
       json_field "duration" (json_number (qv_duration v));
       json_field "added_by" (json_string (qv_added_by v));
       json_field "upvotes" (json_number (qv_upvotes v));
       json_field "downvotes" (json_number (qv_downvotes v));
       json_field "net_votes" (json_number (qv_net_votes v));
       json_field "is_played" (json_bool (qv_is_played v));
       json_field "is_current" (json_bool (qv_is_current v));
       json_field "added_at" (json_number (qv_added_at v));
       json_field "played_at" (json_nullable json_number (qv_played_at v)) ]
     ++ match qv_added_by_username v with
        | Some name => [ json_field "added_by_username" (json_string name) ]
        | None => []
        end)
  +:+ "}".

(** ** RedisService (backend/src/services/redis.service.ts) *)

Module RedisService.

Definition set_room_queue (m : gmap string (list ZEntry)) (r : Redis) : Redis :=
  {| room_queue := m; room_votes := room_votes r; room_current := room_current r;
     room_members := room_members r; user_votes := user_votes r;
     last_update := last_update r |}.

Definition set_room_votes (m : gmap string (gmap string Z)) (r : Redis) : Redis :=
  {| room_queue := room_queue r; room_votes := m; room_current := room_current r;
     room_members := room_members r; user_votes := user_votes r;
     last_update := last_update r |}.

Definition set_room_current (m : gmap string QueueVideo) (r : Redis) : Redis :=
  {| room_queue := room_queue r; room_votes := room_votes r; room_current := m;
     room_members := room_members r; user_votes := user_votes r;
     last_update := last_update r |}.

Definition set_room_members (m : gmap string (gmap string Member)) (r : Redis) : Redis :=
  {| room_queue := room_queue r; room_votes := room_votes r;
     room_current := room_current r; room_members := m;
     user_votes := user_votes r; last_update := last_update r |}.

Definition set_user_votes (m : gmap string (gmap string Z)) (r : Redis) : Redis :=
  {| room_queue := room_queue r; room_votes := room_votes r;
     room_current := room_current r; room_members := room_members r;
     user_votes := m; last_update := last_update r |}.

Definition set_last_update (m : gmap string Z) (r : Redis) : Redis :=
  {| room_queue := room_queue r; room_votes := room_votes r;
     room_current := room_current r; room_members := room_members r;
     user_votes := user_votes r; last_update := m |}.

(** Redis commands on hashes.  A hash that loses its last field is
    removed. *)
Definition hSet {V} (key field : string) (x : V)
    (m : gmap string (gmap string V)) : gmap string (gmap string V) :=
  <[key := <[field := x]> (default ∅ (m !! key))]> m.

Definition hDel {V} `{EqDecision V} (key field : string)
    (m : gmap string (gmap string V)) : gmap string (gmap string V) :=
  match m !! key with
  | Some h => if decide (delete field h = ∅) then delete key m
              else <[key := delete field h]> m
  | None => m
  end.

Definition hGet {V} (key field : string) (m : gmap string (gmap string V)) : option V :=
  match m !! key with
  | Some h => h !! field
  | None => None
  end.

Definition hIncrBy (key field : string) (n : Z)
    (m : gmap string (gmap string Z)) : gmap string (gmap string Z) :=
  hSet key field (default 0 (hGet key field m) + n) m.

(** The order of a sorted set: by score, members of equal score by the
    bytes of the member. *)
Definition zset_le (a b : ZEntry) : bool :=
  (z_score a <? z_score b)
  || ((z_score a =? z_score b) && String.leb (z_member a) (z_member b)).

(** [zRange(key, 0, -1, { REV: true })] *)
Definition zRange_REV (z : list ZEntry) : list ZEntry :=
  rev (sort_by zset_le z).

(** [videoData[member] = score] on a JS object: a second write to the
    same property replaces the value and keeps the property's place. *)
Fixpoint record_set (e : ZEntry) (l : list ZEntry) : list ZEntry :=
  match l with
  | [] => [e]
  | x :: l' => if String.eqb (z_member x) (z_member e) then e :: l'
               else x :: record_set e l'
  end.

Definition videoData (videos : list QueueVideo) : list ZEntry :=
  fold_left (fun acc video =>
               record_set (mkZEntry (JSON_stringify video) video (qv_net_votes video)) acc)
            videos [].

(** The commands queued by [updateRoomQueue]; [now] is the reading of
    [Date.now()]. *)
Definition updateRoomQueue_pipeline (roomId : string) (videos : list QueueVideo)
    (now : Z) (r : Redis) : Redis :=
  (* Clear existing queue *)
  let r := set_room_queue (delete roomId (room_queue r)) r in
  (* Add videos with scores (net_votes for sorting) *)
  let r := if (0 <? Z.of_nat (length videos))
           then set_room_queue (<[roomId := videoData videos]> (room_queue r)) r
           else r in
  (* Update last modification timestamp *)
  set_last_update (<[roomId := now]> (last_update r)) r.

(** The commands queued by [updateVideoVote]. *)
Definition updateVideoVote_pipeline (roomId videoId userId : string)
    (oldVote : option Z) (newVote : Z) (now : Z) (r : Redis) : Redis :=
  (* Update user's vote record *)
  let r := if newVote =? 0
           then set_user_votes (hDel userId videoId (user_votes r)) r
           else set_user_votes (hSet userId videoId newVote (user_votes r)) r in
  (* Remove old vote *)
  let r := match oldVote with
           | Some old =>
               if old =? 1
               then set_room_votes (hIncrBy roomId (videoId +:+ ":upvotes") (-1) (room_votes r)) r
               else set_room_votes (hIncrBy roomId (videoId +:+ ":downvotes") (-1) (room_votes r)) r
           | None => r
           end in
  (* Add new vote *)
  let r := if negb (newVote =? 0)
           then if newVote =? 1
                then set_room_votes (hIncrBy roomId (videoId +:+ ":upvotes") 1 (room_votes r)) r
                else set_room_votes (hIncrBy roomId (videoId +:+ ":downvotes") 1 (room_votes r)) r
           else r in
  (* Update timestamp *)
  set_last_update (<[roomId := now]> (last_update r)) r.

(** A reading command, and a writing command or pipeline. *)
Definition redis_read {A} (f : Redis -> A) : ST World A :=
  fun w => (Ok (f (redis w)), record CacheRead w).

Definition update_redis (f : Redis -> Redis) : ST World unit :=
  modify (fun w => record CacheWrite (set_redis (f (redis w)) w)).

Section WithClock.

(** The readings of the wall clock: the [n]-th call of [Date.now()]
    returns [clock n]. *)
Variable clock : nat -> Z.

Definition Date_now : ST World Z :=
  fun w => (Ok (clock (ticks w)), tick w).

Definition updateRoomQueue (roomId : string) (videos : list QueueVideo) : ST World unit :=
  now <- Date_now ;;
  update_redis (updateRoomQueue_pipeline roomId videos now).

Definition getRoomQueue (roomId : string) : ST World (list QueueVideo) :=
  redis_read (fun r => map z_video
                         (zRange_REV (default [] (room_queue r !! roomId)))).

Definition setCurrentVideo (roomId : string) (video : option QueueVideo) : ST World unit :=
  update_redis (fun r =>
    match video with
    | Some v => set_room_current (<[roomId := v]> (room_current r)) r
    | None => set_room_current (delete roomId (room_current r)) r
    end) ;;;
  now <- Date_now ;;
  update_redis (fun r => set_last_update (<[roomId := now]> (last_update r)) r).

Definition getCurrentVideo (roomId : string) : ST World (option QueueVideo) :=
  redis_read (fun r => room_current r !! roomId).

Definition updateVideoVote (roomId videoId userId : string)
    (oldVote : option Z) (newVote : Z) : ST World unit :=
  now <- Date_now ;;
  update_redis (updateVideoVote_pipeline roomId videoId userId oldVote newVote now).

Definition getVideoVotes (roomId videoId : string) : ST World (Z * Z) :=
  upvotes <- redis_read (fun r => hGet roomId (videoId +:+ ":upvotes") (room_votes r)) ;;
  downvotes <- redis_read (fun r => hGet roomId (videoId +:+ ":downvotes") (room_votes r)) ;;
  ret (default 0 upvotes, default 0 downvotes).

Definition getUserVote (userId videoId : string) : ST World (option Z) :=
  redis_read (fun r => hGet userId videoId (user_votes r)).

(** [Object.values(await hGetAll(key))], here in the order of the keys
    of the map; Redis answers in an order of its own. *)
Definition getRoomMembers (roomId : string) : ST World (list Member) :=
  redis_read (fun r => map snd (map_to_list (default ∅ (room_members r !! roomId)))).

Definition getLastUpdate (roomId : string) : ST World Z :=
  timestamp <- redis_read (fun r => last_update r !! roomId) ;;
  ret (default 0 timestamp).

Definition clearRoomData (roomId : string) : ST World unit :=
  update_redis (fun r =>
    {| room_queue := delete roomId (room_queue r);
       room_votes := delete roomId (room_votes r);
       room_current := delete roomId (room_current r);
       room_members := delete roomId (room_members r);
       user_votes := user_votes r;
       last_update := delete roomId (last_update r) |}).

End WithClock.

End RedisService.

(** ** YouTubeService.extractVideoId (backend/src/services/youtube.service.ts) *)

Module YouTubeService.

(** What a JS expression of type [string | null] can be at run time. *)
Inductive JsValue :=
  | JsString (s : string)
  | JsUndefined
  | JsNull.

(** [!value] *)
Definition falsy (v : JsValue) : bool :=
  match v with
  | JsString s => String.eqb s EmptyString
  | JsUndefined => true
  | JsNull => true
  end.

(** [p] is a prefix of [s]: what is left of [s]. *)
Fixpoint strip_prefix (p s : string) : option string :=
  match p, s with
  | EmptyString, _ => Some s
  | String a p', String b s' => if Ascii.eqb a b then strip_prefix p' s' else None
  | String _ _, EmptyString => None
  end.

(** The class [[^&\n?#]]. *)
Definition id_part_char (c : ascii) : bool :=
  negb (Ascii.eqb c "&" || Ascii.eqb c (ascii_of_nat 10)
        || Ascii.eqb c "?" || Ascii.eqb c "#")%char.

(** The longest run of [[^&\n?#]] at the head of [s]. *)
Fixpoint take_id_part (s : string) : string :=
  match s with
  | EmptyString => EmptyString
  | String c s' => if id_part_char c then String c (take_id_part s') else EmptyString
  end.

(** [(?:p1|p2|...)([^&\n?#]+)] tried at the head of [s]: the match array
    (whole match, group 1) of the first alternative that is followed by
    at least one character of the class. *)
Fixpoint match_here (prefixes : list string) (s : string) : option (list string) :=
  match prefixes with
  | [] => None
  | p :: ps =>
      match strip_prefix p s with
      | Some rest =>
          match take_id_part rest with
          | EmptyString => match_here ps s
          | group => Some [p +:+ group; group]
          end
      | None => match_here ps s
      end
  end.

(** [s.match(/(?:p1|p2|...)([^&\n?#]+)/)]: the leftmost match. *)
Fixpoint match_prefixed (prefixes : list string) (s : string) : option (list string) :=
  match match_here prefixes s with
  | Some m => Some m
  | None =>
      match s with
      | EmptyString => None
      | String _ s' => match_prefixed prefixes s'
      end
  end.

(** The class [[a-zA-Z0-9_-]]. *)
Definition video_id_char (c : ascii) : bool :=
  let n := N.to_nat (N_of_ascii c) in
  ((97 <=? n) && (n <=? 122) || (65 <=? n) && (n <=? 90)
   || (48 <=? n) && (n <=? 57) || Ascii.eqb c "_" || Ascii.eqb c "-")%nat%char.

Fixpoint all_chars (f : ascii -> bool) (s : string) : bool :=
  match s with
  | EmptyString => true
  | String c s' => f c && all_chars f s'
  end.

(** [s.match(/^[a-zA-Z0-9_-]{11}$/)]: the match array has the whole
    match only, the pattern has no group. *)
Definition match_bare_id (s : string) : option (list string) :=
  if (String.length s =? 11)%nat && all_chars video_id_char s
  then Some [s] else None.

Definition patterns : list (string -> option (list string)) :=
  [ (* Standard YouTube URLs *)
    match_prefixed ["youtube.com/watch?v="; "youtu.be/"; "youtube.com/embed/"];
    (* YouTube shorts *)
    match_prefixed ["youtube.com/shorts/"];
    (* Just the video ID *)
    match_bare_id ].

(** [match[1]] *)
Definition group1 (m : list string) : JsValue :=
  match m !! 1%nat with
  | Some g => JsString g
  | None => JsUndefined
  end.

Fixpoint first_match (ps : list (string -> option (list string))) (url : string) : JsValue :=
  match ps with
  | [] => JsNull
  | pattern :: ps' =>
      match pattern url with
      | Some m => group1 m
      | None => first_match ps' url
      end
  end.

Definition extractVideoId (url : string) : JsValue := first_match patterns url.

End YouTubeService.

(** ** RoomService (backend/src/services/room.service.ts) *)

Module RoomService.

(** The awaited calls of [voteVideo], in program order.  A call that
    rejects has no effect of its own. *)
Inductive VoteStep :=
  | StepBegin          (* client.query('BEGIN') *)
  | StepSelectVideo    (* SELECT qv.*, ... *)
  | StepSelectVote     (* SELECT vote_type ... *)
  | StepWriteVote      (* DELETE / INSERT ... ON CONFLICT *)
  | StepUpdateCounts   (* UPDATE queue_videos ... *)
  | StepRedisVote      (* redisService.updateVideoVote *)
  | StepSyncQueue      (* this.syncQueueToRedis *)
  | StepCommit         (* client.query('COMMIT') *)
  | StepReselect.      (* SELECT * FROM queue_videos WHERE id = $1 *)

Definition step_index (s : VoteStep) : nat :=
  match s with
  | StepBegin => 0 | StepSelectVideo => 1 | StepSelectVote => 2
  | StepWriteVote => 3 | StepUpdateCounts => 4 | StepRedisVote => 5
  | StepSyncQueue => 6 | StepCommit => 7 | StepReselect => 8
  end.

Definition rejects (fault : option VoteStep) (here : VoteStep) : bool :=
  match fault with
  | Some s => Nat.eqb (step_index s) (step_index here)
  | None => false
  end.

(** [await call], where the call named by [fault] rejects. *)
Definition await {S A} (fault : option VoteStep) (here : VoteStep)
    (call : ST S A) : ST S A :=
  if rejects fault here then throw Transient else call.

(** "Calculate vote changes": [(upvoteChange, downvoteChange,
    finalVoteType)] from the vote on record and the vote requested. *)
Definition vote_changes (oldVote : option Z) (voteType : Z) : Z * Z * Z :=
  match oldVote with
  | None =>
      (* New vote *)
      if voteType =? 1 then (1, 0, voteType) else (0, 1, voteType)
  | Some old =>
      if negb (old =? voteType) then
        (* Changing vote *)
        let upvoteChange := if old =? 1 then -1 else 0 in
        let downvoteChange := if old =? 1 then 0 else -1 in
        if voteType =? 1 then (upvoteChange + 1, downvoteChange, voteType)
        else (upvoteChange, downvoteChange + 1, voteType)
      else
        (* Same vote - remove it *)
        if old =? 1 then (-1, 0, 0) else (0, -1, 0)
  end.

(** Modelled from the spec: the column defaults of [queue_videos] (the
    schema is not among the sources).  A submitted item starts with no
    votes, neither played nor current, stamped with its submission time;
    [id] and [added_at] are produced by the database. *)
Definition new_queue_video (id : string) (added_at : Z) (roomId videoId : string)
    (info : YouTubeVideoInfo) (userId : string) (net_votes : Z) : QueueVideo :=
  {| qv_id := id; qv_room_id := roomId; qv_youtube_video_id := videoId;
     qv_title := yt_title info; qv_thumbnail_url := yt_thumbnail_url info;
     qv_duration := yt_duration info; qv_added_by := userId;
     qv_upvotes := 0; qv_downvotes := 0; qv_net_votes := net_votes;
     qv_is_played := false; qv_is_current := false;
     qv_added_at := added_at; qv_played_at := None;
     qv_added_by_username := None |}.

(** [SELECT id FROM queue_videos
     WHERE room_id = $1 AND youtube_video_id = $2 AND is_played = false] *)
Definition select_active_duplicate (roomId videoId : string) (d : DB) : list string :=
  map qv_id
    (List.filter (fun v => String.eqb (qv_room_id v) roomId
                           && String.eqb (qv_youtube_video_id v) videoId
                           && negb (qv_is_played v))
                 (queue_videos d)).

(** [INSERT INTO queue_videos (...) VALUES (...) RETURNING *]; the
    primary key refuses an [id] that is taken. *)
Definition insert_queue_video (row : QueueVideo) : ST Session QueueVideo :=
  taken <- client_select (fun d => existsb (fun v => String.eqb (qv_id v) (qv_id row))
                                           (queue_videos d)) ;;
  if (taken : bool) then throw UniqueViolation
  else client_update (fun d => set_queue_videos (queue_videos d ++ [row]) d) ;;;
       ret row.

Section WithClock.

Variable clock : nat -> Z.

(** Sync database queue to Redis.  The method takes a connection of its
    own from the pool, so it reads committed rows. *)
Definition syncQueueToRedis (roomId : string) : ST World unit :=
  with_client (
    result <- client_select (select_queue roomId) ;;
    lift (RedisService.updateRoomQueue clock roomId result)).

(** Add video to queue.  [getVideoInfo] is the metadata lookup of
    YouTubeService; [newId] and [timestamp] are the row id and the
    [CURRENT_TIMESTAMP] the database produces. *)
Definition addVideoToQueue (getVideoInfo : string -> option YouTubeVideoInfo)
    (newId : string) (timestamp : Z)
    (roomId userId youtubeUrl : string) : ST World QueueVideo :=
  with_client (
    try_catch_rethrow (
      query_BEGIN ;;;
      (* Extract video ID *)
      let videoId := YouTubeService.extractVideoId youtubeUrl in
      if YouTubeService.falsy videoId then throw InvalidUrl else
      match videoId with
      | YouTubeService.JsString videoId =>
          (* Get video info *)
          match getVideoInfo videoId with
          | None => throw NoVideoInfo
          | Some videoInfo =>
              (* Check if video already exists in queue *)
              existingVideo <- client_select (select_active_duplicate roomId videoId) ;;
              if (0 <? Z.of_nat (length existingVideo)) then throw AlreadyInQueue else
              (* Insert video into queue *)
              queueVideo <- insert_queue_video
                              (new_queue_video newId timestamp roomId videoId
                                               videoInfo userId 0) ;;
              (* Update Redis queue *)
              lift (syncQueueToRedis roomId) ;;;
              query_COMMIT ;;;
              ret queueVideo
          end
      | _ => throw InvalidUrl
      end)
    rollback).

(** Vote on a video.  The result is [updatedVideoResult.rows[0]]. *)
Definition voteVideo (fault : option VoteStep)
    (userId videoId : string) (voteType : Z) : ST World (option QueueVideo) :=
  with_client (
    try_catch_rethrow (
      await fault StepBegin query_BEGIN ;;;
      (* Get video and room info *)
      videoResult <- await fault StepSelectVideo
                       (client_select (select_votable videoId)) ;;
      match videoResult with
      | [] => throw NotFoundOrPlayed
      | video :: _ =>
          (* Check existing vote *)
          existingVoteResult <- await fault StepSelectVote
                                  (client_select (select_vote videoId userId)) ;;
          let oldVote := head existingVoteResult in
          (* Calculate vote changes *)
          let '(upvoteChange, downvoteChange, finalVoteType) :=
            vote_changes oldVote voteType in
          (* Update or insert vote *)
          await fault StepWriteVote
            (if finalVoteType =? 0
             then client_update (delete_vote videoId userId)
             else client_update (upsert_vote videoId userId finalVoteType)) ;;;
          (* Update video vote counts *)
          await fault StepUpdateCounts
            (client_update (update_vote_counts upvoteChange downvoteChange videoId)) ;;;
          (* Update Redis vote counts *)
          await fault StepRedisVote
            (lift (RedisService.updateVideoVote clock (qv_room_id video) videoId userId
                     oldVote finalVoteType)) ;;;
          (* Sync queue to Redis (to update ordering) *)
          await fault StepSyncQueue (lift (syncQueueToRedis (qv_room_id video))) ;;;
          await fault StepCommit query_COMMIT ;;;
          (* Return updated video *)
          updatedVideoResult <- await fault StepReselect
                                  (client_select (select_video videoId)) ;;
          ret (head updatedVideoResult)
      end)
    rollback).

(** Get current queue for a room. *)
Definition getRoomQueue (roomId : string) : ST World (list QueueVideo) :=
  (* Try Redis first *)
  redisQueue <- RedisService.getRoomQueue roomId ;;
  if (0 <? Z.of_nat (length redisQueue)) then ret redisQueue else
  (* Fallback to database *)
  with_client (
    queue <- client_select (select_queue roomId) ;;
    (* Update Redis *)
    (if (0 <? Z.of_nat (length queue))
     then lift (RedisService.updateRoomQueue clock roomId queue)
     else ret tt) ;;;
    ret queue).

(** Get current playing video. *)
Definition getCurrentVideo (roomId : string) : ST World (option QueueVideo) :=
  (* Try Redis first *)
  redisVideo <- RedisService.getCurrentVideo roomId ;;
  match redisVideo with
  | Some v => ret (Some v)
  | None =>
      (* Fallback to database *)
      with_client (
        result <- client_select (select_current roomId) ;;
        let currentVideo := head result in
        (* Update Redis *)
        match currentVideo with
        | Some v => lift (RedisService.setCurrentVideo clock roomId (Some v))
        | None => ret tt
        end ;;;
        ret currentVideo)
  end.

(** [nextVideo?.id || null] *)
Definition id_or_null (nextVideo : option QueueVideo) : option string :=
  match nextVideo with
  | Some v => if String.eqb (qv_id v) EmptyString then None else Some (qv_id v)
  | None => None
  end.

(** Move to next video in queue.  [timestamp] is the database's
    [CURRENT_TIMESTAMP]. *)
Definition playNextVideo (timestamp : Z) (roomId adminId : string)
    : ST World (option QueueVideo) :=
  with_client (
    try_catch_rethrow (
      query_BEGIN ;;;
      (* Verify admin permission *)
      room <- client_select (fun d => rooms d !! roomId) ;;
      match room with
      | None => throw Unauthorized
      | Some r =>
          if negb (String.eqb (r_admin_id r) adminId) then throw Unauthorized else
          (* Mark current video as played *)
          client_update (mark_current_played roomId timestamp) ;;;
          (* Get next video (highest votes, then oldest) *)
          nextVideoResult <- client_select (fun d => take 1 (select_queue roomId d)) ;;
          nextVideo <- match nextVideoResult with
                       | row :: _ =>
                           (* Mark next video as current *)
                           client_update (mark_current (qv_id row)) ;;;
                           ret (Some (with_flags (qv_is_played row) true
                                                 (qv_played_at row) row))
                       | [] => ret None
                       end ;;
          (* Update room's current video *)
          client_update (update_room_current (id_or_null nextVideo) roomId) ;;;
          (* Update Redis *)
          lift (RedisService.setCurrentVideo clock roomId nextVideo) ;;;
          lift (syncQueueToRedis roomId) ;;;
          query_COMMIT ;;;
          ret nextVideo
      end)
    rollback).

(** Close room (admin only).  The [room_members] table is not modelled. *)
Definition closeRoom (roomId adminId : string) : ST World unit :=
  with_client (
    try_catch_rethrow (
      query_BEGIN ;;;
      room <- client_select (fun d => rooms d !! roomId) ;;
      match room with
      | None => throw Unauthorized
      | Some r =>
          if negb (String.eqb (r_admin_id r) adminId) then throw Unauthorized else
          (* Deactivate room *)
          client_update (fun d =>
            set_rooms (alter (fun r => {| r_admin_id := r_admin_id r;
                                          r_is_active := false;
                                          r_current_video_id := r_current_video_id r |})
                             roomId (rooms d)) d) ;;;
          (* Clear Redis data *)
          lift (RedisService.clearRoomData roomId) ;;;
          query_COMMIT
      end)
    rollback).

(** Get user's vote for a video. *)
Definition getUserVote (userId videoId : string) : ST World (option Z) :=
  (* Try Redis first *)
  redisVote <- RedisService.getUserVote userId videoId ;;
  match redisVote with
  | Some v => ret (Some v)
  | None =>
      (* Fallback to database *)
      with_client (
        result <- client_select (select_vote videoId userId) ;;
        ret (head result))
  end.

End WithClock.

End RoomService.

(** ** GET /api/rooms/:roomId/sync (backend/src/routes/room.routes.ts) *)

Module RoomRoutes.

(** The [data] of the response. *)
Inductive SyncData :=
  | NoUpdates (last_update : Z)
  | Updates (current_video : option QueueVideo)
            (queue : list (QueueVideo * option Z))   (* {...video, user_vote} *)
            (members : list Member)
            (members_count : nat)
            (last_update : Z).

Definition has_updates (d : SyncData) : bool :=
  match d with
  | NoUpdates _ => false
  | Updates _ _ _ _ _ => true
  end.

(** [Promise.all(queue.map(async (video) => ...))], the calls taken in
    the order of the list. *)
Fixpoint map_async {S A B} (f : A -> ST S B) (l : list A) : ST S (list B) :=
  match l with
  | [] => ret []
  | x :: l' => y <- f x ;; ys <- map_async f l' ;; ret (y :: ys)
  end.

Section WithClock.

Variable clock : nat -> Z.

(** The handler; [lastUpdate] is [parseInt(req.query.last_update || '0')]. *)
Definition sync (roomId userId : string) (lastUpdate : Z) : ST World SyncData :=
  currentLastUpdate <- RedisService.getLastUpdate roomId ;;
  (* Only send data if there are updates *)
  if currentLastUpdate <=? lastUpdate then ret (NoUpdates currentLastUpdate) else
  currentVideo <- RoomService.getCurrentVideo clock roomId ;;
  queue <- RoomService.getRoomQueue clock roomId ;;
  members <- RedisService.getRoomMembers roomId ;;
  (* Add user vote information to queue *)
  queueWithVotes <- map_async (fun video =>
                        userVote <- RoomService.getUserVote userId (qv_id video) ;;
                        ret (video, userVote)) queue ;;
  ret (Updates currentVideo queueWithVotes members (length members) currentLastUpdate).

End WithClock.

End RoomRoutes.

(** * Vocabulary of the statements *)

(** The database after a vote that went through: what the three
    statements of [voteVideo] leave when they commit. *)
Definition apply_vote (userId videoId : string) (voteType : Z) (d : DB) : DB :=
  let oldVote := head (select_vote videoId userId d) in
  let '(upvoteChange, downvoteChange, finalVoteType) :=
    RoomService.vote_changes oldVote voteType in
  update_vote_counts upvoteChange downvoteChange videoId
    ((if finalVoteType =? 0 then delete_vote videoId userId
      else upsert_vote videoId userId finalVoteType) d).

(** The vote a voter has on record for an item, as [voteVideo] reads it. *)
Definition recorded_vote (userId videoId : string) (d : DB) : option Z :=
  head (select_vote videoId userId d).

(** The row of an item, as [voteVideo] returns it. *)
Definition item_row (videoId : string) (d : DB) : option QueueVideo :=
  head (select_video videoId d).

(** At most one vote row per (item, voter) pair. *)
Definition votes_unique (d : DB) : Prop :=
  forall videoId userId,
    (length (List.filter (vote_matches videoId userId) (video_votes d)) <= 1)%nat.

(** The stored net score is the difference of the stored counters. *)
Definition net_consistent (v : QueueVideo) : Prop :=
  qv_net_votes v = qv_upvotes v - qv_downvotes v.

Definition all_net_consistent (d : DB) : Prop :=
  Forall net_consistent (queue_videos d).

(** The rows of a room that are marked current. *)
Definition current_rows (roomId : string) (l : list QueueVideo) : list QueueVideo :=
  List.filter (fun v => String.eqb (qv_room_id v) roomId && qv_is_current v) l.

(** At most one current item per room. *)
Definition one_current_per_room (d : DB) : Prop :=
  forall roomId, (length (current_rows roomId (queue_videos d)) <= 1)%nat.

(** A played item is not the current one. *)
Definition played_not_current (d : DB) : Prop :=
  forall v, In v (queue_videos d) -> qv_is_played v = true -> qv_is_current v = false.

(** The played rows of [d] are rows of [d'], field for field. *)
Definition played_rows_kept (d d' : DB) : Prop :=
  forall v, In v (queue_videos d) -> qv_is_played v = true -> In v (queue_videos d').

(** The primary key of [queue_videos]. *)
Definition primary_key (d : DB) : Prop := List.NoDup (map qv_id (queue_videos d)).

(** The update cursor of a room, as [getLastUpdate] computes it. *)
Definition cursor (roomId : string) (w : World) : Z :=
  default 0 (last_update (redis w) !! roomId).


(** The mutating operations of the engine. *)
Inductive Mutation :=
  | Vote (fault : option RoomService.VoteStep) (userId videoId : string) (voteType : Z)
  | Add (getVideoInfo : string -> option YouTubeVideoInfo) (newId : string)
        (timestamp : Z) (roomId userId youtubeUrl : string)
  | Advance (timestamp : Z) (roomId adminId : string)
  | Close (roomId adminId : string).

Definition forget {A} (o : Outcome A * World) : Outcome unit * World :=
  match o with
  | (Ok _, w) => (Ok tt, w)
  | (Throw e, w) => (Throw e, w)
  end.

Definition perform (clock : nat -> Z) (m : Mutation) (w : World) : Outcome unit * World :=
  match m with
  | Vote fault userId videoId voteType =>
      forget (RoomService.voteVideo clock fault userId videoId voteType w)
  | Add getVideoInfo newId timestamp roomId userId youtubeUrl =>
      forget (RoomService.addVideoToQueue clock getVideoInfo newId timestamp
                roomId userId youtubeUrl w)
  | Advance timestamp roomId adminId =>
      forget (RoomService.playNextVideo clock timestamp roomId adminId w)
  | Close roomId adminId =>
      forget (RoomService.closeRoom roomId adminId w)
  end.

(** The room whose cache a mutation refreshes; closing a room drops its
    cache instead. *)
Definition refreshes (m : Mutation) (w : World) (roomId : string) : Prop :=
  match m with
  | Vote _ _ videoId _ =>
      exists video rest, select_votable videoId (db w) = video :: rest
                         /\ roomId = qv_room_id video
  | Add _ _ _ r _ _ => roomId = r
  | Advance _ r _ => roomId = r
  | Close _ _ => False
  end.

(** A run of votes, one call after the other. *)
Fixpoint vote_all (clock : nat -> Z)
    (calls : list (option RoomService.VoteStep * string * string * Z))
    (w : World) : World :=
  match calls with
  | [] => w
  | (fault, userId, videoId, voteType) :: rest =>
      vote_all clock rest
        (snd (RoomService.voteVideo clock fault userId videoId voteType w))
  end.

(** The vote of a voter on an item, as [RoomService.getUserVote] finds
    it: the cache index first, the vote table otherwise. *)
Definition user_vote (userId videoId : string) (w : World) : option Z :=
  match RedisService.hGet userId videoId (user_votes (redis w)) with
  | Some v => Some v
  | None => head (select_vote videoId userId (db w))
  end.

(** The queue a read returns: the sorted set when it has members, the
    store's query otherwise. *)
Definition queue_read (roomId : string) (w : World) : list QueueVideo :=
  let cached := map z_video
                  (RedisService.zRange_REV (default [] (room_queue (redis w) !! roomId))) in
  if (0 <? Z.of_nat (length cached)) then cached else select_queue roomId (db w).

Definition current_read (roomId : string) (w : World) : option QueueVideo :=
  match room_current (redis w) !! roomId with
  | Some v => Some v
  | None => head (select_current roomId (db w))
  end.

Definition members_read (roomId : string) (w : World) : list Member :=
  map snd (map_to_list (default ∅ (room_members (redis w) !! roomId))).

(** The head of the queue once the current item is retired: the item
    [playNextVideo] promotes. *)
Definition next_video (timestamp : Z) (roomId : string) (d : DB) : option QueueVideo :=
  head (select_queue roomId (mark_current_played roomId timestamp d)).

(** [nextVideo.is_current = true] *)
Definition as_current (row : QueueVideo) : QueueVideo :=
  with_flags (qv_is_played row) true (qv_played_at row) row.

(** The store after an advance that went through. *)
Definition advance_store (timestamp : Z) (roomId : string) (d : DB) : DB :=
  let d1 := mark_current_played roomId timestamp d in
  match next_video timestamp roomId d with
  | Some row =>
      update_room_current (RoomService.id_or_null (Some (as_current row))) roomId
        (mark_current (qv_id row) d1)
  | None => update_room_current None roomId d1
  end.

(** The requester is the administrator of the room. *)
Definition is_admin (roomId adminId : string) (d : DB) : Prop :=
  exists r, rooms d !! roomId = Some r /\ r_admin_id r = adminId.

(** No item of the room is eligible to play next: every row of the room
    that joins a user is played or is the one playing now. *)
Definition no_eligible_item (roomId : string) (d : DB) : Prop :=
  forall v, In v (queue_videos d) -> qv_room_id v = roomId ->
            is_Some (users d !! qv_added_by v) ->
            qv_is_played v = true \/ qv_is_current v = true.

(** The current-item reference of a room. *)
Definition room_current_id (roomId : string) (d : DB) : option string :=
  match rooms d !! roomId with
  | Some r => r_current_video_id r
  | None => None
  end.

(** The ids of a queue that was read, in order. *)
Definition queue_ids (o : Outcome (list QueueVideo)) : option (list string) :=
  match o with
  | Ok queue => Some (map qv_id queue)
  | Throw _ => None
  end.

(** The mutation is not the closing of a room. *)
Definition keeps_cache (m : Mutation) : Prop :=
  match m with
  | Close _ _ => False
  | _ => True
  end.

(** The wall clock does not go backwards. *)
Definition clock_monotone (clock : nat -> Z) : Prop :=
  forall i j, (i <= j)%nat -> clock i <= clock j.

(** The member [updateRoomQueue] writes for a row. *)
Definition zset_entry (video : QueueVideo) : ZEntry :=
  mkZEntry (JSON_stringify video) video (qv_net_votes video).

(** The rows are in strictly descending order of net score: no ties. *)
Definition strictly_descending (videos : list QueueVideo) : Prop :=
  StronglySorted (fun a b => qv_net_votes b < qv_net_votes a) videos.

(** * Sample rooms *)

Module Sample.

Definition clock (n : nat) : Z := 1000 + Z.of_nat n.

(** A clock that stands still: every reading falls in millisecond 1000. *)
Definition same_ms (n : nat) : Z := 1000.

Definition video (id : string) (added_at : Z) : QueueVideo :=
  {| qv_id := id; qv_room_id := "r1"; qv_youtube_video_id := "yt-" +:+ id;
     qv_title := "title"; qv_thumbnail_url := "thumb"; qv_duration := 0;
     qv_added_by := "alice"; qv_upvotes := 0; qv_downvotes := 0;
     qv_net_votes := 0; qv_is_played := false; qv_is_current := false;
     qv_added_at := added_at; qv_played_at := None;
     qv_added_by_username := None |}.

(** Room r1 of alice, with items a (submitted first) and b, no votes. *)
Definition store : DB :=
  {| rooms := {[ "r1" := mkRoom "alice" true None ]};
     users := {[ "alice" := "Alice"; "bob" := "Bob" ]};
     queue_videos := [video "a" 1; video "b" 2];
     video_votes := [] |}.

Definition empty_cache : Redis := mkRedis ∅ ∅ ∅ ∅ ∅ ∅.

Definition fresh : World :=
  {| db := store; redis := empty_cache; ticks := 0; trace := [] |}.

(** The same room where bob has a downvote on a. *)
Definition downvoted : World :=
  {| db := {| rooms := rooms store; users := users store;
              queue_videos := [with_votes 0 1 (-1) (video "a" 1); video "b" 2];
              video_votes := [mkVideoVote "a" "bob" (-1)] |};
     redis := empty_cache; ticks := 0; trace := [] |}.

(** The same room with a played. *)
Definition played : World :=
  {| db := {| rooms := rooms store; users := users store;
              queue_videos := [with_flags true false (Some 5) (video "a" 1)];
              video_votes := [] |};
     redis := empty_cache; ticks := 0; trace := [] |}.

Definition info (videoId : string) : option YouTubeVideoInfo :=
  Some (mkYouTubeVideoInfo videoId "YouTube Video" "thumb" 0).

End Sample.

(** * More of the services

    Further functions of the same sources, and their callers:

    - RedisService.addRoomMember, removeRoomMember
    - YouTubeService.parseDuration, getBasicVideoInfo, getVideoInfo,
      getEmbedUrl
    - RoomService.getRoomById
    - [backend/src/routes/video.routes.ts]: POST /api/videos/add and
      DELETE /api/videos/:videoId/vote

    The answer of the YouTube videos endpoint is a parameter of
    [getVideoInfo]. *)

(** ** RedisService: room members *)

Module RedisMembers.

#[global] Instance Member_eq_dec : EqDecision Member.
Proof. solve_decision. Defined.

Section WithClock.

Variable clock : nat -> Z.

(** [addRoomMember]: the member data carries the reading of
    [Date.now()]; [hSet], then [expire]. *)
Definition addRoomMember (roomId userId username : string) : ST World unit :=
  joinedAt <- RedisService.Date_now clock ;;
  RedisService.update_redis (fun r =>
    RedisService.set_room_members
      (RedisService.hSet roomId userId (mkMember userId username joinedAt)
         (room_members r)) r) ;;;
  RedisService.update_redis (fun r => r).

(** [removeRoomMember]: [hDel]. *)
Definition removeRoomMember (roomId userId : string) : ST World unit :=
  RedisService.update_redis (fun r =>
    RedisService.set_room_members
      (RedisService.hDel roomId userId (room_members r)) r).

End WithClock.

End RedisMembers.

(** ** YouTubeService: durations and video information *)

Module YouTubeInfo.

(** The class [\d]. *)
Definition is_digit (c : ascii) : bool :=
  let n := N.to_nat (N_of_ascii c) in ((48 <=? n) && (n <=? 57))%nat.

(** The longest run of digits at the head of [s], and what follows it. *)
Fixpoint take_digits (s : string) : string * string :=
  match s with
  | EmptyString => (EmptyString, EmptyString)
  | String c s' =>
      if is_digit c
      then let (ds, rest) := take_digits s' in (String c ds, rest)
      else (EmptyString, s)
  end.

(** [(?:(\d+)U)?] at the head of [s]: the group, if the digits are there
    and the unit letter follows them, and what is left to match. *)
Definition optional_component (unit : ascii) (s : string) : option string * string :=
  match take_digits s with
  | (String d ds, String c rest) =>
      if Ascii.eqb c unit then (Some (String d ds), rest) else (None, s)
  | _ => (None, s)
  end.

(** What follows the leftmost [PT] of [s]. *)
Fixpoint after_PT (s : string) : option string :=
  match s with
  | EmptyString => None
  | String c s' =>
      match Ascii.eqb c "P", s' with
      | true, String t rest => if Ascii.eqb t "T" then Some rest else after_PT s'
      | _, _ => after_PT s'
      end
  end.

(** [parseInt] on a string of digits, as the exact integer the digits
    write.  JavaScript's [parseInt] answers a double, and the sum of
    [parseDuration] is computed on doubles: they are these integers as
    long as the result is at most 2^53, and rounded ones above. *)
Definition digit_value (c : ascii) : Z := Z.of_N (N_of_ascii c) - 48.

Fixpoint parseInt_from (acc : Z) (s : string) : Z :=
  match s with
  | EmptyString => acc
  | String c s' => parseInt_from (acc * 10 + digit_value c) s'
  end.

Definition parseInt (s : string) : Z := parseInt_from 0 s.

(** [const [, hours = '0', ...] = match]: the default for a group that
    did not take part. *)
Definition or_zero (group : option string) : string :=
  match group with
  | Some g => g
  | None => "0"
  end.

(** Parse YouTube duration format (PT4M13S) to seconds:
    [duration.match(/PT(?:(\d+)H)?(?:(\d+)M)?(?:(\d+)S)?/)]. *)
Definition parseDuration (duration : string) : Z :=
  match after_PT duration with
  | None => 0
  | Some rest =>
      let (hours, rest) := optional_component "H" rest in
      let (minutes, rest) := optional_component "M" rest in
      let (seconds, _) := optional_component "S" rest in
      parseInt (or_zero hours) * 3600 + parseInt (or_zero minutes) * 60
      + parseInt (or_zero seconds)
  end.

(** Fallback method when API is not available. *)
Definition getBasicVideoInfo (videoId : string) : YouTubeVideoInfo :=
  {| yt_video_id := videoId;
     yt_title := "YouTube Video";
     yt_thumbnail_url := "https://img.youtube.com/vi/" +:+ videoId +:+ "/hqdefault.jpg";
     yt_duration := 0 |}.

(** An item of the answer of the videos endpoint: [snippet.title],
    [snippet.thumbnails?.high?.url], [snippet.thumbnails?.default?.url]
    and [contentDetails.duration]. *)
Record ApiVideo := mkApiVideo {
  api_title         : string;
  api_thumb_high    : option string;
  api_thumb_default : option string;
  api_duration      : string
}.

(** What [axios.get] does: it rejects, or it answers with
    [response.data.items], which may be missing. *)
Inductive ApiResponse :=
  | ApiRejects
  | ApiAnswers (items : option (list ApiVideo)).

(** [a || b] on a string that may be [undefined]. *)
Definition or_else (a : option string) (b : string) : string :=
  match a with
  | Some s => if String.eqb s EmptyString then b else s
  | None => b
  end.

(** Get video information using YouTube API; [apiKey] is
    [process.env.YOUTUBE_API_KEY || ''] and [api] the endpoint. *)
Definition getVideoInfo (apiKey : string) (api : string -> ApiResponse)
    (videoId : string) : option YouTubeVideoInfo :=
  if String.eqb apiKey EmptyString then Some (getBasicVideoInfo videoId) else
  match api videoId with
  | ApiAnswers (Some (video :: _)) =>
      Some {| yt_video_id := videoId;
              yt_title := api_title video;
              yt_thumbnail_url :=
                or_else (api_thumb_high video)
                        (or_else (api_thumb_default video) EmptyString);
              yt_duration := parseDuration (api_duration video) |}
  | ApiAnswers _ => None
  | ApiRejects => Some (getBasicVideoInfo videoId)
  end.

End YouTubeInfo.

(** ** RoomService: looking a room up *)

Module RoomQueries.

(** Get room by ID: [SELECT * FROM rooms WHERE id = $1] on a connection
    of its own. *)
Definition getRoomById (roomId : string) : ST World (option Room) :=
  with_client (
    result <- client_select (fun d => rooms d !! roomId) ;;
    ret result).

End RoomQueries.

(** ** The handlers of backend/src/routes/video.routes.ts *)

(** [try { body } catch (error) { handler }] *)
Definition try_catch {S A} (body : ST S A) (handler : Error -> ST S A) : ST S A :=
  fun s => match body s with
           | (Ok a, s') => (Ok a, s')
           | (Throw e, s') => handler e s'
           end.

Module VideoRoutes.

(** The answers of POST /api/videos/add. *)
Inductive AddVideoResponse :=
  | RoomNotFound                    (* 404 'Room not found' *)
  | RoomNotActive                   (* 400 'Room is not active' *)
  | VideoAdded (video : QueueVideo) (* 201 'Video added to queue successfully' *)
  | InvalidUrlFormat                (* 400 'Invalid YouTube URL format' *)
  | AlreadyInTheQueue               (* 409 'This video is already in the queue' *)
  | NoVideoInformation.             (* 400 'Could not fetch video information. ...' *)

(** The answers of DELETE /api/videos/:videoId/vote. *)
Inductive DeleteVoteResponse :=
  | NoVoteToRemove                           (* 400 'No vote to remove' *)
  | VoteRemoved (video : option QueueVideo). (* 'Vote removed successfully' *)

Section WithClock.

Variable clock : nat -> Z.

(** POST /api/videos/add *)
Definition addVideo (getVideoInfo : string -> option YouTubeVideoInfo)
    (newId : string) (timestamp : Z)
    (room_id userId youtube_url : string) : ST World AddVideoResponse :=
  (* Verify user is in the room *)
  room <- RoomQueries.getRoomById room_id ;;
  match room with
  | None => ret RoomNotFound
  | Some r =>
      if negb (r_is_active r) then ret RoomNotActive else
      try_catch (
        video <- RoomService.addVideoToQueue clock getVideoInfo newId timestamp
                   room_id userId youtube_url ;;
        ret (VideoAdded video))
        (fun error =>
           match error with
           | InvalidUrl => ret InvalidUrlFormat
           | AlreadyInQueue => ret AlreadyInTheQueue
           | NoVideoInfo => ret NoVideoInformation
           | _ => throw error
           end)
  end.

(** DELETE /api/videos/:videoId/vote *)
Definition deleteVote (fault : option RoomService.VoteStep)
    (userId videoId : string) : ST World DeleteVoteResponse :=
  (* Get current vote to determine what to remove *)
  currentVote <- RoomService.getUserVote userId videoId ;;
  match currentVote with
  | None => ret NoVoteToRemove
  | Some vote =>
      if vote =? 0 then ret NoVoteToRemove else
      (* Vote with the same type removes the vote *)
      updatedVideo <- RoomService.voteVideo clock fault userId videoId vote ;;
      ret (VoteRemoved updatedVideo)
  end.

End WithClock.

End VideoRoutes.

(** ** YouTubeService: embed URLs *)

Module YouTubeEmbed.

(** [URLSearchParams.prototype.toString]: the
    application/x-www-form-urlencoded serializer over the bytes of the
    names and values. *)
Definition hex_digit (n : N) : ascii :=
  ascii_of_N (if (n <? 10)%N then 48 + n else 55 + n)%N.

Definition unreserved (c : ascii) : bool :=
  let n := N.to_nat (N_of_ascii c) in
  ((97 <=? n) && (n <=? 122) || (65 <=? n) && (n <=? 90)
   || (48 <=? n) && (n <=? 57)
   || Ascii.eqb c "*" || Ascii.eqb c "-" || Ascii.eqb c "." || Ascii.eqb c "_")%nat%char.

Fixpoint urlencode (s : string) : string :=
  match s with
  | EmptyString => EmptyString
  | String c s' =>
      if unreserved c then String c (urlencode s')
      else if Ascii.eqb c " " then String "+" (urlencode s')
      else String "%" (String (hex_digit (N_of_ascii c / 16))
                         (String (hex_digit (N_of_ascii c mod 16)) (urlencode s')))
  end.

Fixpoint URLSearchParams_toString (params : list (string * string)) : string :=
  match params with
  | [] => EmptyString
  | [(k, v)] => urlencode k +:+ "=" +:+ urlencode v
  | (k, v) :: rest =>
      urlencode k +:+ "=" +:+ urlencode v +:+ "&" +:+ URLSearchParams_toString rest
  end.

(** Generate embed URL; [corsOrigin] is [process.env.CORS_ORIGIN]. *)
Definition getEmbedUrl (corsOrigin : option string) (videoId : string)
    (autoplay : bool) : string :=
  let params := if autoplay then [("autoplay", "1")] else [] in
  let params := (params ++ [("enablejsapi", "1")])%list in
  let params :=
    (params ++ [("origin", YouTubeInfo.or_else corsOrigin "http://localhost:3000")])%list in
  "https://www.youtube.com/embed/" +:+ videoId +:+ "?" +:+ URLSearchParams_toString params.

End YouTubeEmbed.

(** * Vocabulary of the further statements *)

(** Every member of a room is stored under its own user id, as
    [addRoomMember] writes it. *)
Definition members_keyed (r : Redis) : Prop :=
  forall roomId h userId m,
    room_members r !! roomId = Some h -> h !! userId = Some m -> m_userId m = userId.

(** The member list of a room holds an entry for the user. *)
Definition is_member (roomId userId : string) (w : World) : bool :=
  has_key (default ∅ (room_members (redis w) !! roomId)) userId.

(** [ORDER BY net_votes DESC, added_at ASC] as a relation: [a] is not
    placed after [b]. *)
Definition plays_before (a b : QueueVideo) : Prop :=
  qv_net_votes b < qv_net_votes a
  \/ (qv_net_votes a = qv_net_votes b /\ qv_added_at a <= qv_added_at b).

(** A row that can be played next in a room: it is of the room, neither
    played nor playing, and its submitter is a user. *)
Definition eligible (roomId : string) (d : DB) (v : QueueVideo) : Prop :=
  In v (queue_videos d) /\ qv_room_id v = roomId
  /\ qv_is_played v = false /\ qv_is_current v = false
  /\ is_Some (users d !! qv_added_by v).

(** The number of votes of a type that the vote table holds for an
    item. *)
Definition tally (voteType : Z) (videoId : string) (l : list VideoVote) : Z :=
  Z.of_nat (length (List.filter
                      (fun r => String.eqb (vv_video_id r) videoId
                                && (vv_vote_type r =? voteType)) l)).

(** The counters of every item are the numbers of upvotes and downvotes
    on record for it. *)
Definition counters_tallied (d : DB) : Prop :=
  forall row, In row (queue_videos d) ->
              qv_upvotes row = tally 1 (qv_id row) (video_votes d)
              /\ qv_downvotes row = tally (-1) (qv_id row) (video_votes d).

(** Every vote on record is an upvote or a downvote. *)
Definition vote_types_valid (d : DB) : Prop :=
  forall r, In r (video_votes d) -> vv_vote_type r = 1 \/ vv_vote_type r = -1.

(** Every call of the run asks for an upvote or a downvote. *)
Definition valid_calls
    (calls : list (option RoomService.VoteStep * string * string * Z)) : Prop :=
  Forall (fun call => snd call = 1 \/ snd call = -1) calls.

(** The character does not occur in the string. *)
Definition lacks (c : ascii) (s : string) : Prop :=
  YouTubeService.all_chars (fun x => negb (Ascii.eqb x c)) s = true.

(** A run of one or more characters of the class [[^&\n?#]]. *)
Definition id_like (s : string) : Prop :=
  s <> EmptyString /\ YouTubeService.all_chars YouTubeService.id_part_char s = true.

(** The string is empty or starts with a character outside the class
    [[^&\n?#]]: a run of the class ends where it starts. *)
Definition delimits (tail : string) : Prop :=
  match tail with
  | EmptyString => True
  | String c _ => YouTubeService.id_part_char c = false
  end.

(** The prefixes the patterns of [extractVideoId] look for. *)
Definition standard_prefixes : list string :=
  ["youtube.com/watch?v="; "youtu.be/"; "youtube.com/embed/"].

Definition shorts_prefix : string := "youtube.com/shorts/".

(** A string of one or more digits. *)
Definition digits (s : string) : Prop :=
  s <> EmptyString /\ YouTubeService.all_chars YouTubeInfo.is_digit s = true.

(** A component of an ISO 8601 duration: digits and the unit letter, or
    nothing. *)
Definition component (group : option string) (unit : ascii) : string :=
  match group with
  | Some ds => ds +:+ String unit EmptyString
  | None => EmptyString
  end.

Definition component_value (group : option string) : Z :=
  match group with
  | Some ds => YouTubeInfo.parseInt ds
  | None => 0
  end.

Definition component_ok (group : option string) : Prop :=
  match group with
  | Some ds => digits ds
  | None => True
  end.

(** * Expiry

    [RedisService] gives every key it writes a time to live of 86400
    seconds, and a key whose time has run out is gone: [getLastUpdate]
    then answers 0 and the reads of the queue, of the current item and
    of the votes miss.  The clock of the Redis server is not part of the
    state.  The lapse of a key is an event of its own, which can come
    between any two calls of the services. *)

(** The keys of [RedisService.keys]. *)
Inductive Key :=
  | ROOM_QUEUE (roomId : string)
  | ROOM_VOTES (roomId : string)
  | ROOM_CURRENT (roomId : string)
  | ROOM_MEMBERS (roomId : string)
  | USER_VOTES (userId : string)
  | LAST_UPDATE (roomId : string).

Definition lapse (key : Key) (r : Redis) : Redis :=
  match key with
  | ROOM_QUEUE roomId =>
      RedisService.set_room_queue (delete roomId (room_queue r)) r
  | ROOM_VOTES roomId =>
      RedisService.set_room_votes (delete roomId (room_votes r)) r
  | ROOM_CURRENT roomId =>
      RedisService.set_room_current (delete roomId (room_current r)) r
  | ROOM_MEMBERS roomId =>
      RedisService.set_room_members (delete roomId (room_members r)) r
  | USER_VOTES userId =>
      RedisService.set_user_votes (delete userId (user_votes r)) r
  | LAST_UPDATE roomId =>
      RedisService.set_last_update (delete roomId (last_update r)) r
  end.

(** What happens to the engine between two observations: a call of a
    mutating operation, a sync, whose reads fill the cache when they
    miss it, or the lapse of a key. *)
Inductive Event :=
  | Call (m : Mutation)
  | Sync (roomId userId : string) (lastUpdate : Z)
  | Lapse (key : Key).

Definition happen (clock : nat -> Z) (e : Event) (w : World) : World :=
  match e with
  | Call m => snd (perform clock m w)
  | Sync roomId userId lastUpdate =>
      snd (RoomRoutes.sync clock roomId userId lastUpdate w)
  | Lapse key => set_redis (lapse key (redis w)) w
  end.

Fixpoint happen_all (clock : nat -> Z) (es : list Event) (w : World) : World :=
  match es with
  | [] => w
  | e :: rest => happen_all clock rest (happen clock e w)
  end.

(** The event can not take the cursor key of the room away: it is not
    the lapse of that key and not the closing of that room. *)
Definition keeps_cursor (roomId : string) (e : Event) : Prop :=
  match e with
  | Call (Close r _) => r <> roomId
  | Call _ => True
  | Sync _ _ _ => True
  | Lapse key => key <> LAST_UPDATE roomId
  end.

(** The cursor of the room is not ahead of the readings the clock has
    yet to give. *)
Definition cursor_not_ahead (clock : nat -> Z) (roomId : string) (w : World) : Prop :=
  forall n, (ticks w <= n)%nat -> cursor roomId w <= clock n.

(** What a call writes to the cursors between the worlds [w] and [w']:
    nothing, or the next clock reading, or the next two readings one
    after the other, all for one room. *)
Definition cursor_writes (clock : nat -> Z) (w w' : World) : Prop :=
  (last_update (redis w') = last_update (redis w) /\ ticks w' = ticks w)
  \/ (exists r,
        last_update (redis w') = <[r := clock (ticks w)]> (last_update (redis w))
        /\ ticks w' = S (ticks w))
  \/ (exists r,
        last_update (redis w')
        = <[r := clock (S (ticks w))]> (<[r := clock (ticks w)]> (last_update (redis w)))
        /\ ticks w' = S (S (ticks w))).

(** * What a full sync answers, in terms of the two stores *)



(** The members of the sorted set cached for the room. *)
Definition cached_queue (roomId : string) (w : World) : list ZEntry :=
  default [] (room_queue (redis w) !! roomId).



(** The reads of a full sync fill the cache: the current item or the
    queue it answers was missing from the cache and found in the
    store. *)
Definition refills (roomId : string) (w : World)
    (current : option QueueVideo) (queue : list QueueVideo) : Prop :=
  (room_current (redis w) !! roomId = None /\ current <> None)
  \/ (cached_queue roomId w = [] /\ queue <> []).

(** * Proofs *)

(** ** Running the monad *)

Ltac run_monad :=
  cbv beta iota zeta delta
    [bind ret throw modify client_select client_update query_BEGIN query_COMMIT
     lift with_client try_catch_rethrow rollback view record_in world txn
     RoomService.await RoomService.rejects RoomService.step_index Nat.eqb
     RedisService.update_redis RedisService.redis_read RedisService.Date_now
     RedisService.updateVideoVote RedisService.updateRoomQueue
     RedisService.setCurrentVideo RedisService.getLastUpdate
     RedisService.getCurrentVideo RedisService.getRoomQueue
     RedisService.getUserVote RedisService.getRoomMembers
     RedisService.clearRoomData RoomService.syncQueueToRedis
     RoomService.insert_queue_video forget].

Ltac simpl_world :=
  cbn [db redis ticks trace set_db set_redis record tick].

(** ** extractVideoId on a bare video id *)

Lemma strip_prefix_all_chars f p s rest :
  YouTubeService.strip_prefix p s = Some rest ->
  YouTubeService.all_chars f s = true ->
  YouTubeService.all_chars f p = true.
Proof.
  revert s. induction p as [|a p IH]; intros s Hp Hs; [reflexivity|].
  destruct s as [|b s]; [discriminate|]. simpl in *.
  destruct (Ascii.eqb a b) eqn:Hab; [|discriminate].
  apply Ascii.eqb_eq in Hab. subst b.
  apply andb_true_iff in Hs as [Hc Hs].
  rewrite Hc. simpl. eauto.
Qed.

Lemma match_here_none f ps s :
  Forall (fun p => YouTubeService.all_chars f p = false) ps ->
  YouTubeService.all_chars f s = true ->
  YouTubeService.match_here ps s = None.
Proof.
  intros Hps Hs. induction Hps as [|p ps Hp _ IH]; [reflexivity|].
  simpl. destruct (YouTubeService.strip_prefix p s) as [rest|] eqn:E; [|exact IH].
  rewrite (strip_prefix_all_chars _ _ _ _ E Hs) in Hp. discriminate.
Qed.

Lemma match_prefixed_none f ps s :
  Forall (fun p => YouTubeService.all_chars f p = false) ps ->
  YouTubeService.all_chars f s = true ->
  YouTubeService.match_prefixed ps s = None.
Proof.
  intros Hps. induction s as [|c s IH]; intros Hs.
  - simpl. now rewrite (match_here_none f).
  - cbn [YouTubeService.match_prefixed].
    rewrite (match_here_none f) by assumption.
    simpl in Hs. apply andb_true_iff in Hs as [_ Hs]. auto.
Qed.

Lemma extractVideoId_bare_id (s : string) :
  String.length s = 11%nat ->
  YouTubeService.all_chars YouTubeService.video_id_char s = true ->
  YouTubeService.extractVideoId s = YouTubeService.JsUndefined.
Proof.
  intros Hlen Hs.
  unfold YouTubeService.extractVideoId, YouTubeService.patterns.
  cbn [YouTubeService.first_match].
  rewrite (match_prefixed_none YouTubeService.video_id_char)
    by (try assumption; repeat constructor).
  rewrite (match_prefixed_none YouTubeService.video_id_char)
    by (try assumption; repeat constructor).
  unfold YouTubeService.match_bare_id. rewrite Hlen, Hs. reflexivity.
Qed.

(** C10.  For every string that is exactly an 11-character video id
    (eleven characters of [[A-Za-z0-9_-]]), [extractVideoId] returns
    [undefined], a falsy value that is not a string, and so
    [addVideoToQueue] rejects the bare id with 'Invalid YouTube URL',
    whatever the metadata lookup would answer; nothing is stored. *)
Theorem C10_bare_video_id_rejected :
  forall (s : string),
    String.length s = 11%nat ->
    YouTubeService.all_chars YouTubeService.video_id_char s = true ->
    YouTubeService.extractVideoId s = YouTubeService.JsUndefined
    /\ YouTubeService.falsy (YouTubeService.extractVideoId s) = true
    /\ (forall t, YouTubeService.extractVideoId s <> YouTubeService.JsString t)
    /\ (forall clock getVideoInfo newId timestamp roomId userId w,
          RoomService.addVideoToQueue clock getVideoInfo newId timestamp
            roomId userId s w = (Throw InvalidUrl, w)).
Proof.
  intros s Hlen Hs.
  pose proof (extractVideoId_bare_id s Hlen Hs) as E.
  rewrite E. repeat split; try discriminate.
  intros. unfold RoomService.addVideoToQueue. rewrite E.
  run_monad. simpl. destruct w; reflexivity.
Qed.

Lemma C10_bare_video_id_rejected_witness :
  YouTubeService.extractVideoId "dQw4w9WgXcQ" = YouTubeService.JsUndefined
  /\ fst (RoomService.addVideoToQueue Sample.clock Sample.info "c" 3
            "r1" "bob" "dQw4w9WgXcQ" Sample.fresh) = Throw InvalidUrl.
Proof.
  destruct (C10_bare_video_id_rejected "dQw4w9WgXcQ") as (E & _ & _ & H);
    [reflexivity | reflexivity |].
  split; [exact E|]. rewrite H. reflexivity.
Defined.

(** ** Sanity checks of the model *)

Example extractVideoId_watch :
  YouTubeService.extractVideoId "https://www.youtube.com/watch?v=dQw4w9WgXcQ&t=1"
  = YouTubeService.JsString "dQw4w9WgXcQ".
Proof. reflexivity. Qed.

Example extractVideoId_short_link :
  YouTubeService.extractVideoId "https://youtu.be/dQw4w9WgXcQ?t=1"
  = YouTubeService.JsString "dQw4w9WgXcQ".
Proof. reflexivity. Qed.

Example extractVideoId_shorts :
  YouTubeService.extractVideoId "https://www.youtube.com/shorts/abcdefghijk"
  = YouTubeService.JsString "abcdefghijk".
Proof. reflexivity. Qed.

Example extractVideoId_other_site :
  YouTubeService.extractVideoId "https://example.com/video" = YouTubeService.JsNull.
Proof. reflexivity. Qed.

(** The scenario of the spec, read from the store: after bob's +1 on a
    the order is a, b; after alice's -1 on a and carol's +1 on b it is
    b, a; the advance then makes b current. *)
Example scenario_store_order :
  let w1 := snd (RoomService.voteVideo Sample.clock None "bob" "a" 1 Sample.fresh) in
  let w2 := snd (RoomService.voteVideo Sample.clock None "alice" "a" (-1) w1) in
  let w3 := snd (RoomService.voteVideo Sample.clock None "carol" "b" 1 w2) in
  map qv_id (select_queue "r1" (db w1)) = ["a"; "b"]
  /\ map qv_net_votes (select_queue "r1" (db w1)) = [1; 0]
  /\ map qv_id (select_queue "r1" (db w3)) = ["b"; "a"]
  /\ map qv_net_votes (select_queue "r1" (db w3)) = [1; 0]
  /\ option_map qv_id (next_video 10 "r1" (db w3)) = Some "b".
Proof. vm_compute. repeat split; reflexivity. Qed.

Example add_then_vote :
  let added := RoomService.addVideoToQueue Sample.clock Sample.info "c" 3 "r1" "bob"
                 "https://youtu.be/abcdefghijk" Sample.fresh in
  map qv_id (queue_videos (db (snd added))) = ["a"; "b"; "c"]
  /\ map qv_youtube_video_id (queue_videos (db (snd added)))
     = ["yt-a"; "yt-b"; "abcdefghijk"].
Proof. vm_compute. split; reflexivity. Qed.

(** ** voteVideo, step by step *)

Lemma voteVideo_run clock userId videoId voteType w video rest :
  select_votable videoId (db w) = video :: rest ->
  exists w',
    RoomService.voteVideo clock None userId videoId voteType w
      = (Ok (item_row videoId (apply_vote userId videoId voteType (db w))), w')
    /\ db w' = apply_vote userId videoId voteType (db w)
    /\ redis w' =
         RedisService.updateRoomQueue_pipeline (qv_room_id video)
           (select_queue (qv_room_id video) (db w)) (clock (S (ticks w)))
           (RedisService.updateVideoVote_pipeline (qv_room_id video) videoId userId
              (recorded_vote userId videoId (db w))
              (snd (RoomService.vote_changes
                      (recorded_vote userId videoId (db w)) voteType))
              (clock (ticks w)) (redis w))
    /\ ticks w' = S (S (ticks w)).
Proof.
  intros E. unfold RoomService.voteVideo, apply_vote, item_row, recorded_vote.
  run_monad. rewrite E.
  destruct (RoomService.vote_changes _ voteType) as [[up down] final].
  destruct (final =? 0); run_monad; eexists; repeat split; reflexivity.
Qed.

Lemma voteVideo_not_found clock userId videoId voteType w :
  select_votable videoId (db w) = [] ->
  RoomService.voteVideo clock None userId videoId voteType w
    = (Throw NotFoundOrPlayed, record StoreRead w).
Proof.
  intros E. unfold RoomService.voteVideo. run_monad. rewrite E. reflexivity.
Qed.

(** Whatever call rejects, the store ends as it was or, the item being
    votable, with the whole vote applied. *)
Lemma voteVideo_db clock fault userId videoId voteType w :
  db (snd (RoomService.voteVideo clock fault userId videoId voteType w)) = db w
  \/ (select_votable videoId (db w) <> []
      /\ db (snd (RoomService.voteVideo clock fault userId videoId voteType w))
         = apply_vote userId videoId voteType (db w)).
Proof.
  unfold RoomService.voteVideo, apply_vote.
  destruct fault as [[]|]; run_monad; try (left; reflexivity);
    (destruct (select_votable videoId (db w)) as [|video rest];
     [left; reflexivity|]);
    try (left; reflexivity);
    destruct (RoomService.vote_changes _ voteType) as [[up down] final];
    destruct (final =? 0); run_monad;
    first [left; reflexivity | right; split; [discriminate | reflexivity]].
Qed.

(** A failed call: the transaction is rolled back unless the failure
    comes after COMMIT, and the cache keeps what was written to it. *)
Lemma voteVideo_failed clock fault userId videoId voteType w e w' :
  RoomService.voteVideo clock fault userId videoId voteType w = (Throw e, w') ->
  (fault <> Some RoomService.StepReselect -> db w' = db w)
  /\ (fault <> Some RoomService.StepSyncQueue ->
      fault <> Some RoomService.StepCommit ->
      fault <> Some RoomService.StepReselect ->
      redis w' = redis w /\ ticks w' = ticks w)
  /\ (e = NotFoundOrPlayed ->
      db w' = db w /\ redis w' = redis w /\ ticks w' = ticks w).
Proof.
  unfold RoomService.voteVideo.
  assert (forall (P Q : Prop), P -> (P -> Q) -> P /\ Q) as both by tauto.
  destruct fault as [[]|]; run_monad;
    try (intros [= <- <-]; repeat split; intros; first [reflexivity | congruence]);
    (destruct (select_votable videoId (db w)) as [|video rest];
     [intros [= <- <-]; repeat split; intros; first [reflexivity | congruence]|]);
    try (intros [= <- <-]; repeat split; intros; first [reflexivity | congruence]);
    destruct (RoomService.vote_changes _ voteType) as [[up down] final];
    destruct (final =? 0); run_monad;
    try discriminate;
    intros [= <- <-]; repeat split; intros; first [reflexivity | congruence].
Qed.

Lemma voteVideo_ok_fault clock fault userId videoId voteType w r w' :
  RoomService.voteVideo clock fault userId videoId voteType w = (Ok r, w') ->
  fault = None /\ select_votable videoId (db w) <> [].
Proof.
  unfold RoomService.voteVideo.
  destruct fault as [[]|]; run_monad; try discriminate;
    (destruct (select_votable videoId (db w)) as [|video rest];
     [discriminate|]);
    try discriminate;
    destruct (RoomService.vote_changes _ voteType) as [[up down] final];
    destruct (final =? 0); run_monad; try discriminate; intros _; split; congruence.
Qed.

(** ** The SQL statements of a vote *)

Lemma vote_matches_spec videoId userId r :
  vote_matches videoId userId r = true
  <-> vv_video_id r = videoId /\ vv_user_id r = userId.
Proof.
  unfold vote_matches. rewrite andb_true_iff, !String.eqb_eq. reflexivity.
Qed.

Lemma filter_map_same {A} (p : A -> bool) (g : A -> A) (l : list A) :
  (forall x, p (g x) = p x) ->
  List.filter p (map g l) = map g (List.filter p l).
Proof.
  intros Hp. induction l as [|x l IH]; [reflexivity|].
  simpl. rewrite Hp. destruct (p x); simpl; now rewrite IH.
Qed.

Lemma filter_filter_negb {A} (p : A -> bool) (l : list A) :
  List.filter p (List.filter (fun x => negb (p x)) l) = [].
Proof.
  induction l as [|x l IH]; [reflexivity|].
  simpl. destruct (p x) eqn:E; simpl; [exact IH|]. now rewrite E.
Qed.

Lemma filter_length_le {A} (p : A -> bool) (l : list A) :
  (length (List.filter p l) <= length l)%nat.
Proof.
  induction l as [|x l IH]; simpl; [lia|]. destruct (p x); simpl; lia.
Qed.

Lemma filter_comm {A} (p q : A -> bool) (l : list A) :
  List.filter p (List.filter q l) = List.filter q (List.filter p l).
Proof.
  induction l as [|x l IH]; [reflexivity|].
  simpl. destruct (p x) eqn:Ep, (q x) eqn:Eq; simpl;
    rewrite ?Ep, ?Eq, IH; reflexivity.
Qed.

Lemma existsb_false_filter {A} (p : A -> bool) (l : list A) :
  existsb p l = false -> List.filter p l = [].
Proof.
  induction l as [|x l IH]; [reflexivity|].
  simpl. destruct (p x); simpl; [discriminate | exact IH].
Qed.

(** The row [INSERT ... ON CONFLICT DO UPDATE] writes has the key of the
    row it replaces. *)
Lemma upsert_row_key videoId userId voteType v' u' r :
  vote_matches v' u'
    (if vote_matches videoId userId r
     then mkVideoVote videoId userId voteType else r)
  = vote_matches v' u' r.
Proof.
  destruct (vote_matches videoId userId r) eqn:E; [|reflexivity].
  apply vote_matches_spec in E as [<- <-]. reflexivity.
Qed.

Lemma select_vote_delete videoId userId d :
  select_vote videoId userId (delete_vote videoId userId d) = [].
Proof.
  unfold select_vote, delete_vote. simpl. now rewrite filter_filter_negb.
Qed.

Lemma select_vote_upsert videoId userId voteType d :
  head (select_vote videoId userId (upsert_vote videoId userId voteType d))
  = Some voteType.
Proof.
  unfold select_vote, upsert_vote. simpl.
  destruct (existsb _ (video_votes d)) eqn:E.
  - induction (video_votes d) as [|r l IH]; [discriminate|].
    simpl in *. destruct (vote_matches videoId userId r) eqn:Er; simpl.
    + unfold vote_matches at 1. simpl. now rewrite !String.eqb_refl.
    + rewrite Er. simpl. auto.
  - rewrite List.filter_app, (existsb_false_filter _ _ E). simpl.
    unfold vote_matches. simpl. now rewrite !String.eqb_refl.
Qed.

Lemma votes_unique_delete videoId userId d :
  votes_unique d -> votes_unique (delete_vote videoId userId d).
Proof.
  intros H v u. unfold delete_vote. simpl.
  rewrite filter_comm. specialize (H v u).
  etransitivity; [apply filter_length_le | exact H].
Qed.

Lemma votes_unique_upsert videoId userId voteType d :
  votes_unique d -> votes_unique (upsert_vote videoId userId voteType d).
Proof.
  intros H v u. unfold upsert_vote. simpl.
  destruct (existsb _ (video_votes d)) eqn:E.
  - rewrite filter_map_same by (intros; apply upsert_row_key).
    rewrite length_map. apply H.
  - rewrite List.filter_app, length_app. simpl.
    destruct (vote_matches v u (mkVideoVote videoId userId voteType)) eqn:Ev.
    + apply vote_matches_spec in Ev as [<- <-]. simpl.
      rewrite (existsb_false_filter _ _ E). simpl. lia.
    + simpl. specialize (H v u). lia.
Qed.

Lemma select_video_update_counts up down videoId d :
  select_video videoId (update_vote_counts up down videoId d)
  = map (fun v => with_votes (qv_upvotes v + up) (qv_downvotes v + down)
                    (qv_upvotes v + up - (qv_downvotes v + down)) v)
        (select_video videoId d).
Proof.
  unfold select_video, update_vote_counts, update_where. simpl.
  induction (queue_videos d) as [|x l IH]; [reflexivity|].
  simpl. destruct (String.eqb (qv_id x) videoId) eqn:E; simpl; rewrite E; simpl;
    now rewrite IH.
Qed.

(** ** The store after a vote *)

Lemma item_row_apply_vote userId videoId voteType d :
  item_row videoId (apply_vote userId videoId voteType d)
  = option_map
      (fun v =>
         let '(up, down, _) :=
           RoomService.vote_changes (recorded_vote userId videoId d) voteType in
         with_votes (qv_upvotes v + up) (qv_downvotes v + down)
                    (qv_upvotes v + up - (qv_downvotes v + down)) v)
      (item_row videoId d).
Proof.
  unfold item_row, apply_vote, recorded_vote.
  destruct (RoomService.vote_changes _ voteType) as [[up down] final].
  rewrite select_video_update_counts.
  assert (select_video videoId
            ((if final =? 0 then delete_vote videoId userId
              else upsert_vote videoId userId final) d)
          = select_video videoId d) as -> by (destruct (final =? 0); reflexivity).
  destruct (select_video videoId d); reflexivity.
Qed.

Lemma recorded_vote_apply_vote userId videoId voteType d :
  recorded_vote userId videoId (apply_vote userId videoId voteType d)
  = let final := snd (RoomService.vote_changes
                        (recorded_vote userId videoId d) voteType) in
    if final =? 0 then None else Some final.
Proof.
  unfold recorded_vote, apply_vote.
  destruct (RoomService.vote_changes _ voteType) as [[up down] final]. simpl.
  destruct (final =? 0).
  - change (head (select_vote videoId userId (delete_vote videoId userId d)) = None).
    now rewrite select_vote_delete.
  - change (head (select_vote videoId userId (upsert_vote videoId userId final d))
            = Some final).
    apply select_vote_upsert.
Qed.


Lemma votes_unique_apply_vote userId videoId voteType d :
  votes_unique d -> votes_unique (apply_vote userId videoId voteType d).
Proof.
  intros H. unfold apply_vote.
  destruct (RoomService.vote_changes _ voteType) as [[up down] final].
  intros v u. unfold update_vote_counts. simpl.
  destruct (final =? 0);
    [apply votes_unique_delete | apply votes_unique_upsert]; exact H.
Qed.



(** ** C1: the transition table *)



(** ** C2: the net score *)

Lemma update_vote_counts_consistent up down videoId d :
  all_net_consistent d -> all_net_consistent (update_vote_counts up down videoId d).
Proof.
  unfold all_net_consistent, update_vote_counts, update_where. simpl.
  intros H. induction H as [|x l Hx _ IH]; simpl; constructor; [|exact IH].
  destruct (String.eqb (qv_id x) videoId); [reflexivity | exact Hx].
Qed.

Lemma update_vote_counts_voted up down videoId d row :
  In row (queue_videos (update_vote_counts up down videoId d)) ->
  qv_id row = videoId -> net_consistent row.
Proof.
  unfold update_vote_counts, update_where. simpl.
  rewrite in_map_iff. intros (x & <- & _) Hid.
  destruct (String.eqb (qv_id x) videoId) eqn:E; [reflexivity|].
  apply String.eqb_neq in E. contradiction.
Qed.

Lemma apply_vote_consistent userId videoId voteType d :
  all_net_consistent d -> all_net_consistent (apply_vote userId videoId voteType d).
Proof.
  intros H. unfold apply_vote.
  destruct (RoomService.vote_changes _ voteType) as [[up down] final].
  apply update_vote_counts_consistent.
  destruct (final =? 0); exact H.
Qed.

Lemma apply_vote_voted userId videoId voteType d row :
  In row (queue_videos (apply_vote userId videoId voteType d)) ->
  qv_id row = videoId -> net_consistent row.
Proof.
  unfold apply_vote.
  destruct (RoomService.vote_changes _ voteType) as [[up down] final].
  apply update_vote_counts_voted.
Qed.

Lemma voteVideo_consistent clock fault userId videoId voteType w :
  all_net_consistent (db w) ->
  all_net_consistent
    (db (snd (RoomService.voteVideo clock fault userId videoId voteType w))).
Proof.
  intros H.
  destruct (voteVideo_db clock fault userId videoId voteType w) as [-> | [_ ->]];
    [exact H | now apply apply_vote_consistent].
Qed.

(** C2.  From a store whose items all have [net_votes = upvotes -
    downvotes], any sequence of [voteVideo] calls, by any voters on any
    items, failed calls included, leaves every item with [net_votes =
    upvotes - downvotes]; and a call that succeeds leaves the voted item
    so whatever was stored before, since the UPDATE recomputes
    [net_votes] from the two counters. *)
Theorem C2_net_votes_is_difference :
  forall clock,
    (forall calls w,
        all_net_consistent (db w) ->
        all_net_consistent (db (vote_all clock calls w)))
    /\ (forall fault userId videoId voteType w r w',
          RoomService.voteVideo clock fault userId videoId voteType w = (Ok r, w') ->
          forall row, In row (queue_videos (db w')) -> qv_id row = videoId ->
                      qv_net_votes row = qv_upvotes row - qv_downvotes row).
Proof.
  intros clock. split.
  - induction calls as [|[[[fault userId] videoId] voteType] calls IH];
      intros w H; [exact H|].
    simpl. apply IH. now apply voteVideo_consistent.
  - intros fault userId videoId voteType w r w' Hrun row Hin Hid.
    destruct (voteVideo_ok_fault _ _ _ _ _ _ _ _ Hrun) as [-> Hv].
    destruct (select_votable videoId (db w)) as [|video rest] eqn:E; [congruence|].
    destruct (voteVideo_run clock userId videoId voteType w video rest E)
      as (w1 & Hrun1 & Hdb & _).
    rewrite Hrun in Hrun1. injection Hrun1 as _ <-.
    rewrite Hdb in Hin. exact (apply_vote_voted _ _ _ _ _ Hin Hid).
Qed.

Lemma C2_net_votes_is_difference_witness :
  all_net_consistent
    (db (vote_all Sample.clock
           [ (None, "bob", "a", 1); (None, "alice", "a", -1);
             (Some RoomService.StepCommit, "alice", "b", 1);
             (None, "bob", "a", -1); (None, "bob", "b", 1) ]
           Sample.fresh)).
Proof.
  apply (proj1 (C2_net_votes_is_difference Sample.clock)).
  repeat constructor.
Defined.

(** ** C8: the same vote twice *)




(** ** C5: a vote that fails *)

(** C5, amended.  When [voteVideo] fails, the vote row and the item's
    counters are exactly as before the call unless the rejected call is
    the re-read after COMMIT; the cache (per-user vote index, per-video
    counts, queue, cursor) is exactly as before the call when the
    failure is the not-found-or-played error or a rejection up to and
    including the Redis vote update, that is, for every rejection other
    than that of the queue sync, of COMMIT or of the re-read. *)
Theorem C5_failed_vote_effects :
  forall clock fault userId videoId voteType w e w',
    RoomService.voteVideo clock fault userId videoId voteType w = (Throw e, w') ->
    (fault <> Some RoomService.StepReselect -> db w' = db w)
    /\ (fault <> Some RoomService.StepSyncQueue ->
        fault <> Some RoomService.StepCommit ->
        fault <> Some RoomService.StepReselect ->
        redis w' = redis w)
    /\ (e = NotFoundOrPlayed -> db w' = db w /\ redis w' = redis w).
Proof.
  intros clock fault userId videoId voteType w e w' Hrun.
  destruct (voteVideo_failed _ _ _ _ _ _ _ _ Hrun) as (Hdb & Hcache & Hnf).
  split; [exact Hdb|]. split.
  - intros H1 H2 H3. now destruct (Hcache H1 H2 H3).
  - intros He. destruct (Hnf He) as (? & ? & ?). now split.
Qed.

Lemma C5_failed_vote_effects_witness :
  exists w',
    RoomService.voteVideo Sample.clock (Some RoomService.StepUpdateCounts)
      "bob" "a" 1 Sample.fresh = (Throw Transient, w')
    /\ db w' = db Sample.fresh /\ redis w' = redis Sample.fresh.
Proof.
  set (w' := snd (RoomService.voteVideo Sample.clock
                    (Some RoomService.StepUpdateCounts) "bob" "a" 1 Sample.fresh)).
  assert (RoomService.voteVideo Sample.clock (Some RoomService.StepUpdateCounts)
            "bob" "a" 1 Sample.fresh = (Throw Transient, w'))
    as Hrun by (vm_compute; reflexivity).
  pose proof (C5_failed_vote_effects _ _ _ _ _ _ _ _ Hrun) as (Hdb & Hcache & _).
  exists w'. split; [exact Hrun|].
  split; [apply Hdb; discriminate | apply Hcache; discriminate].
Defined.

(** The claim of C5 fails when the queue sync rejects: the call fails
    and the store is rolled back, but the cache keeps bob's vote in the
    per-user index, the upvote in the per-video counts and the advanced
    cursor. *)
Lemma C5_counterexample :
  let before := Sample.fresh in
  let call := RoomService.voteVideo Sample.clock (Some RoomService.StepSyncQueue)
                "bob" "a" 1 before in
  fst call = Throw Transient
  /\ db (snd call) = db before
  /\ RedisService.hGet "bob" "a" (user_votes (redis before)) = None
  /\ RedisService.hGet "bob" "a" (user_votes (redis (snd call))) = Some 1
  /\ RedisService.hGet "r1" "a:upvotes" (room_votes (redis before)) = None
  /\ RedisService.hGet "r1" "a:upvotes" (room_votes (redis (snd call))) = Some 1
  /\ cursor "r1" before = 0
  /\ cursor "r1" (snd call) = 1000.
Proof.
  vm_compute. repeat split; reflexivity.
Qed.

(** ** What the pipelines touch *)

Lemma updateRoomQueue_pipeline_last_update roomId videos now r :
  last_update (RedisService.updateRoomQueue_pipeline roomId videos now r)
  = <[roomId := now]> (last_update r).
Proof.
  unfold RedisService.updateRoomQueue_pipeline.
  destruct (0 <? Z.of_nat (length videos)); reflexivity.
Qed.

Lemma updateRoomQueue_pipeline_room_current roomId videos now r :
  room_current (RedisService.updateRoomQueue_pipeline roomId videos now r)
  = room_current r.
Proof.
  unfold RedisService.updateRoomQueue_pipeline.
  destruct (0 <? Z.of_nat (length videos)); reflexivity.
Qed.

Lemma updateRoomQueue_pipeline_user_votes roomId videos now r :
  user_votes (RedisService.updateRoomQueue_pipeline roomId videos now r)
  = user_votes r.
Proof.
  unfold RedisService.updateRoomQueue_pipeline.
  destruct (0 <? Z.of_nat (length videos)); reflexivity.
Qed.

Lemma updateRoomQueue_pipeline_room_members roomId videos now r :
  room_members (RedisService.updateRoomQueue_pipeline roomId videos now r)
  = room_members r.
Proof.
  unfold RedisService.updateRoomQueue_pipeline.
  destruct (0 <? Z.of_nat (length videos)); reflexivity.
Qed.

Lemma updateRoomQueue_pipeline_room_queue roomId videos now r :
  videos <> [] ->
  room_queue (RedisService.updateRoomQueue_pipeline roomId videos now r) !! roomId
  = Some (RedisService.videoData videos).
Proof.
  intros Hne. unfold RedisService.updateRoomQueue_pipeline.
  destruct videos as [|v videos]; [congruence|].
  replace (0 <? Z.of_nat (length (v :: videos))) with true
    by (symmetry; apply Z.ltb_lt; simpl; lia).
  simpl. apply lookup_insert_eq.
Qed.

(** ** playNextVideo, step by step *)

Lemma playNextVideo_unauthorized clock timestamp roomId adminId w :
  ~ is_admin roomId adminId (db w) ->
  RoomService.playNextVideo clock timestamp roomId adminId w
    = (Throw Unauthorized, record StoreRead w).
Proof.
  intros Hna. unfold RoomService.playNextVideo. run_monad.
  destruct (rooms (db w) !! roomId) as [r|] eqn:E; [|reflexivity].
  destruct (String.eqb (r_admin_id r) adminId) eqn:Ea; [|reflexivity].
  apply String.eqb_eq in Ea. exfalso. apply Hna. now exists r.
Qed.

Lemma playNextVideo_run clock timestamp roomId adminId w :
  is_admin roomId adminId (db w) ->
  exists w',
    RoomService.playNextVideo clock timestamp roomId adminId w
      = (Ok (option_map as_current (next_video timestamp roomId (db w))), w')
    /\ db w' = advance_store timestamp roomId (db w)
    /\ room_current (redis w') !! roomId
       = option_map as_current (next_video timestamp roomId (db w))
    /\ last_update (redis w') !! roomId = Some (clock (S (ticks w)))
    /\ ticks w' = S (S (ticks w)).
Proof.
  intros (r & Hr & Ha). unfold RoomService.playNextVideo, advance_store, next_video.
  run_monad. rewrite Hr. apply String.eqb_eq in Ha. rewrite Ha.
  cbv beta iota delta [negb].
  destruct (select_queue roomId (mark_current_played roomId timestamp (db w)))
    as [|row rest]; run_monad; cbn [take head option_map]; run_monad;
    eexists; (split; [reflexivity|]); (split; [reflexivity|]);
    simpl_world;
    rewrite updateRoomQueue_pipeline_room_current,
      updateRoomQueue_pipeline_last_update; cbn;
    rewrite !lookup_insert_eq, ?lookup_delete_eq; auto.
Qed.

(** Every failure of an advance is the authorisation failure. *)
Lemma playNextVideo_outcome clock timestamp roomId adminId w :
  (is_admin roomId adminId (db w)
   /\ exists r w', RoomService.playNextVideo clock timestamp roomId adminId w
                   = (Ok r, w'))
  \/ (~ is_admin roomId adminId (db w)
      /\ RoomService.playNextVideo clock timestamp roomId adminId w
         = (Throw Unauthorized, record StoreRead w)).
Proof.
  destruct (rooms (db w) !! roomId) as [r|] eqn:E.
  - destruct (String.eqb (r_admin_id r) adminId) eqn:Ea.
    + left. apply String.eqb_eq in Ea.
      assert (is_admin roomId adminId (db w)) as H by now exists r.
      split; [exact H|].
      destruct (playNextVideo_run clock timestamp roomId adminId w H) as (w' & Hrun & _).
      eauto.
    + right. apply String.eqb_neq in Ea.
      assert (~ is_admin roomId adminId (db w)) as H.
      { intros (r' & Hr' & Ha'). rewrite E in Hr'. congruence. }
      split; [exact H | now apply playNextVideo_unauthorized].
  - right.
    assert (~ is_admin roomId adminId (db w)) as H.
    { intros (r' & Hr' & _). rewrite E in Hr'. discriminate. }
    split; [exact H | now apply playNextVideo_unauthorized].
Qed.

(** ** Facts about the queue query *)

Lemma In_insert_sorted {A} (le : A -> A -> bool) (x y : A) (l : list A) :
  In y (insert_sorted le x l) <-> y = x \/ In y l.
Proof.
  induction l as [|z l IH]; simpl; [intuition congruence|].
  destruct (le x z); simpl; [intuition congruence|].
  rewrite IH. intuition congruence.
Qed.

Lemma In_sort_by {A} (le : A -> A -> bool) (y : A) (l : list A) :
  In y (sort_by le l) <-> In y l.
Proof.
  induction l as [|x l IH]; simpl; [reflexivity|].
  rewrite In_insert_sorted, IH. intuition congruence.
Qed.

Lemma sort_by_nil {A} (le : A -> A -> bool) (l : list A) :
  sort_by le l = [] <-> l = [].
Proof.
  split; [|intros ->; reflexivity].
  destruct l as [|x l]; [reflexivity|]. intros H.
  assert (In x (sort_by le (x :: l))) as Hin by (apply In_sort_by; now left).
  rewrite H in Hin. destruct Hin.
Qed.

Lemma omap_nil {A B} (f : A -> option B) (l : list A) :
  (forall x, In x l -> f x = None) -> omap f l = [].
Proof.
  induction l as [|x l IH]; intros H; [reflexivity|].
  simpl. rewrite (H x) by now left. apply IH. intros y Hy. apply H. now right.
Qed.

Lemma In_omap {A B} (f : A -> option B) (l : list A) (y : B) :
  In y (omap f l) -> exists x, In x l /\ f x = Some y.
Proof.
  induction l as [|x l IH]; simpl; [tauto|].
  destruct (f x) as [b|] eqn:E.
  - intros [<- | H]; [exists x; auto|].
    destruct (IH H) as (x' & ? & ?). exists x'. auto.
  - intros H. destruct (IH H) as (x' & ? & ?). exists x'. auto.
Qed.

Lemma select_queue_In roomId d row :
  In row (select_queue roomId d) ->
  exists v, In v (queue_videos d) /\ qv_id v = qv_id row
            /\ qv_room_id v = roomId /\ qv_is_played v = false.
Proof.
  unfold select_queue. rewrite In_sort_by. intros H.
  apply In_omap in H as (v & Hv & Hj).
  apply filter_In in Hv as [Hv Hc].
  apply andb_true_iff in Hc as [Hroom Hplayed].
  apply String.eqb_eq in Hroom. apply negb_true_iff in Hplayed.
  unfold join_user in Hj. destruct (users d !! qv_added_by v); [|discriminate].
  injection Hj as <-. exists v. auto.
Qed.

Lemma select_queue_ext roomId d d' :
  users d = users d' -> queue_videos d = queue_videos d' ->
  select_queue roomId d = select_queue roomId d'.
Proof.
  intros Hu Hq. unfold select_queue, join_user. now rewrite Hu, Hq.
Qed.

Lemma update_where_id (cond : QueueVideo -> bool) f l :
  (forall x, In x l -> cond x = false) -> update_where cond f l = l.
Proof.
  intros H. unfold update_where. induction l as [|x l IH]; [reflexivity|].
  simpl. rewrite (H x) by now left. f_equal. apply IH. intros y Hy. apply H. now right.
Qed.

(** After the statement that retires the current item, no row of the
    room is current. *)
Lemma mark_current_played_clears roomId timestamp d x :
  In x (queue_videos (mark_current_played roomId timestamp d)) ->
  String.eqb (qv_room_id x) roomId && qv_is_current x = false.
Proof.
  unfold mark_current_played, update_where. simpl.
  rewrite in_map_iff. intros (y & <- & _).
  destruct (String.eqb (qv_room_id y) roomId && qv_is_current y) eqn:E;
    [|exact E].
  simpl. apply andb_false_r.
Qed.

Lemma no_eligible_next_video roomId timestamp d :
  no_eligible_item roomId d -> next_video timestamp roomId d = None.
Proof.
  intros H. unfold next_video, select_queue.
  replace (omap _ _) with (@nil QueueVideo); [reflexivity|].
  symmetry. apply omap_nil. intros x Hx.
  apply filter_In in Hx as [Hx Hc].
  apply andb_true_iff in Hc as [Hroom Hplayed].
  apply negb_true_iff in Hplayed.
  unfold mark_current_played, update_where in Hx. simpl in Hx.
  apply in_map_iff in Hx as (y & Hy & Hin).
  unfold join_user. simpl.
  destruct (String.eqb (qv_room_id y) roomId && qv_is_current y) eqn:E.
  - subst x. simpl in Hplayed. discriminate.
  - subst x. apply String.eqb_eq in Hroom.
    destruct (users d !! qv_added_by y) as [name|] eqn:Eu; [|reflexivity].
    destruct (H y Hin Hroom) as [Hp | Hc]; [now rewrite Eu | congruence |].
    rewrite Hc, Hroom, String.eqb_refl in E. discriminate.
Qed.

Lemma room_current_id_cleared roomId d :
  room_current_id roomId (update_room_current None roomId d) = None.
Proof.
  unfold room_current_id, update_room_current. simpl.
  rewrite lookup_alter_eq. destruct (rooms d !! roomId); reflexivity.
Qed.

Lemma is_admin_update_room_current roomId adminId videoId d :
  is_admin roomId adminId d ->
  is_admin roomId adminId (update_room_current videoId roomId d).
Proof.
  intros (r & Hr & Ha). unfold is_admin, update_room_current. simpl.
  rewrite lookup_alter_eq, Hr. simpl. eexists. split; [reflexivity | exact Ha].
Qed.

Lemma head_None_nil {A} (l : list A) : head l = None -> l = [].
Proof. destruct l; [reflexivity | discriminate]. Qed.

(** An advance that found nothing to play leaves a store where the next
    advance finds nothing either. *)
Lemma next_video_after_empty_advance roomId timestamp timestamp' d :
  next_video timestamp roomId d = None ->
  next_video timestamp' roomId
    (update_room_current None roomId (mark_current_played roomId timestamp d)) = None.
Proof.
  unfold next_video. intros H. apply head_None_nil in H.
  rewrite (select_queue_ext roomId _ (mark_current_played roomId timestamp d));
    [now rewrite H | reflexivity |].
  unfold mark_current_played at 1. simpl.
  apply update_where_id. intros x Hx.
  exact (mark_current_played_clears _ _ _ _ Hx).
Qed.

Lemma current_rows_nil roomId l :
  (forall x, In x l -> String.eqb (qv_room_id x) roomId && qv_is_current x = false) ->
  current_rows roomId l = [].
Proof.
  intros H. unfold current_rows. induction l as [|x l IH]; [reflexivity|].
  simpl. rewrite (H x) by now left. apply IH. intros y Hy. apply H. now right.
Qed.

(** ** C6: who may advance, and the empty queue *)

(** C6.  [playNextVideo] fails with Unauthorized exactly when the
    requester is not the administrator of an existing room, and it fails
    in no other way; for the administrator of a room with no eligible
    item it returns null and leaves the room without a current item, in
    the store and in the cache; and once an advance has returned null, a
    further advance by the administrator returns null again, without an
    error, the room still without a current item. *)
Theorem C6_advance_authorisation_and_empty_queue :
  forall clock timestamp roomId adminId w,
    ((exists w', RoomService.playNextVideo clock timestamp roomId adminId w
                 = (Throw Unauthorized, w'))
     <-> ~ is_admin roomId adminId (db w))
    /\ (forall e w', RoomService.playNextVideo clock timestamp roomId adminId w
                     = (Throw e, w') -> e = Unauthorized)
    /\ (is_admin roomId adminId (db w) -> no_eligible_item roomId (db w) ->
        exists w', RoomService.playNextVideo clock timestamp roomId adminId w
                   = (Ok None, w')
                   /\ room_current_id roomId (db w') = None
                   /\ room_current (redis w') !! roomId = None)
    /\ (forall w', RoomService.playNextVideo clock timestamp roomId adminId w
                   = (Ok None, w') ->
        forall timestamp',
        exists w'', RoomService.playNextVideo clock timestamp' roomId adminId w'
                    = (Ok None, w'')
                    /\ room_current_id roomId (db w'') = None
                    /\ room_current (redis w'') !! roomId = None
                    /\ current_rows roomId (queue_videos (db w'')) = []).
Proof.
  intros clock timestamp roomId adminId w.
  pose proof (playNextVideo_outcome clock timestamp roomId adminId w) as Hout.
  split; [|split; [|split]].
  - split.
    + intros (w' & Hrun) Hadm.
      destruct (playNextVideo_run clock timestamp roomId adminId w Hadm) as (w1 & Hrun1 & _).
      rewrite Hrun in Hrun1. discriminate.
    + intros Hna. eexists. now apply playNextVideo_unauthorized.
  - intros e w' Hrun. destruct Hout as [(_ & r & w1 & H1) | (_ & H1)];
      rewrite Hrun in H1; [discriminate | now injection H1 as ->].
  - intros Hadm Hne.
    destruct (playNextVideo_run clock timestamp roomId adminId w Hadm)
      as (w' & Hrun & Hdb & Hcur & _).
    rewrite (no_eligible_next_video _ timestamp _ Hne) in Hrun, Hcur.
    exists w'. split; [exact Hrun|]. split; [|exact Hcur].
    rewrite Hdb. unfold advance_store.
    rewrite (no_eligible_next_video _ timestamp _ Hne).
    apply room_current_id_cleared.
  - intros w' Hrun timestamp'.
    destruct Hout as [(Hadm & _) | (_ & H1)]; [|rewrite Hrun in H1; discriminate].
    destruct (playNextVideo_run clock timestamp roomId adminId w Hadm)
      as (w1 & Hrun1 & Hdb & _).
    rewrite Hrun in Hrun1. injection Hrun1 as Hnext <-.
    destruct (next_video timestamp roomId (db w)) eqn:En; [discriminate|].
    unfold advance_store in Hdb. rewrite En in Hdb.
    assert (is_admin roomId adminId (db w')) as Hadm'
      by (rewrite Hdb; now apply is_admin_update_room_current).
    destruct (playNextVideo_run clock timestamp' roomId adminId w' Hadm')
      as (w'' & Hrun' & Hdb' & Hcur' & _).
    assert (next_video timestamp' roomId (db w') = None) as En'
      by (rewrite Hdb; now apply next_video_after_empty_advance).
    rewrite En' in Hrun', Hcur'. exists w''.
    split; [exact Hrun'|]. split; [|split; [exact Hcur'|]].
    + rewrite Hdb'. unfold advance_store. rewrite En'. apply room_current_id_cleared.
    + rewrite Hdb'. unfold advance_store. rewrite En'.
      apply current_rows_nil. intros x Hx.
      exact (mark_current_played_clears _ _ _ _ Hx).
Qed.

Lemma C6_advance_authorisation_and_empty_queue_witness :
  let w2 := snd (RoomService.playNextVideo Sample.clock 20 "r1" "alice"
                   (snd (RoomService.playNextVideo Sample.clock 10 "r1" "alice"
                           Sample.fresh))) in
  (exists w3 w4,
      RoomService.playNextVideo Sample.clock 30 "r1" "alice" w2 = (Ok None, w3)
      /\ RoomService.playNextVideo Sample.clock 40 "r1" "alice" w3 = (Ok None, w4)
      /\ room_current_id "r1" (db w4) = None)
  /\ (exists w', RoomService.playNextVideo Sample.clock 30 "r1" "alice" Sample.played
                 = (Ok None, w'))
  /\ (exists w', RoomService.playNextVideo Sample.clock 30 "r1" "bob" Sample.fresh
                 = (Throw Unauthorized, w')).
Proof.
  intros w2. split; [|split].
  - destruct (C6_advance_authorisation_and_empty_queue Sample.clock 30 "r1" "alice" w2)
      as (_ & _ & _ & Hagain).
    set (w3 := snd (RoomService.playNextVideo Sample.clock 30 "r1" "alice" w2)).
    assert (RoomService.playNextVideo Sample.clock 30 "r1" "alice" w2 = (Ok None, w3))
      as H3 by (vm_compute; reflexivity).
    destruct (Hagain w3 H3 40) as (w4 & H4 & Hcur & _).
    exists w3, w4. auto.
  - destruct (C6_advance_authorisation_and_empty_queue Sample.clock 30 "r1" "alice"
                Sample.played) as (_ & _ & Hempty & _).
    destruct Hempty as (w' & Hrun & _).
    + exists (mkRoom "alice" true None). split; reflexivity.
    + intros v [<- | []] _ _. left; reflexivity.
    + exists w'. exact Hrun.
  - apply (C6_advance_authorisation_and_empty_queue Sample.clock 30 "r1" "bob"
             Sample.fresh).
    intros (r & Hr & Ha). vm_compute in Hr. injection Hr as <-. discriminate.
Defined.

(** ** C7: one current item per room *)

Lemma map_id_update_where cond g l :
  (forall x, qv_id (g x) = qv_id x) ->
  map qv_id (update_where cond g l) = map qv_id l.
Proof.
  intros Hg. unfold update_where. rewrite map_map. apply map_ext.
  intros x. destruct (cond x); [apply Hg | reflexivity].
Qed.

Lemma current_rows_update_where roomId cond g l :
  (forall x, qv_room_id (g x) = qv_room_id x) ->
  (forall x, qv_is_current (g x) = qv_is_current x) ->
  current_rows roomId (update_where cond g l)
  = update_where cond g (current_rows roomId l).
Proof.
  intros Hr Hc. unfold current_rows, update_where. apply filter_map_same.
  intros x. destruct (cond x); [now rewrite Hr, Hc | reflexivity].
Qed.

Lemma NoDup_map_eq {A B} (f : A -> B) (l : list A) x y :
  List.NoDup (map f l) -> In x l -> In y l -> f x = f y -> x = y.
Proof.
  induction l as [|z l IH]; simpl; [tauto|].
  intros Hnd [-> | Hx] [-> | Hy] Hf; auto.
  - apply List.NoDup_cons_iff in Hnd as [Hz _]. exfalso. apply Hz.
    rewrite Hf. now apply in_map.
  - apply List.NoDup_cons_iff in Hnd as [Hz _]. exfalso. apply Hz.
    rewrite <- Hf. now apply in_map.
  - apply List.NoDup_cons_iff in Hnd as [_ Hnd]. auto.
Qed.

Lemma NoDup_filter_id (l : list QueueVideo) i :
  List.NoDup (map qv_id l) ->
  (length (List.filter (fun x => String.eqb (qv_id x) i) l) <= 1)%nat.
Proof.
  induction l as [|x l IH]; simpl; [lia|].
  intros Hnd. apply List.NoDup_cons_iff in Hnd as [Hx Hnd].
  destruct (String.eqb (qv_id x) i) eqn:E; [|auto].
  apply String.eqb_eq in E. subst i. simpl.
  replace (List.filter _ l) with (@nil QueueVideo); [simpl; lia|].
  symmetry. apply existsb_false_filter.
  apply not_true_is_false. intros Hex.
  apply existsb_exists in Hex as (y & Hy & Hid).
  apply String.eqb_eq in Hid. apply Hx. rewrite <- Hid. now apply in_map.
Qed.

Lemma current_rows_promoted roomId i l :
  (forall x, In x l -> String.eqb (qv_room_id x) roomId && qv_is_current x = false) ->
  (length (current_rows roomId
             (update_where (fun v => String.eqb (qv_id v) i)
                (fun v => with_flags (qv_is_played v) true (qv_played_at v) v) l))
   <= length (List.filter (fun x => String.eqb (qv_id x) i) l))%nat.
Proof.
  induction l as [|x l IH]; intros H; simpl; [lia|].
  assert (forall y, In y l ->
            String.eqb (qv_room_id y) roomId && qv_is_current y = false) as Hl
    by (intros y Hy; apply H; now right).
  specialize (IH Hl). fold (update_where (fun v => String.eqb (qv_id v) i)
    (fun v => with_flags (qv_is_played v) true (qv_played_at v) v) l).
  fold (current_rows roomId (update_where (fun v => String.eqb (qv_id v) i)
    (fun v => with_flags (qv_is_played v) true (qv_played_at v) v) l)).
  destruct (String.eqb (qv_id x) i); simpl.
  - destruct (String.eqb (qv_room_id x) roomId && true); simpl; lia.
  - rewrite (H x) by now left. exact IH.
Qed.

Lemma current_rows_other_room_retired roomId roomId' timestamp l :
  roomId' <> roomId ->
  current_rows roomId'
    (update_where (fun v => String.eqb (qv_room_id v) roomId && qv_is_current v)
       (with_flags true false (Some timestamp)) l)
  = current_rows roomId' l.
Proof.
  intros Hne. unfold current_rows, update_where.
  induction l as [|x l IH]; [reflexivity|].
  simpl. rewrite IH.
  destruct (String.eqb (qv_room_id x) roomId) eqn:E; simpl; [|reflexivity].
  apply String.eqb_eq in E.
  assert (String.eqb (qv_room_id x) roomId' = false) as Hx
    by (apply String.eqb_neq; congruence).
  destruct (qv_is_current x); simpl; rewrite Hx; reflexivity.
Qed.

Lemma current_rows_other_room_promoted roomId' i l :
  (forall x, In x l -> qv_id x = i -> qv_room_id x <> roomId') ->
  current_rows roomId'
    (update_where (fun v => String.eqb (qv_id v) i)
       (fun v => with_flags (qv_is_played v) true (qv_played_at v) v) l)
  = current_rows roomId' l.
Proof.
  unfold current_rows, update_where.
  induction l as [|x l IH]; intros H; [reflexivity|].
  simpl. rewrite IH by (intros y Hy; apply H; now right).
  destruct (String.eqb (qv_id x) i) eqn:E; [|reflexivity].
  apply String.eqb_eq in E. simpl.
  assert (String.eqb (qv_room_id x) roomId' = false) as ->
    by (apply String.eqb_neq, H; [now left | exact E]).
  reflexivity.
Qed.

Lemma advance_store_queue timestamp roomId d :
  queue_videos (advance_store timestamp roomId d)
  = match next_video timestamp roomId d with
    | Some row =>
        update_where (fun v => String.eqb (qv_id v) (qv_id row))
          (fun v => with_flags (qv_is_played v) true (qv_played_at v) v)
          (queue_videos (mark_current_played roomId timestamp d))
    | None => queue_videos (mark_current_played roomId timestamp d)
    end.
Proof.
  unfold advance_store. destruct (next_video timestamp roomId d); reflexivity.
Qed.

Lemma mark_current_played_ids roomId timestamp d :
  map qv_id (queue_videos (mark_current_played roomId timestamp d))
  = map qv_id (queue_videos d).
Proof.
  unfold mark_current_played. simpl. now apply map_id_update_where.
Qed.

Lemma advance_store_primary_key timestamp roomId d :
  primary_key d -> primary_key (advance_store timestamp roomId d).
Proof.
  unfold primary_key. intros H. rewrite advance_store_queue.
  destruct (next_video timestamp roomId d).
  - rewrite map_id_update_where by reflexivity. now rewrite mark_current_played_ids.
  - now rewrite mark_current_played_ids.
Qed.

Lemma advance_store_one_current timestamp roomId d :
  primary_key d -> one_current_per_room d ->
  one_current_per_room (advance_store timestamp roomId d).
Proof.
  intros Hpk Hone roomId'. rewrite advance_store_queue.
  assert (List.NoDup (map qv_id (queue_videos (mark_current_played roomId timestamp d))))
    as Hpk1 by (now rewrite mark_current_played_ids).
  destruct (String.eqb_spec roomId' roomId) as [-> | Hne].
  - destruct (next_video timestamp roomId d) as [row|].
    + etransitivity; [apply current_rows_promoted|now apply NoDup_filter_id].
      intros x Hx. exact (mark_current_played_clears _ _ _ _ Hx).
    + rewrite current_rows_nil; [simpl; lia|].
      intros x Hx. exact (mark_current_played_clears _ _ _ _ Hx).
  - assert (current_rows roomId'
              (queue_videos (mark_current_played roomId timestamp d))
            = current_rows roomId' (queue_videos d)) as Hsame
      by (now apply current_rows_other_room_retired).
    destruct (next_video timestamp roomId d) as [row|] eqn:En.
    + rewrite current_rows_other_room_promoted; [rewrite Hsame; apply Hone|].
      intros x Hx Hid Hroom.
      unfold next_video in En.
      assert (In row (select_queue roomId (mark_current_played roomId timestamp d)))
        as Hin by (destruct (select_queue _ _); [discriminate|];
                   injection En as ->; now left).
      apply select_queue_In in Hin as (v & Hv & Hvid & Hvroom & _).
      assert (x = v) as -> by (apply (NoDup_map_eq qv_id _ _ _ Hpk1 Hx Hv); congruence).
      congruence.
    + rewrite Hsame. apply Hone.
Qed.

(** ** addVideoToQueue, step by step *)

(** The store after a submission: unchanged, or with one fresh row that
    is neither played nor current. *)
Lemma addVideoToQueue_db clock getVideoInfo newId timestamp roomId userId url w :
  db (snd (RoomService.addVideoToQueue clock getVideoInfo newId timestamp
             roomId userId url w)) = db w
  \/ (exists row,
        existsb (fun v => String.eqb (qv_id v) newId) (queue_videos (db w)) = false
        /\ qv_id row = newId /\ qv_is_current row = false
        /\ db (snd (RoomService.addVideoToQueue clock getVideoInfo newId timestamp
                      roomId userId url w))
           = set_queue_videos (queue_videos (db w) ++ [row]) (db w)).
Proof.
  unfold RoomService.addVideoToQueue. run_monad.
  destruct (YouTubeService.extractVideoId url) as [videoId| |];
    try (left; reflexivity).
  destruct (YouTubeService.falsy _); [left; reflexivity|].
  destruct (getVideoInfo videoId) as [info|]; [|left; reflexivity].
  run_monad.
  destruct (0 <? Z.of_nat (length _)); [left; reflexivity|].
  cbn [qv_id RoomService.new_queue_video].
  destruct (existsb _ (queue_videos (db w))) eqn:E; run_monad; [left; reflexivity|].
  right. eexists. split; [reflexivity|]. split; [|split]; [| |reflexivity]; reflexivity.
Qed.

Lemma addVideoToQueue_ok clock getVideoInfo newId timestamp roomId userId url w r w' :
  RoomService.addVideoToQueue clock getVideoInfo newId timestamp roomId userId url w
    = (Ok r, w') ->
  last_update (redis w') !! roomId = Some (clock (ticks w))
  /\ ticks w' = S (ticks w).
Proof.
  unfold RoomService.addVideoToQueue. run_monad.
  destruct (YouTubeService.extractVideoId url) as [videoId| |];
    try discriminate.
  destruct (YouTubeService.falsy _); [discriminate|].
  destruct (getVideoInfo videoId) as [info|]; [|discriminate].
  run_monad.
  destruct (0 <? Z.of_nat (length _)); [discriminate|].
  cbn [qv_id RoomService.new_queue_video].
  destruct (existsb _ (queue_videos (db w))) eqn:E; run_monad; [discriminate|].
  intros [= _ <-]. simpl_world.
  rewrite updateRoomQueue_pipeline_last_update, lookup_insert_eq. auto.
Qed.

Lemma closeRoom_queue roomId adminId w :
  queue_videos (db (snd (RoomService.closeRoom roomId adminId w)))
  = queue_videos (db w).
Proof.
  unfold RoomService.closeRoom. run_monad.
  destruct (rooms (db w) !! roomId) as [r|]; [|reflexivity].
  destruct (negb (String.eqb (r_admin_id r) adminId)); reflexivity.
Qed.

(** ** The invariants under each operation *)

Lemma update_where_keeps cond g l row :
  In row l -> cond row = false -> In row (update_where cond g l).
Proof.
  intros Hin Hc. unfold update_where. apply in_map_iff.
  exists row. now rewrite Hc.
Qed.

Lemma update_where_In cond g l y :
  In y (update_where cond g l) ->
  exists x, In x l /\ ((cond x = true /\ y = g x) \/ (cond x = false /\ y = x)).
Proof.
  unfold update_where. rewrite in_map_iff. intros (x & <- & Hx).
  exists x. split; [exact Hx|]. destruct (cond x); auto.
Qed.

Lemma select_votable_In videoId d :
  select_votable videoId d <> [] ->
  exists v, In v (queue_videos d) /\ qv_id v = videoId /\ qv_is_played v = false.
Proof.
  unfold select_votable.
  destruct (List.filter _ (queue_videos d)) as [|v rest] eqn:E; [congruence|].
  intros _. assert (In v (v :: rest)) as Hin by now left.
  rewrite <- E in Hin. apply filter_In in Hin as [Hin Hc].
  apply andb_true_iff in Hc as [Hc _]. apply andb_true_iff in Hc as [Hid Hp].
  apply String.eqb_eq in Hid. apply negb_true_iff in Hp. eauto.
Qed.

Lemma apply_vote_queue userId videoId voteType d :
  exists up down,
    queue_videos (apply_vote userId videoId voteType d)
    = update_where (fun v => String.eqb (qv_id v) videoId)
        (fun v => with_votes (qv_upvotes v + up) (qv_downvotes v + down)
                    (qv_upvotes v + up - (qv_downvotes v + down)) v)
        (queue_videos d).
Proof.
  unfold apply_vote.
  destruct (RoomService.vote_changes _ voteType) as [[up down] final].
  exists up, down. destruct (final =? 0); reflexivity.
Qed.

Lemma apply_vote_invariants userId videoId voteType d :
  select_votable videoId d <> [] ->
  primary_key d -> one_current_per_room d -> played_not_current d ->
  primary_key (apply_vote userId videoId voteType d)
  /\ one_current_per_room (apply_vote userId videoId voteType d)
  /\ played_not_current (apply_vote userId videoId voteType d)
  /\ played_rows_kept d (apply_vote userId videoId voteType d).
Proof.
  intros Hv Hpk Hone Hpnc.
  destruct (apply_vote_queue userId videoId voteType d) as (up & down & Hq).
  unfold primary_key, one_current_per_room, played_not_current, played_rows_kept.
  rewrite Hq. split; [|split; [|split]].
  - now rewrite map_id_update_where by reflexivity.
  - intros roomId. rewrite current_rows_update_where by reflexivity.
    unfold update_where. rewrite length_map. apply Hone.
  - intros y Hy Hp.
    apply update_where_In in Hy as (x & Hx & [[_ ->] | [_ ->]]);
      simpl in *; now apply (Hpnc x).
  - intros row Hrow Hp. apply update_where_keeps; [exact Hrow|].
    apply String.eqb_neq. intros Hid.
    destruct (select_votable_In _ _ Hv) as (v & Hin & Hvid & Hvp).
    assert (row = v) as -> by (apply (NoDup_map_eq qv_id _ _ _ Hpk Hrow Hin); congruence).
    congruence.
Qed.

Lemma appended_row_invariants row d :
  existsb (fun v => String.eqb (qv_id v) (qv_id row)) (queue_videos d) = false ->
  qv_is_current row = false ->
  primary_key d -> one_current_per_room d -> played_not_current d ->
  primary_key (set_queue_videos (queue_videos d ++ [row]) d)
  /\ one_current_per_room (set_queue_videos (queue_videos d ++ [row]) d)
  /\ played_not_current (set_queue_videos (queue_videos d ++ [row]) d)
  /\ played_rows_kept d (set_queue_videos (queue_videos d ++ [row]) d).
Proof.
  intros Hfresh Hcur Hpk Hone Hpnc.
  unfold primary_key, one_current_per_room, played_not_current, played_rows_kept.
  simpl. split; [|split; [|split]].
  - rewrite map_app. simpl. apply List.NoDup_app; [exact Hpk | repeat constructor; auto |].
    intros i Hi [<- | []]. apply in_map_iff in Hi as (v & Hid & Hv).
    assert (existsb (fun v => String.eqb (qv_id v) (qv_id row)) (queue_videos d) = true)
      as Hex by (apply existsb_exists; exists v; split; [exact Hv|];
                 now apply String.eqb_eq).
    congruence.
  - intros roomId. unfold current_rows. rewrite List.filter_app. simpl.
    rewrite Hcur, andb_false_r, app_nil_r. apply Hone.
  - intros v Hv Hp. apply in_app_or in Hv as [Hv | [<- | []]]; auto.
  - intros v Hv _. apply in_or_app. now left.
Qed.

Lemma advance_store_played timestamp roomId d :
  primary_key d -> played_not_current d ->
  played_not_current (advance_store timestamp roomId d)
  /\ played_rows_kept d (advance_store timestamp roomId d).
Proof.
  intros Hpk Hpnc.
  assert (List.NoDup (map qv_id (queue_videos (mark_current_played roomId timestamp d))))
    as Hpk1 by (now rewrite mark_current_played_ids).
  assert (played_not_current (mark_current_played roomId timestamp d)) as Hpnc1.
  { intros y Hy Hp. unfold mark_current_played in Hy. simpl in Hy.
    apply update_where_In in Hy as (x & Hx & [[_ ->] | [_ ->]]);
      [reflexivity | now apply Hpnc]. }
  assert (played_rows_kept d (mark_current_played roomId timestamp d)) as Hkept1.
  { intros row Hrow Hp. unfold mark_current_played. simpl.
    apply update_where_keeps; [exact Hrow|].
    rewrite (Hpnc row Hrow Hp). apply andb_false_r. }
  unfold played_not_current, played_rows_kept. rewrite advance_store_queue.
  destruct (next_video timestamp roomId d) as [row|] eqn:En; [|split; assumption].
  unfold next_video in En.
  assert (In row (select_queue roomId (mark_current_played roomId timestamp d)))
    as Hin by (destruct (select_queue _ _); [discriminate|];
               injection En as ->; now left).
  apply select_queue_In in Hin as (v & Hv & Hvid & _ & Hvp).
  assert (forall x, In x (queue_videos (mark_current_played roomId timestamp d)) ->
                    qv_is_played x = true ->
                    String.eqb (qv_id x) (qv_id row) = false) as Hother.
  { intros x Hx Hp. apply String.eqb_neq. intros Hid.
    assert (x = v) as -> by (apply (NoDup_map_eq qv_id _ _ _ Hpk1 Hx Hv); congruence).
    congruence. }
  split.
  - intros y Hy Hp.
    apply update_where_In in Hy as (x & Hx & [[Hc ->] | [_ ->]]).
    + simpl in Hp. rewrite (Hother x Hx Hp) in Hc. discriminate.
    + now apply Hpnc1.
  - intros x Hx Hp. apply update_where_keeps; [now apply Hkept1|].
    apply Hother; [now apply Hkept1 | exact Hp].
Qed.

Lemma snd_forget {A} (o : Outcome A * World) : snd (forget o) = snd o.
Proof. destruct o as [[a|e] w]; reflexivity. Qed.

(** C7.  Every operation (a vote, whatever call of it rejects, a
    submission, an advance, closing the room) keeps the primary key of
    the queue, the invariant that at most one item per room is current
    and the invariant that a played item is not current, and it leaves
    every played row as it is, field for field; and [voteVideo] on an
    item that is absent or played fails, with 'Video not found or
    already played' when no call rejects, leaving the store (vote rows
    and counters) and the cache as they were. *)
Theorem C7_state_invariants :
  forall clock,
    (forall m w,
        primary_key (db w) -> one_current_per_room (db w) ->
        played_not_current (db w) ->
        primary_key (db (snd (perform clock m w)))
        /\ one_current_per_room (db (snd (perform clock m w)))
        /\ played_not_current (db (snd (perform clock m w)))
        /\ played_rows_kept (db w) (db (snd (perform clock m w))))
    /\ (forall fault userId videoId voteType w,
          (forall row, In row (queue_videos (db w)) -> qv_id row = videoId ->
                       qv_is_played row = true) ->
          exists e w',
            RoomService.voteVideo clock fault userId videoId voteType w = (Throw e, w')
            /\ (fault = None -> e = NotFoundOrPlayed)
            /\ db w' = db w /\ redis w' = redis w).
Proof.
  intros clock. split.
  - intros m w Hpk Hone Hpnc.
    assert (played_rows_kept (db w) (db w)) as Hsame by (intros v Hv _; exact Hv).
    destruct m as [fault userId videoId voteType
      | getVideoInfo newId timestamp roomId userId url | timestamp roomId adminId
      | roomId adminId];
      unfold perform; rewrite snd_forget.
    + destruct (voteVideo_db clock fault userId videoId voteType w) as [-> | [Hv ->]];
        auto using apply_vote_invariants.
    + destruct (addVideoToQueue_db clock getVideoInfo newId timestamp roomId
                  userId url w) as [-> | (row & Hfresh & Hid & Hcur & ->)];
        [auto | subst newId; now apply appended_row_invariants].
    + destruct (playNextVideo_outcome clock timestamp roomId adminId w)
        as [(Hadm & _) | (_ & ->)]; [|simpl; auto].
      destruct (playNextVideo_run clock timestamp roomId adminId w Hadm)
        as (w' & Hrun & Hdb & _).
      rewrite Hrun. simpl. rewrite Hdb.
      destruct (advance_store_played timestamp roomId (db w) Hpk Hpnc).
      auto using advance_store_primary_key, advance_store_one_current.
    + unfold primary_key, one_current_per_room, played_not_current, played_rows_kept.
      rewrite closeRoom_queue. auto.
  - intros fault userId videoId voteType w Hplayed.
    assert (select_votable videoId (db w) = []) as Hnone.
    { unfold select_votable. apply existsb_false_filter.
      apply not_true_is_false. intros Hex.
      apply existsb_exists in Hex as (v & Hv & Hc).
      apply andb_true_iff in Hc as [Hc _]. apply andb_true_iff in Hc as [Hid Hp].
      apply String.eqb_eq in Hid. rewrite (Hplayed v Hv Hid) in Hp. discriminate. }
    destruct (RoomService.voteVideo clock fault userId videoId voteType w)
      as [[r|e] w'] eqn:E.
    + apply voteVideo_ok_fault in E as [_ Hv]. congruence.
    + exists e, w'. split; [reflexivity|].
      assert (fault = None -> e = NotFoundOrPlayed) as He.
      { intros ->. rewrite (voteVideo_not_found _ _ _ _ _ Hnone) in E. congruence. }
      split; [exact He|].
      revert E. unfold RoomService.voteVideo.
      destruct fault as [[]|]; run_monad; rewrite ?Hnone;
        intros [= <- <-]; split; reflexivity.
Qed.

Lemma C7_state_invariants_witness :
  let w3 := snd (perform Sample.clock (Advance 20 "r1" "alice")
              (snd (perform Sample.clock (Vote None "bob" "b" 1)
                 (snd (perform Sample.clock (Advance 10 "r1" "alice")
                         Sample.fresh))))) in
  one_current_per_room (db w3)
  /\ played_not_current (db w3)
  /\ (exists w', RoomService.voteVideo Sample.clock None "bob" "a" 1 Sample.played
                 = (Throw NotFoundOrPlayed, w')
                 /\ db w' = db Sample.played).
Proof.
  assert (primary_key (db Sample.fresh)) as Hpk
    by (repeat constructor; simpl; intuition discriminate).
  assert (one_current_per_room (db Sample.fresh)) as Hone
    by (intros roomId; unfold current_rows; simpl;
        rewrite !andb_false_r; simpl; lia).
  assert (played_not_current (db Sample.fresh)) as Hpnc
    by (intros v [<- | [<- | []]] _; reflexivity).
  destruct (C7_state_invariants Sample.clock) as [Hinv Hvote].
  split; [|split].
  - destruct (Hinv (Advance 10 "r1" "alice") Sample.fresh Hpk Hone Hpnc)
      as (Hpk1 & Hone1 & Hpnc1 & _).
    destruct (Hinv (Vote None "bob" "b" 1) _ Hpk1 Hone1 Hpnc1)
      as (Hpk2 & Hone2 & Hpnc2 & _).
    exact (proj1 (proj2 (Hinv (Advance 20 "r1" "alice") _ Hpk2 Hone2 Hpnc2))).
  - destruct (Hinv (Advance 10 "r1" "alice") Sample.fresh Hpk Hone Hpnc)
      as (Hpk1 & Hone1 & Hpnc1 & _).
    destruct (Hinv (Vote None "bob" "b" 1) _ Hpk1 Hone1 Hpnc1)
      as (Hpk2 & Hone2 & Hpnc2 & _).
    exact (proj1 (proj2 (proj2 (Hinv (Advance 20 "r1" "alice") _ Hpk2 Hone2 Hpnc2)))).
  - destruct (Hvote None "bob" "a" 1 Sample.played) as (e & w' & Hrun & He & Hdb & _).
    + intros row [<- | []] _. reflexivity.
    + rewrite (He eq_refl) in Hrun. exists w'. auto.
Defined.

(** ** The read paths *)

Lemma getUserVote_run userId videoId w :
  exists w',
    RoomService.getUserVote userId videoId w = (Ok (user_vote userId videoId w), w')
    /\ db w' = db w /\ redis w' = redis w /\ ticks w' = ticks w.
Proof.
  unfold RoomService.getUserVote, user_vote. run_monad.
  destruct (RedisService.hGet userId videoId (user_votes (redis w)));
    run_monad; eexists; repeat split; reflexivity.
Qed.

Lemma user_vote_ext userId videoId w w' :
  db w' = db w -> user_votes (redis w') = user_votes (redis w) ->
  user_vote userId videoId w' = user_vote userId videoId w.
Proof. unfold user_vote. now intros -> ->. Qed.

Lemma annotate_run userId queue w :
  exists w',
    RoomRoutes.map_async
      (fun video => userVote <- RoomService.getUserVote userId (qv_id video) ;;
                    ret (video, userVote)) queue w
    = (Ok (map (fun video => (video, user_vote userId (qv_id video) w)) queue), w')
    /\ db w' = db w /\ redis w' = redis w /\ ticks w' = ticks w.
Proof.
  revert w. induction queue as [|video queue IH]; intros w.
  - exists w. repeat split; reflexivity.
  - destruct (getUserVote_run userId (qv_id video) w) as (w1 & H1 & Hdb1 & Hr1 & Ht1).
    destruct (IH w1) as (w2 & H2 & Hdb2 & Hr2 & Ht2).
    exists w2. cbn [RoomRoutes.map_async]. unfold bind at 1. unfold bind at 1.
    rewrite H1. unfold ret at 1. unfold bind at 1. rewrite H2. unfold ret.
    split; [|repeat split; congruence].
    simpl. do 3 f_equal. apply map_ext. intros v.
    f_equal. apply user_vote_ext; congruence.
Qed.

Lemma getCurrentVideo_run clock roomId w :
  exists w',
    RoomService.getCurrentVideo clock roomId w = (Ok (current_read roomId w), w')
    /\ db w' = db w
    /\ room_queue (redis w') = room_queue (redis w)
    /\ user_votes (redis w') = user_votes (redis w)
    /\ room_members (redis w') = room_members (redis w).
Proof.
  unfold RoomService.getCurrentVideo, current_read. run_monad.
  destruct (room_current (redis w) !! roomId);
    run_monad; [eexists; repeat split; reflexivity|].
  simpl_world.
  destruct (select_current roomId (db w)); cbn [head]; run_monad;
    eexists; repeat split; reflexivity.
Qed.

Lemma getRoomQueue_run clock roomId w :
  exists w',
    RoomService.getRoomQueue clock roomId w = (Ok (queue_read roomId w), w')
    /\ db w' = db w
    /\ user_votes (redis w') = user_votes (redis w)
    /\ room_members (redis w') = room_members (redis w).
Proof.
  unfold RoomService.getRoomQueue, queue_read. run_monad.
  destruct (0 <? Z.of_nat (length (map z_video _)));
    run_monad; [eexists; repeat split; reflexivity|].
  simpl_world.
  destruct (0 <? Z.of_nat (length (select_queue roomId (db w)))); run_monad;
    eexists; (split; [reflexivity|]); simpl_world;
    rewrite ?updateRoomQueue_pipeline_user_votes,
      ?updateRoomQueue_pipeline_room_members; repeat split; reflexivity.
Qed.

Lemma sync_no_updates clock roomId userId lastUpdate w :
  cursor roomId w <= lastUpdate ->
  RoomRoutes.sync clock roomId userId lastUpdate w
    = (Ok (RoomRoutes.NoUpdates (cursor roomId w)), record CacheRead w).
Proof.
  intros H. unfold RoomRoutes.sync, cursor in *. run_monad. simpl_world.
  apply Z.leb_le in H. rewrite H. reflexivity.
Qed.

Lemma sync_updates clock roomId userId lastUpdate w :
  lastUpdate < cursor roomId w ->
  exists w',
    RoomRoutes.sync clock roomId userId lastUpdate w
    = (Ok (RoomRoutes.Updates
             (current_read roomId w)
             (map (fun video => (video, user_vote userId (qv_id video) w))
                  (queue_read roomId w))
             (members_read roomId w)
             (length (members_read roomId w))
             (cursor roomId w)), w')
    /\ db w' = db w.
Proof.
  intros H. apply Z.leb_gt in H.
  destruct (getCurrentVideo_run clock roomId (record CacheRead w))
    as (w1 & H1 & Hdb1 & Hq1 & Hu1 & Hm1).
  destruct (getRoomQueue_run clock roomId w1) as (w2 & H2 & Hdb2 & Hu2 & Hm2).
  destruct (annotate_run userId (queue_read roomId w1) (record CacheRead w2))
    as (w3 & H3 & Hdb3 & _).
  exists w3. split; [|rewrite Hdb3; simpl_world; rewrite Hdb2, Hdb1; reflexivity].
  unfold RoomRoutes.sync, RedisService.getLastUpdate, RedisService.redis_read.
  unfold bind at 1. unfold bind at 1. unfold ret at 1.
  fold (cursor roomId w). rewrite H.
  unfold bind at 1. rewrite H1.
  unfold bind at 1. rewrite H2.
  unfold bind at 1. unfold RedisService.getRoomMembers, RedisService.redis_read.
  unfold bind at 1. rewrite H3. unfold ret.
  assert (queue_read roomId w1 = queue_read roomId w) as ->
    by (unfold queue_read; rewrite Hq1, Hdb1; reflexivity).
  assert (current_read roomId (record CacheRead w) = current_read roomId w) as ->
    by reflexivity.
  assert (members_read roomId w = map snd (map_to_list
            (default ∅ (room_members (redis w2) !! roomId)))) as <-
    by (unfold members_read; rewrite Hm2, Hm1; reflexivity).
  do 3 f_equal. apply map_ext. intros v. f_equal.
  apply user_vote_ext; simpl_world.
  - rewrite Hdb2, Hdb1. reflexivity.
  - rewrite Hu2, Hu1. reflexivity.
Qed.

Lemma updateVideoVote_pipeline_last_update roomId videoId userId oldVote newVote now r :
  last_update (RedisService.updateVideoVote_pipeline roomId videoId userId
                 oldVote newVote now r)
  = <[roomId := now]> (last_update r).
Proof.
  unfold RedisService.updateVideoVote_pipeline.
  destruct (newVote =? 0), oldVote as [old|]; simpl;
    try destruct (old =? 1); try destruct (newVote =? 1); reflexivity.
Qed.

(** What an operation other than closing does to the cursors: nothing,
    or one write of the next clock reading, or two writes of the next
    two readings, all for one room. *)
Lemma perform_last_update clock m w :
  keeps_cache m ->
  (last_update (redis (snd (perform clock m w))) = last_update (redis w)
   /\ ticks (snd (perform clock m w)) = ticks w)
  \/ (exists r,
        last_update (redis (snd (perform clock m w)))
        = <[r := clock (ticks w)]> (last_update (redis w))
        /\ ticks (snd (perform clock m w)) = S (ticks w))
  \/ (exists r,
        last_update (redis (snd (perform clock m w)))
        = <[r := clock (S (ticks w))]>
            (<[r := clock (ticks w)]> (last_update (redis w)))
        /\ ticks (snd (perform clock m w)) = S (S (ticks w))).
Proof.
  destruct m as [fault userId videoId voteType
    | getVideoInfo newId timestamp roomId userId url | timestamp roomId adminId
    | roomId adminId]; intros Hk; [| | |destruct Hk];
    unfold perform; rewrite snd_forget.
  - unfold RoomService.voteVideo.
    destruct fault as [[]|]; run_monad; try (left; split; reflexivity);
      (destruct (select_votable videoId (db w)) as [|video rest];
       [left; split; reflexivity|]);
      try (left; split; reflexivity);
      destruct (RoomService.vote_changes _ voteType) as [[up down] final];
      destruct (final =? 0); run_monad; cbn [snd]; simpl_world;
      rewrite ?updateRoomQueue_pipeline_last_update; simpl_world;
      rewrite ?updateVideoVote_pipeline_last_update;
      first [ left; split; reflexivity
            | right; left; eexists; split; reflexivity
            | right; right; eexists; split; reflexivity ].
  - unfold RoomService.addVideoToQueue. run_monad.
    destruct (YouTubeService.extractVideoId url) as [videoId| |];
      try (left; split; reflexivity).
    destruct (YouTubeService.falsy _); [left; split; reflexivity|].
    destruct (getVideoInfo videoId) as [info|]; [|left; split; reflexivity].
    run_monad.
    destruct (0 <? Z.of_nat (length _)); [left; split; reflexivity|].
    cbn [qv_id RoomService.new_queue_video].
    destruct (existsb _ (queue_videos (db w))); run_monad;
      [left; split; reflexivity|].
    right; left. exists roomId. cbn [snd]. simpl_world.
    rewrite updateRoomQueue_pipeline_last_update. split; reflexivity.
  - destruct (playNextVideo_outcome clock timestamp roomId adminId w)
      as [(Hadm & _) | (_ & ->)]; [|left; split; reflexivity].
    revert Hadm. intros (r & Hr & Ha).
    unfold RoomService.playNextVideo. run_monad. rewrite Hr.
    apply String.eqb_eq in Ha. rewrite Ha. cbv beta iota delta [negb].
    right; right. exists roomId.
    destruct (select_queue roomId (mark_current_played roomId timestamp (db w)))
      as [|row rest]; run_monad; cbn [take]; run_monad; cbn [snd]; simpl_world;
      rewrite updateRoomQueue_pipeline_last_update; split; reflexivity.
Qed.

Lemma cursor_insert roomId r now w m :
  last_update (redis w) = <[r := now]> m ->
  cursor roomId w = if decide (r = roomId) then now else default 0 (m !! roomId).
Proof.
  intros H. unfold cursor. rewrite H, lookup_insert.
  destruct (decide (r = roomId)); reflexivity.
Qed.
(** ** The cursor after a mutation *)

Lemma forget_ok {A} (o : Outcome A * World) w' :
  forget o = (Ok tt, w') -> exists r, o = (Ok r, w').
Proof. destruct o as [[r|e] w]; simpl; intros [= <-]; eauto. Qed.

Lemma perform_cursor clock m w w' roomId :
  perform clock m w = (Ok tt, w') ->
  refreshes m w roomId ->
  (ticks w < ticks w')%nat
  /\ last_update (redis w') !! roomId = Some (clock (pred (ticks w'))).
Proof.
  destruct m as [fault userId videoId voteType
    | getVideoInfo newId timestamp r userId url | timestamp r adminId
    | r adminId];
    unfold perform, refreshes; intros Hrun Href; [| | |destruct Href];
    apply forget_ok in Hrun as (res & Hrun).
  - destruct Href as (video & rest & E & ->).
    destruct (voteVideo_ok_fault _ _ _ _ _ _ _ _ Hrun) as [-> _].
    destruct (voteVideo_run clock userId videoId voteType w video rest E)
      as (w1 & Hrun1 & _ & Hredis & Hticks).
    rewrite Hrun in Hrun1. injection Hrun1 as _ <-.
    rewrite Hticks, Hredis, updateRoomQueue_pipeline_last_update, lookup_insert_eq.
    split; [lia | reflexivity].
  - subst r. destruct (addVideoToQueue_ok _ _ _ _ _ _ _ _ _ _ Hrun) as [-> ->].
    split; [lia | reflexivity].
  - subst r.
    destruct (playNextVideo_outcome clock timestamp roomId adminId w)
      as [(Hadm & _) | (_ & H)]; [|rewrite Hrun in H; discriminate].
    destruct (playNextVideo_run clock timestamp roomId adminId w Hadm)
      as (w1 & Hrun1 & _ & _ & Hlast & Hticks).
    rewrite Hrun in Hrun1. injection Hrun1 as _ <-.
    rewrite Hticks, Hlast. split; [lia | reflexivity].
Qed.


(** ** C3: the order of the cached queue *)

Lemma record_set_fresh e l :
  (forall x, In x l -> z_member x <> z_member e) ->
  RedisService.record_set e l = (l ++ [e])%list.
Proof.
  induction l as [|x l IH]; intros H; [reflexivity|].
  simpl. assert (String.eqb (z_member x) (z_member e) = false) as ->
    by (apply String.eqb_neq, H; now left).
  f_equal. apply IH. intros y Hy. apply H. now right.
Qed.

Lemma videoData_fold videos acc :
  List.NoDup (map z_member acc ++ map JSON_stringify videos) ->
  fold_left (fun acc video => RedisService.record_set (zset_entry video) acc) videos acc
  = (acc ++ map zset_entry videos)%list.
Proof.
  revert acc. induction videos as [|v videos IH]; intros acc Hnd.
  - simpl. now rewrite app_nil_r.
  - simpl. rewrite record_set_fresh.
    + rewrite IH.
      * now rewrite <- app_assoc.
      * rewrite map_app. simpl. rewrite <- app_assoc. exact Hnd.
    + intros x Hx Heq. simpl in Hnd, Heq.
      apply List.NoDup_remove_2 in Hnd. apply Hnd.
      apply in_or_app. left. rewrite <- Heq. now apply in_map.
Qed.

Lemma videoData_distinct videos :
  List.NoDup (map JSON_stringify videos) ->
  RedisService.videoData videos = map zset_entry videos.
Proof.
  intros Hnd. unfold RedisService.videoData.
  exact (videoData_fold videos [] Hnd).
Qed.

Lemma insert_sorted_last {A} (le : A -> A -> bool) x l :
  (forall y, In y l -> le x y = false) ->
  insert_sorted le x l = (l ++ [x])%list.
Proof.
  induction l as [|y l IH]; intros H; [reflexivity|].
  simpl. rewrite (H y) by now left. f_equal. apply IH.
  intros z Hz. apply H. now right.
Qed.

Lemma sort_by_descending entries :
  StronglySorted (fun a b => z_score b < z_score a) entries ->
  sort_by RedisService.zset_le entries = rev entries.
Proof.
  induction 1 as [|x l Hl IH Hx]; [reflexivity|].
  simpl. rewrite IH. apply insert_sorted_last.
  intros y Hy. apply in_rev in Hy.
  rewrite List.Forall_forall in Hx. specialize (Hx y Hy).
  unfold RedisService.zset_le.
  assert ((z_score x <? z_score y) = false) as -> by (apply Z.ltb_ge; lia).
  assert ((z_score x =? z_score y) = false) as -> by (apply Z.eqb_neq; lia).
  reflexivity.
Qed.

Lemma strictly_descending_entries videos :
  strictly_descending videos ->
  StronglySorted (fun a b => z_score b < z_score a) (map zset_entry videos).
Proof.
  induction 1 as [|x l Hl IH Hx]; simpl; constructor; [exact IH|].
  rewrite List.Forall_forall in *. intros e He.
  apply in_map_iff in He as (y & <- & Hy). simpl. auto.
Qed.

(** Without ties the cache path is right: a queue with pairwise distinct
    members and strictly descending net scores is read back from the
    sorted set in the order it was written. *)
Lemma cache_order_without_ties clock roomId videos w :
  videos <> [] ->
  List.NoDup (map JSON_stringify videos) ->
  strictly_descending videos ->
  fst (RedisService.getRoomQueue roomId
         (snd (RedisService.updateRoomQueue clock roomId videos w)))
  = Ok videos.
Proof.
  intros Hne Hnd Hdesc.
  unfold RedisService.getRoomQueue, RedisService.updateRoomQueue. run_monad.
  cbn [fst snd]. simpl_world.
  rewrite updateRoomQueue_pipeline_room_queue by exact Hne.
  cbn [default]. rewrite videoData_distinct by exact Hnd.
  unfold RedisService.zRange_REV.
  rewrite sort_by_descending by now apply strictly_descending_entries.
  rewrite rev_involutive. unfold id.
  rewrite map_map. simpl. now rewrite map_id.
Qed.

Example cache_order_without_ties_sample :
  let videos := [with_votes 1 0 1 (Sample.video "a" 1); Sample.video "b" 2] in
  fst (RedisService.getRoomQueue "r1"
         (snd (RedisService.updateRoomQueue Sample.clock "r1" videos Sample.fresh)))
  = Ok videos.
Proof.
  intros videos. apply cache_order_without_ties.
  - discriminate.
  - vm_compute. repeat constructor; simpl; intuition discriminate.
  - repeat constructor.
Qed.

(** C3 fails on ties.  Items a and b have the same net score and a was
    submitted first.  The store's query and the read that misses the
    cache return a before b; the sorted set written by that read orders
    members of equal score by the bytes of their JSON text, and
    [zRange ... REV] returns them from the largest down, so the next
    read, a cache hit, returns b before a. *)
Theorem C3_cache_order_differs_on_ties :
  let miss := RoomService.getRoomQueue Sample.clock "r1" Sample.fresh in
  let hit := RoomService.getRoomQueue Sample.clock "r1" (snd miss) in
  let written := RedisService.updateRoomQueue Sample.clock "r1"
                   (select_queue "r1" (db Sample.fresh)) Sample.fresh in
  map qv_id (select_queue "r1" (db Sample.fresh)) = ["a"; "b"]
  /\ map qv_net_votes (select_queue "r1" (db Sample.fresh)) = [0; 0]
  /\ map qv_added_at (select_queue "r1" (db Sample.fresh)) = [1; 2]
  /\ queue_ids (fst miss) = Some ["a"; "b"]
  /\ queue_ids (fst hit) = Some ["b"; "a"]
  /\ queue_ids (fst (RedisService.getRoomQueue "r1" (snd written))) = Some ["b"; "a"].
Proof.
  vm_compute. repeat split; reflexivity.
Qed.

(** * The cache on its own *)

(** ** Hashes *)

Lemma hGet_hSet_eq {V} key field (x : V) m :
  RedisService.hGet key field (RedisService.hSet key field x m) = Some x.
Proof.
  unfold RedisService.hGet, RedisService.hSet.
  rewrite lookup_insert_eq. apply lookup_insert_eq.
Qed.

Lemma hGet_hSet_ne {V} key field key' field' (x : V) m :
  key' <> key \/ field' <> field ->
  RedisService.hGet key' field' (RedisService.hSet key field x m)
  = RedisService.hGet key' field' m.
Proof.
  intros Hne. unfold RedisService.hGet, RedisService.hSet.
  destruct (decide (key' = key)) as [->|Hk].
  - destruct Hne as [Hne|Hne]; [congruence|].
    rewrite lookup_insert_eq, lookup_insert_ne by congruence.
    destruct (m !! key); [reflexivity | apply lookup_empty].
  - rewrite lookup_insert_ne by congruence. reflexivity.
Qed.

Lemma hGet_hDel_eq {V} `{EqDecision V} key field (m : gmap string (gmap string V)) :
  RedisService.hGet key field (RedisService.hDel key field m) = None.
Proof.
  unfold RedisService.hGet, RedisService.hDel.
  destruct (m !! key) as [h|] eqn:Hm.
  - destruct (decide (delete field h = ∅)).
    + rewrite lookup_delete_eq. reflexivity.
    + rewrite lookup_insert_eq. apply lookup_delete_eq.
  - rewrite Hm. reflexivity.
Qed.

Lemma hGet_hDel_ne {V} `{EqDecision V} key field key' field'
    (m : gmap string (gmap string V)) :
  key' <> key \/ field' <> field ->
  RedisService.hGet key' field' (RedisService.hDel key field m)
  = RedisService.hGet key' field' m.
Proof.
  intros Hne. unfold RedisService.hGet, RedisService.hDel.
  destruct (m !! key) as [h|] eqn:Hm; [|reflexivity].
  destruct (decide (key' = key)) as [->|Hk].
  - destruct Hne as [Hne|Hne]; [congruence|]. rewrite Hm.
    destruct (decide (delete field h = ∅)) as [He|He].
    + rewrite lookup_delete_eq.
      rewrite <- (lookup_delete_ne h field field') by congruence.
      rewrite He. symmetry. apply lookup_empty.
    + rewrite lookup_insert_eq. apply lookup_delete_ne. congruence.
  - destruct (decide (delete field h = ∅)).
    + rewrite lookup_delete_ne by congruence. reflexivity.
    + rewrite lookup_insert_ne by congruence. reflexivity.
Qed.

Lemma hGet_hIncrBy_eq key field n m :
  RedisService.hGet key field (RedisService.hIncrBy key field n m)
  = Some (default 0 (RedisService.hGet key field m) + n).
Proof. apply hGet_hSet_eq. Qed.

Lemma hGet_hIncrBy_ne key field key' field' n m :
  key' <> key \/ field' <> field ->
  RedisService.hGet key' field' (RedisService.hIncrBy key field n m)
  = RedisService.hGet key' field' m.
Proof. apply hGet_hSet_ne. Qed.

(** ** Sorting *)

Section Sorting.

Context {A : Type} (le : A -> A -> bool) (R : A -> A -> Prop).
Hypothesis le_R : forall x y, le x y = true -> R x y.
Hypothesis nle_R : forall x y, le x y = false -> R y x.
Hypothesis R_trans : forall x y z, R x y -> R y z -> R x z.

Lemma insert_sorted_Forall (P : A -> Prop) x l :
  P x -> Forall P l -> Forall P (insert_sorted le x l).
Proof.
  intros Hx Hl. induction Hl as [|y l Hy Hl IH]; simpl.
  - repeat constructor. exact Hx.
  - destruct (le x y); repeat constructor; assumption.
Qed.

Lemma insert_sorted_strongly x l :
  StronglySorted R l -> StronglySorted R (insert_sorted le x l).
Proof.
  induction 1 as [|y l Hs IH Hall]; simpl.
  - repeat constructor.
  - destruct (le x y) eqn:Hle.
    + constructor; [constructor; assumption|].
      constructor; [apply le_R; exact Hle|].
      eapply List.Forall_impl; [|exact Hall]. intros z Hz.
      eapply R_trans; [apply le_R; exact Hle | exact Hz].
    + constructor; [exact IH|].
      apply insert_sorted_Forall; [apply nle_R; exact Hle | exact Hall].
Qed.

Lemma sort_by_strongly l : StronglySorted R (sort_by le l).
Proof.
  induction l as [|x l IH]; simpl; [constructor|].
  apply insert_sorted_strongly. exact IH.
Qed.

End Sorting.

Lemma insert_sorted_Permutation {A} (le : A -> A -> bool) x l :
  Permutation (insert_sorted le x l) (x :: l).
Proof.
  induction l as [|y l IH]; simpl; [reflexivity|].
  destruct (le x y); [reflexivity|].
  rewrite IH. apply perm_swap.
Qed.

Lemma sort_by_Permutation {A} (le : A -> A -> bool) l :
  Permutation (sort_by le l) l.
Proof.
  induction l as [|x l IH]; simpl; [reflexivity|].
  rewrite insert_sorted_Permutation. constructor. exact IH.
Qed.

Lemma StronglySorted_snoc {A} (R : A -> A -> Prop) l x :
  StronglySorted R l -> Forall (fun y => R y x) l -> StronglySorted R (l ++ [x]).
Proof.
  induction 1 as [|y l Hs IH Hall]; intros Hx; simpl.
  - repeat constructor.
  - inversion Hx; subst. constructor; [apply IH; assumption|].
    apply Forall_app. split; [exact Hall | repeat constructor; assumption].
Qed.

Lemma StronglySorted_rev {A} (R : A -> A -> Prop) l :
  StronglySorted R l -> StronglySorted (fun a b => R b a) (rev l).
Proof.
  induction 1 as [|y l Hs IH Hall]; simpl; [constructor|].
  apply StronglySorted_snoc; [exact IH|].
  apply List.Forall_forall. intros z Hz. apply in_rev in Hz.
  eapply List.Forall_forall in Hall; eassumption.
Qed.

Lemma StronglySorted_map {A B} (f : A -> B) (R : B -> B -> Prop) l :
  StronglySorted (fun a b => R (f a) (f b)) l -> StronglySorted R (map f l).
Proof.
  induction 1 as [|y l Hs IH Hall]; simpl; constructor; [exact IH|].
  apply List.Forall_forall. intros z Hz. apply in_map_iff in Hz.
  destruct Hz as (a & <- & Ha).
  eapply List.Forall_forall in Hall; eassumption.
Qed.

Lemma StronglySorted_weaken {A} (R R' : A -> A -> Prop) l :
  (forall a b, In a l -> In b l -> R a b -> R' a b) ->
  StronglySorted R l -> StronglySorted R' l.
Proof.
  intros Himp Hs. induction Hs as [|y l Hs IH Hall]; constructor.
  - apply IH. intros a b Ha Hb. apply Himp; right; assumption.
  - apply List.Forall_forall. intros z Hz.
    apply Himp; [left; reflexivity | right; exact Hz |].
    eapply List.Forall_forall in Hall; eassumption.
Qed.

(** The sorted set is kept in ascending order of score. *)
Lemma zset_sorted entries :
  StronglySorted (fun a b => z_score a <= z_score b)
    (sort_by RedisService.zset_le entries).
Proof.
  apply sort_by_strongly.
  - intros x y H. unfold RedisService.zset_le in H.
    apply orb_true_iff in H. destruct H as [H|H]; [apply Z.ltb_lt in H; lia|].
    apply andb_true_iff in H. destruct H as [H _]. apply Z.eqb_eq in H. lia.
  - intros x y H. unfold RedisService.zset_le in H.
    apply orb_false_iff in H. destruct H as [H1 H2].
    apply Z.ltb_ge in H1. exact H1.
  - intros x y z. lia.
Qed.

(** ** What [updateRoomQueue] writes *)

Lemma In_record_set e x l :
  In x (RedisService.record_set e l) -> x = e \/ In x l.
Proof.
  induction l as [|y l IH]; simpl.
  - intros [<-|[]]. left. reflexivity.
  - destruct (String.eqb (z_member y) (z_member e)); simpl.
    + intros [<-|H]; [left; reflexivity | right; right; exact H].
    + intros [<-|H]; [right; left; reflexivity|].
      destruct (IH H) as [->|H']; [left; reflexivity | right; right; exact H'].
Qed.

Lemma In_videoData_fold videos acc x :
  In x (fold_left (fun acc video =>
                     RedisService.record_set
                       (mkZEntry (JSON_stringify video) video (qv_net_votes video)) acc)
                  videos acc) ->
  In x acc \/ exists v, In v videos /\ x = zset_entry v.
Proof.
  revert acc. induction videos as [|v videos IH]; simpl; intros acc H.
  - left. exact H.
  - destruct (IH _ H) as [H'|(v' & Hv' & ->)].
    + apply In_record_set in H'. destruct H' as [->|H'].
      * right. exists v. split; [left; reflexivity | reflexivity].
      * left. exact H'.
    + right. exists v'. split; [right; exact Hv' | reflexivity].
Qed.

Lemma In_videoData videos x :
  In x (RedisService.videoData videos) -> exists v, In v videos /\ x = zset_entry v.
Proof.
  intros H. apply In_videoData_fold in H. destruct H as [[]|H]. exact H.
Qed.

Lemma updateRoomQueue_pipeline_room_queue_empty roomId now r :
  room_queue (RedisService.updateRoomQueue_pipeline roomId [] now r) !! roomId = None.
Proof.
  unfold RedisService.updateRoomQueue_pipeline. simpl. apply lookup_delete_eq.
Qed.

Lemma updateRoomQueue_pipeline_room_votes roomId videos now r :
  room_votes (RedisService.updateRoomQueue_pipeline roomId videos now r) = room_votes r.
Proof.
  unfold RedisService.updateRoomQueue_pipeline.
  destruct (0 <? Z.of_nat (length videos)); reflexivity.
Qed.

Lemma updateRoomQueue_pipeline_room_queue_ne roomId roomId' videos now r :
  roomId' <> roomId ->
  room_queue (RedisService.updateRoomQueue_pipeline roomId videos now r) !! roomId'
  = room_queue r !! roomId'.
Proof.
  intros Hne. unfold RedisService.updateRoomQueue_pipeline.
  destruct (0 <? Z.of_nat (length videos)); simpl.
  - rewrite lookup_insert_ne, lookup_delete_ne by congruence. reflexivity.
  - rewrite lookup_delete_ne by congruence. reflexivity.
Qed.

(** The queue read back right after a write. *)
Lemma written_queue_read clock roomId videos w :
  fst (RedisService.getRoomQueue roomId
         (snd (RedisService.updateRoomQueue clock roomId videos w)))
  = Ok (map z_video (RedisService.zRange_REV
                       (match videos with
                        | [] => []
                        | _ => RedisService.videoData videos
                        end))).
Proof.
  run_monad. cbn [fst snd]. simpl_world.
  destruct videos as [|v videos].
  - rewrite updateRoomQueue_pipeline_room_queue_empty. reflexivity.
  - rewrite updateRoomQueue_pipeline_room_queue by discriminate. reflexivity.
Qed.

(** ** The cached queue *)

(** X1 (RedisService.updateRoomQueue, RedisService.getRoomQueue): the
    queue read back from the sorted set after a write is in descending
    order of net votes, holds only rows that were written, and, when the
    JSON texts of the rows differ, holds each written row once.  The
    queues of the other rooms are not touched. *)
Theorem cached_queue_sorted_by_net_votes :
  forall clock roomId videos w,
    let w' := snd (RedisService.updateRoomQueue clock roomId videos w) in
    exists queue,
      fst (RedisService.getRoomQueue roomId w') = Ok queue
      /\ StronglySorted (fun a b => qv_net_votes b <= qv_net_votes a) queue
      /\ (forall v, In v queue -> In v videos)
      /\ (List.NoDup (map JSON_stringify videos) -> Permutation queue videos)
      /\ (forall roomId', roomId' <> roomId ->
            fst (RedisService.getRoomQueue roomId' w')
            = fst (RedisService.getRoomQueue roomId' w)).
Proof.
  intros clock roomId videos w w'. subst w'.
  rewrite written_queue_read.
  set (entries := match videos with
                  | [] => []
                  | _ => RedisService.videoData videos
                  end).
  assert (Hentries : forall e, In e entries ->
                               exists v, In v videos /\ e = zset_entry v).
  { intros e He. subst entries. destruct videos as [|v videos]; [destruct He|].
    apply In_videoData. exact He. }
  assert (Hrange : forall e, In e (RedisService.zRange_REV entries) -> In e entries).
  { intros e He. unfold RedisService.zRange_REV in He.
    apply in_rev in He. apply In_sort_by in He. exact He. }
  eexists. split; [reflexivity|]. split; [|split; [|split]].
  - apply StronglySorted_map.
    eapply StronglySorted_weaken;
      [|apply StronglySorted_rev; apply (zset_sorted entries)].
    cbn beta. intros a b Ha Hb Hab.
    destruct (Hentries a (Hrange a Ha)) as (va & _ & ->).
    destruct (Hentries b (Hrange b Hb)) as (vb & _ & ->).
    exact Hab.
  - intros v Hv. apply in_map_iff in Hv. destruct Hv as (e & <- & He).
    destruct (Hentries e (Hrange e He)) as (v & Hv & ->). exact Hv.
  - intros Hnd.
    assert (Heq : entries = map zset_entry videos).
    { subst entries. destruct videos as [|v videos]; [reflexivity|].
      apply videoData_distinct. exact Hnd. }
    rewrite Heq. unfold RedisService.zRange_REV.
    rewrite <- Permutation_rev, sort_by_Permutation, map_map.
    cbn [zset_entry z_video]. rewrite map_id. reflexivity.
  - intros roomId' Hne. run_monad. cbn [fst snd]. simpl_world.
    rewrite updateRoomQueue_pipeline_room_queue_ne by exact Hne. reflexivity.
Qed.

(** ** The current item *)

(** X2 (RedisService.setCurrentVideo, RedisService.getCurrentVideo): the
    current item of a room reads back as it was set, a null included;
    setting it moves the cursor of the room to the clock reading and
    leaves the current items of the other rooms and the cached queues as
    they were. *)
Theorem current_item_round_trip :
  forall clock roomId video w,
    let w' := snd (RedisService.setCurrentVideo clock roomId video w) in
    fst (RedisService.getCurrentVideo roomId w') = Ok video
    /\ (forall roomId', roomId' <> roomId ->
          fst (RedisService.getCurrentVideo roomId' w')
          = fst (RedisService.getCurrentVideo roomId' w))
    /\ fst (RedisService.getLastUpdate roomId w') = Ok (clock (ticks w))
    /\ room_queue (redis w') = room_queue (redis w)
    /\ db w' = db w.
Proof.
  intros clock roomId video w w'. subst w'.
  run_monad. cbn [fst snd]. simpl_world.
  destruct video as [v|]; cbn [room_current last_update room_queue
    RedisService.set_room_current RedisService.set_last_update].
  - rewrite !lookup_insert_eq. repeat split.
    intros roomId' Hne. rewrite lookup_insert_ne by congruence. reflexivity.
  - rewrite lookup_delete_eq, lookup_insert_eq. repeat split.
    intros roomId' Hne. rewrite lookup_delete_ne by congruence. reflexivity.
Qed.

(** ** The vote index *)

Lemma updateVideoVote_pipeline_user_votes roomId videoId userId oldVote newVote now r :
  user_votes (RedisService.updateVideoVote_pipeline roomId videoId userId
                oldVote newVote now r)
  = if newVote =? 0 then RedisService.hDel userId videoId (user_votes r)
    else RedisService.hSet userId videoId newVote (user_votes r).
Proof.
  unfold RedisService.updateVideoVote_pipeline.
  destruct (newVote =? 0); destruct oldVote as [old|];
    try destruct (old =? 1); cbn [negb]; try destruct (newVote =? 1); reflexivity.
Qed.

(** X3 (RedisService.updateVideoVote, RedisService.getUserVote): after
    the vote of a voter on an item is written to the cache, the index
    gives that vote back, and gives nothing when the vote written is 0
    (a withdrawal); the entries of other voters and other items stay as
    they were. *)
Theorem user_vote_index_round_trip :
  forall clock roomId videoId userId oldVote newVote w,
    let w' := snd (RedisService.updateVideoVote clock roomId videoId userId
                     oldVote newVote w) in
    fst (RedisService.getUserVote userId videoId w')
    = Ok (if newVote =? 0 then None else Some newVote)
    /\ (forall userId' videoId',
          userId' <> userId \/ videoId' <> videoId ->
          fst (RedisService.getUserVote userId' videoId' w')
          = fst (RedisService.getUserVote userId' videoId' w))
    /\ fst (RedisService.getLastUpdate roomId w') = Ok (clock (ticks w))
    /\ db w' = db w.
Proof.
  intros clock roomId videoId userId oldVote newVote w w'. subst w'.
  run_monad. cbn [fst snd]. simpl_world.
  rewrite updateVideoVote_pipeline_user_votes, updateVideoVote_pipeline_last_update.
  rewrite lookup_insert_eq.
  destruct (newVote =? 0).
  - rewrite hGet_hDel_eq. repeat split.
    intros u v Hne. rewrite hGet_hDel_ne by exact Hne. reflexivity.
  - rewrite hGet_hSet_eq. repeat split.
    intros u v Hne. rewrite hGet_hSet_ne by exact Hne. reflexivity.
Qed.

(** ** Dropping a room *)

(** X5 (RedisService.clearRoomData): after the data of a room is
    cleared, its queue, current item, members, vote counters and cursor
    read as empty; the vote index, which is keyed by voter, keeps every
    entry, and the other rooms and the store are not touched. *)
Theorem clearRoomData_drops_the_room_only :
  forall roomId w,
    let w' := snd (RedisService.clearRoomData roomId w) in
    fst (RedisService.getRoomQueue roomId w') = Ok []
    /\ fst (RedisService.getCurrentVideo roomId w') = Ok None
    /\ fst (RedisService.getRoomMembers roomId w') = Ok []
    /\ fst (RedisService.getLastUpdate roomId w') = Ok 0
    /\ (forall videoId, fst (RedisService.getVideoVotes roomId videoId w') = Ok (0, 0))
    /\ (forall userId videoId,
          fst (RedisService.getUserVote userId videoId w')
          = fst (RedisService.getUserVote userId videoId w))
    /\ (forall roomId', roomId' <> roomId ->
          fst (RedisService.getRoomQueue roomId' w')
          = fst (RedisService.getRoomQueue roomId' w)
          /\ fst (RedisService.getCurrentVideo roomId' w')
             = fst (RedisService.getCurrentVideo roomId' w)
          /\ fst (RedisService.getRoomMembers roomId' w')
             = fst (RedisService.getRoomMembers roomId' w)
          /\ fst (RedisService.getLastUpdate roomId' w')
             = fst (RedisService.getLastUpdate roomId' w)
          /\ (forall videoId,
                fst (RedisService.getVideoVotes roomId' videoId w')
                = fst (RedisService.getVideoVotes roomId' videoId w)))
    /\ db w' = db w.
Proof.
  intros roomId w w'. subst w'.
  unfold RedisService.getVideoVotes.
  run_monad. cbn [fst snd]. simpl_world.
  cbn [room_queue room_current room_members room_votes last_update user_votes].
  unfold RedisService.hGet.
  rewrite !lookup_delete_eq. cbn [default].
  repeat split; try reflexivity.
  all: intros; rewrite ?lookup_delete_ne by congruence; reflexivity.
Qed.

(** ** Room members *)

Lemma In_members (h : gmap string Member) (m : Member) :
  In m (map snd (map_to_list h)) <-> exists userId : string, h !! userId = Some m.
Proof.
  rewrite in_map_iff. split.
  - intros ([k x] & <- & Hin). exists k.
    apply list_elem_of_In in Hin. apply elem_of_map_to_list in Hin. exact Hin.
  - intros (k & Hk). exists (k, m). split; [reflexivity|].
    apply list_elem_of_In. apply elem_of_map_to_list. exact Hk.
Qed.

Lemma length_members (h : gmap string Member) :
  length (map snd (map_to_list h)) = size h.
Proof. rewrite length_map. apply length_map_to_list. Qed.

(** X6 (RedisService.addRoomMember, removeRoomMember, getRoomMembers):
    a user who is added to a room is listed once, with the name given
    and the clock reading as the joining time; adding a listed user
    again replaces the entry and keeps the count; removing a user
    unlists them and lowers the count by one if they were listed.  The
    other members are not touched. *)
Theorem room_members_add_remove :
  forall clock roomId userId username w,
    members_keyed (redis w) ->
    let added := snd (RedisMembers.addRoomMember clock roomId userId username w) in
    let removed := snd (RedisMembers.removeRoomMember roomId userId w) in
    (exists members,
        fst (RedisService.getRoomMembers roomId added) = Ok members
        /\ In (mkMember userId username (clock (ticks w))) members
        /\ (forall m, In m members -> m_userId m = userId ->
                      m = mkMember userId username (clock (ticks w)))
        /\ (forall m, m_userId m <> userId ->
                      (In m members <-> In m (members_read roomId w)))
        /\ length members
           = (if is_member roomId userId w then length (members_read roomId w)
              else S (length (members_read roomId w)))
        /\ members_keyed (redis added))
    /\ (exists members,
          fst (RedisService.getRoomMembers roomId removed) = Ok members
          /\ (forall m, In m members -> m_userId m <> userId)
          /\ (forall m, m_userId m <> userId ->
                        (In m members <-> In m (members_read roomId w)))
          /\ length (members_read roomId w)
             = (if is_member roomId userId w then S (length members)
                else length members)
          /\ members_keyed (redis removed)).
Proof.
  intros clock roomId userId username w Hkeyed added removed.
  subst added removed.
  unfold RedisMembers.addRoomMember, RedisMembers.removeRoomMember.
  run_monad. cbn [fst snd]. simpl_world.
  cbn [room_members RedisService.set_room_members].
  unfold members_read, is_member, has_key, RedisService.hSet, RedisService.hDel.
  remember (default ∅ (room_members (redis w) !! roomId)) as h eqn:Eh.
  assert (Hh : forall k m, h !! k = Some m -> m_userId m = k).
  { intros k m Hk. subst h. destruct (room_members (redis w) !! roomId) eqn:E.
    - eapply Hkeyed; eassumption.
    - cbn in Hk. rewrite lookup_empty in Hk. discriminate. }
  split.
  - eexists. split; [reflexivity|].
    rewrite lookup_insert_eq. cbn [default from_option id].
    split; [|split; [|split; [|split]]].
    + apply In_members. exists userId. apply lookup_insert_eq.
    + intros m Hin Hid. apply In_members in Hin. destruct Hin as (k & Hk).
      destruct (decide (k = userId)) as [->|Hne].
      * rewrite lookup_insert_eq in Hk. congruence.
      * rewrite lookup_insert_ne in Hk by congruence. apply Hh in Hk. congruence.
    + intros m Hid. rewrite !In_members. split; intros (k & Hk); exists k.
      * destruct (decide (k = userId)) as [->|Hne].
        -- rewrite lookup_insert_eq in Hk. inversion Hk; subst. cbn in Hid. congruence.
        -- rewrite lookup_insert_ne in Hk by congruence. exact Hk.
      * rewrite lookup_insert_ne; [exact Hk|]. apply Hh in Hk. congruence.
    + rewrite !length_members, map_size_insert.
      destruct (h !! userId); reflexivity.
    + intros r' h' k m Hr' Hk.
      cbn [room_members RedisService.set_room_members] in Hr'.
      destruct (decide (r' = roomId)) as [->|Hne].
      * rewrite lookup_insert_eq in Hr'. inversion Hr'; subst h'.
        destruct (decide (k = userId)) as [->|Hne].
        -- rewrite lookup_insert_eq in Hk. inversion Hk. reflexivity.
        -- rewrite lookup_insert_ne in Hk by congruence. apply Hh. exact Hk.
      * rewrite lookup_insert_ne in Hr' by congruence. eapply Hkeyed; eassumption.
  - eexists. split; [reflexivity|].
    destruct (room_members (redis w) !! roomId) as [h0|] eqn:E.
    + cbn [default from_option id] in Eh. subst h0.
      assert (Hread :
        default ∅ ((if decide (delete userId h = ∅)
                    then delete roomId (room_members (redis w))
                    else <[roomId := delete userId h]> (room_members (redis w)))
                   !! roomId) = delete userId h).
      { destruct (decide (delete userId h = ∅)) as [He|He].
        - rewrite lookup_delete_eq, He. reflexivity.
        - rewrite lookup_insert_eq. reflexivity. }
      cbn [room_members RedisService.set_room_members]. rewrite Hread.
      split; [|split; [|split]].
      * intros m Hin Hid. apply In_members in Hin. destruct Hin as (k & Hk).
        destruct (decide (k = userId)) as [->|Hne].
        -- rewrite lookup_delete_eq in Hk. discriminate.
        -- rewrite lookup_delete_ne in Hk by congruence. apply Hh in Hk. congruence.
      * intros m Hid. rewrite !In_members. split; intros (k & Hk); exists k.
        -- destruct (decide (k = userId)) as [->|Hne].
           ++ rewrite lookup_delete_eq in Hk. discriminate.
           ++ rewrite lookup_delete_ne in Hk by congruence. exact Hk.
        -- rewrite lookup_delete_ne; [exact Hk|]. apply Hh in Hk. congruence.
      * rewrite !length_members.
        destruct (h !! userId) eqn:Hu.
        -- rewrite (map_size_delete_Some userId h) by (rewrite Hu; eauto).
           assert (size h <> 0%nat).
           { intros Hz. apply map_size_empty_iff in Hz. subst h.
             rewrite lookup_empty in Hu. discriminate. }
           lia.
        -- rewrite map_size_delete_None by exact Hu. reflexivity.
      * intros r' h' k m Hr' Hk.
        cbn [room_members RedisService.set_room_members] in Hr'.
        destruct (decide (r' = roomId)) as [->|Hne].
        -- destruct (decide (delete userId h = ∅)) as [He|He].
           ++ rewrite lookup_delete_eq in Hr'. discriminate.
           ++ rewrite lookup_insert_eq in Hr'. inversion Hr'; subst h'.
              destruct (decide (k = userId)) as [->|Hne].
              ** rewrite lookup_delete_eq in Hk. discriminate.
              ** rewrite lookup_delete_ne in Hk by congruence. apply Hh. exact Hk.
        -- destruct (decide (delete userId h = ∅)) as [He|He].
           ++ rewrite lookup_delete_ne in Hr' by congruence.
              eapply Hkeyed; eassumption.
           ++ rewrite lookup_insert_ne in Hr' by congruence.
              eapply Hkeyed; eassumption.
    + cbn [default from_option id] in Eh. subst h. rewrite E.
      cbn [default from_option id]. rewrite lookup_empty.
      split; [|split; [|split]].
      * intros m Hin. apply In_members in Hin. destruct Hin as (k & Hk).
        rewrite lookup_empty in Hk. discriminate.
      * intros m Hid. reflexivity.
      * reflexivity.
      * intros r' h' k m Hr' Hk.
        cbn [room_members RedisService.set_room_members] in Hr'.
        eapply Hkeyed; eassumption.
Qed.

Lemma room_members_add_remove_witness :
  exists members,
    fst (RedisService.getRoomMembers "r1"
           (snd (RedisMembers.addRoomMember Sample.clock "r1" "bob" "Bob" Sample.fresh)))
    = Ok members
    /\ In (mkMember "bob" "Bob" 1000) members
    /\ length members = 1%nat.
Proof.
  assert (Hkeyed : members_keyed (redis Sample.fresh)).
  { intros roomId h userId m H. cbn in H. rewrite lookup_empty in H. discriminate. }
  pose proof (room_members_add_remove Sample.clock "r1" "bob" "Bob" Sample.fresh Hkeyed)
    as H.
  cbv zeta in H. destruct H as [(members & Hget & Hin & _ & _ & Hlen & _) _].
  exists members. split; [exact Hget|]. split; [exact Hin|]. exact Hlen.
Defined.

(** ** The cached vote counters *)

Lemma vote_fields_distinct videoId :
  videoId +:+ ":upvotes" <> videoId +:+ ":downvotes".
Proof.
  induction videoId as [|c s IH]; cbn.
  - discriminate.
  - intros H. injection H as H. exact (IH H).
Qed.

Lemma default_Some {A} (d x : A) : default d (Some x) = x.
Proof. reflexivity. Qed.

Lemma room_votes_after_vote roomId videoId userId old voteType now r :
  voteType <> 0 ->
  let up := default 0 (RedisService.hGet roomId (videoId +:+ ":upvotes") (room_votes r)) in
  let down := default 0 (RedisService.hGet roomId (videoId +:+ ":downvotes")
                           (room_votes r)) in
  let r' := RedisService.updateVideoVote_pipeline roomId videoId userId old
              (snd (RoomService.vote_changes old voteType)) now r in
  default 0 (RedisService.hGet roomId (videoId +:+ ":upvotes") (room_votes r'))
  = up + fst (fst (RoomService.vote_changes old voteType))
  /\ default 0 (RedisService.hGet roomId (videoId +:+ ":downvotes") (room_votes r'))
     = down + snd (fst (RoomService.vote_changes old voteType)).
Proof.
  intros Hvt up down r'. subst up down r'.
  pose proof (vote_fields_distinct videoId) as Hf.
  assert (Hf' : videoId +:+ ":downvotes" <> videoId +:+ ":upvotes") by congruence.
  unfold RoomService.vote_changes, RedisService.updateVideoVote_pipeline.
  destruct old as [old|];
    [destruct (old =? voteType) eqn:Hsame; destruct (old =? 1) eqn:Hold|];
    destruct (voteType =? 1) eqn:Hone;
    cbn [negb fst snd];
    try (rewrite Z.eqb_refl);
    try (replace (voteType =? 0) with false by (symmetry; apply Z.eqb_neq; exact Hvt));
    try rewrite Hone;
    cbn [negb room_votes RedisService.set_room_votes RedisService.set_user_votes
         RedisService.set_last_update];
    repeat (first [ rewrite hGet_hIncrBy_eq
                  | rewrite hGet_hIncrBy_ne by (right; assumption) ]);
    rewrite ?default_Some; split; lia.
Qed.

(** X4 (RoomService.voteVideo, RedisService.updateVideoVote,
    RedisService.getVideoVotes): a vote of a type other than 0 that goes
    through moves the cached counters of the item by the amounts it
    moves the stored ones. *)
Theorem cached_counters_follow_the_store :
  forall clock userId videoId voteType w video rest item up down,
    voteType <> 0 ->
    select_votable videoId (db w) = video :: rest ->
    item_row videoId (db w) = Some item ->
    fst (RedisService.getVideoVotes (qv_room_id video) videoId w) = Ok (up, down) ->
    exists item' w',
      RoomService.voteVideo clock None userId videoId voteType w = (Ok (Some item'), w')
      /\ fst (RedisService.getVideoVotes (qv_room_id video) videoId w')
         = Ok (up + (qv_upvotes item' - qv_upvotes item),
               down + (qv_downvotes item' - qv_downvotes item)).
Proof.
  intros clock userId videoId voteType w video rest item up down Hvt Hsel Hitem Hget.
  destruct (voteVideo_run clock userId videoId voteType w video rest Hsel)
    as (w' & Hrun & Hdb & Hredis & _).
  rewrite item_row_apply_vote, Hitem in Hrun. cbn [option_map] in Hrun.
  eexists. exists w'. split; [exact Hrun|].
  pose proof (room_votes_after_vote (qv_room_id video) videoId userId
                (recorded_vote userId videoId (db w)) voteType (clock (ticks w))
                (redis w) Hvt) as Hvotes.
  cbv zeta in Hvotes. destruct Hvotes as [Hup Hdown].
  unfold RedisService.getVideoVotes in Hget |- *.
  revert Hget. run_monad. cbn [fst snd]. simpl_world. intros Hget.
  rewrite Hredis, updateRoomQueue_pipeline_room_votes, Hup, Hdown.
  inversion Hget as [[Hu Hd]].
  destruct (RoomService.vote_changes (recorded_vote userId videoId (db w)) voteType)
    as [[du dd] final].
  cbn [fst snd qv_upvotes qv_downvotes with_votes]. f_equal. f_equal; lia.
Qed.

Lemma cached_counters_follow_the_store_witness :
  exists item' w',
    RoomService.voteVideo Sample.clock None "bob" "a" 1 Sample.downvoted
      = (Ok (Some item'), w')
    /\ fst (RedisService.getVideoVotes "r1" "a" w')
       = Ok (0 + (qv_upvotes item' - 0), 0 + (qv_downvotes item' - 1)).
Proof.
  apply (cached_counters_follow_the_store Sample.clock "bob" "a" 1 Sample.downvoted
           (with_votes 0 1 (-1) (Sample.video "a" 1)) []
           (with_votes 0 1 (-1) (Sample.video "a" 1)) 0 0).
  - lia.
  - vm_compute. reflexivity.
  - vm_compute. reflexivity.
  - vm_compute. reflexivity.
Defined.

(** * Advancing the queue *)

Lemma In_omap_intro {A B} (f : A -> option B) (l : list A) x y :
  In x l -> f x = Some y -> In y (omap f l).
Proof.
  intros Hin Hf. induction l as [|a l IH]; [destruct Hin|].
  cbn. destruct Hin as [->|Hin].
  - rewrite Hf. left. reflexivity.
  - destruct (f a); [right|]; apply IH; exact Hin.
Qed.

Lemma queue_order_sorted l : StronglySorted plays_before (sort_by queue_order l).
Proof.
  apply sort_by_strongly; unfold queue_order, plays_before.
  - intros x y H. apply orb_true_iff in H. destruct H as [H|H].
    + apply Z.ltb_lt in H. left. exact H.
    + apply andb_true_iff in H. destruct H as [H1 H2].
      apply Z.eqb_eq in H1. apply Z.leb_le in H2. right. split; assumption.
  - intros x y H. apply orb_false_iff in H. destruct H as [H1 H2].
    apply Z.ltb_ge in H1. apply andb_false_iff in H2.
    destruct H2 as [H2|H2].
    + apply Z.eqb_neq in H2. left. lia.
    + apply Z.leb_gt in H2. destruct (Z.eq_dec (qv_net_votes x) (qv_net_votes y)).
      * right. split; lia.
      * left. lia.
  - intros x y z. lia.
Qed.

Lemma head_sorted_first {A} (R : A -> A -> Prop) l x :
  (forall a, R a a) -> StronglySorted R l -> head l = Some x ->
  forall y, In y l -> R x y.
Proof.
  intros Hrefl Hs Hhead y Hy. destruct Hs as [|a l Hs Hall]; [discriminate|].
  cbn in Hhead. inversion Hhead; subst a.
  destruct Hy as [<-|Hy]; [apply Hrefl|].
  eapply List.Forall_forall in Hall; eassumption.
Qed.

Lemma plays_before_refl a : plays_before a a.
Proof. right. split; lia. Qed.

Lemma eligible_in_queue roomId timestamp d v :
  eligible roomId d v ->
  exists name,
    In (with_username (Some name) v)
       (select_queue roomId (mark_current_played roomId timestamp d)).
Proof.
  intros (Hin & Hroom & Hplayed & Hcurrent & [name Hname]).
  exists name. unfold select_queue. apply In_sort_by.
  apply In_omap_intro with (x := v).
  - apply filter_In. split.
    + cbn. apply update_where_keeps; [exact Hin|].
      rewrite Hcurrent. apply andb_false_r.
    + rewrite Hroom, String.eqb_refl, Hplayed. reflexivity.
  - unfold join_user. cbn. rewrite Hname. reflexivity.
Qed.

Lemma next_video_source roomId timestamp d row :
  next_video timestamp roomId d = Some row ->
  exists v name,
    eligible roomId d v /\ row = with_username (Some name) v.
Proof.
  intros Hnext. unfold next_video in Hnext.
  assert (Hin : In row (select_queue roomId (mark_current_played roomId timestamp d))).
  { destruct (select_queue roomId (mark_current_played roomId timestamp d));
      [discriminate|]. cbn in Hnext. inversion Hnext. left. reflexivity. }
  unfold select_queue in Hin. apply In_sort_by in Hin.
  apply In_omap in Hin. destruct Hin as (v1 & Hv1 & Hjoin).
  apply filter_In in Hv1. destruct Hv1 as [Hv1 Hcond].
  apply andb_true_iff in Hcond. destruct Hcond as [Hroom Hplayed].
  apply String.eqb_eq in Hroom. apply negb_true_iff in Hplayed.
  unfold join_user in Hjoin. cbn [users mark_current_played set_queue_videos] in Hjoin.
  destruct (users d !! qv_added_by v1) as [name|] eqn:Hname; [|discriminate].
  inversion Hjoin; subst row.
  cbn [queue_videos mark_current_played set_queue_videos] in Hv1.
  apply update_where_In in Hv1.
  destruct Hv1 as (v & Hv & [[Hc ->]|[Hc ->]]).
  - cbn in Hplayed. discriminate.
  - exists v, name. split; [|reflexivity].
    split; [exact Hv|]. split; [exact Hroom|]. split; [exact Hplayed|].
    split; [|rewrite Hname; eauto].
    rewrite Hroom, String.eqb_refl in Hc. exact Hc.
Qed.

(** X7 (RoomService.playNextVideo): the item an advance promotes is an
    item of the room that was neither played nor playing, and no such
    item has more net votes, or as many and an earlier submission time. *)
Theorem playNextVideo_promotes_the_best_item :
  forall clock timestamp roomId adminId w next w',
    RoomService.playNextVideo clock timestamp roomId adminId w = (Ok (Some next), w') ->
    (exists v name,
        eligible roomId (db w) v
        /\ next = as_current (with_username (Some name) v))
    /\ qv_is_current next = true
    /\ (forall v, eligible roomId (db w) v -> plays_before next v).
Proof.
  intros clock timestamp roomId adminId w next w' Hrun.
  destruct (playNextVideo_outcome clock timestamp roomId adminId w)
    as [[Hadmin _]|[_ Hthrow]]; [|rewrite Hthrow in Hrun; discriminate].
  destruct (playNextVideo_run clock timestamp roomId adminId w Hadmin)
    as (w1 & Hrun1 & _).
  rewrite Hrun1 in Hrun. inversion Hrun as [[Hnext Hw]].
  destruct (next_video timestamp roomId (db w)) as [row|] eqn:Hrow; [|discriminate].
  cbn [option_map] in Hnext. inversion Hnext; subst next. clear Hnext.
  split; [|split].
  - destruct (next_video_source roomId timestamp (db w) row Hrow)
      as (v & name & Hv & ->).
    exists v, name. split; [exact Hv | reflexivity].
  - reflexivity.
  - intros v Hv.
    destruct (eligible_in_queue roomId timestamp (db w) v Hv) as (name & Hin).
    pose proof (head_sorted_first plays_before _ row plays_before_refl
                  (queue_order_sorted _) Hrow _ Hin) as Hbefore.
    exact Hbefore.
Qed.

Lemma playNextVideo_promotes_the_best_item_witness :
  exists next w',
    RoomService.playNextVideo Sample.clock 10 "r1" "alice" Sample.fresh
      = (Ok (Some next), w')
    /\ qv_is_current next = true
    /\ plays_before next (Sample.video "b" 2).
Proof.
  set (run := RoomService.playNextVideo Sample.clock 10 "r1" "alice" Sample.fresh).
  assert (Hrun : run = (Ok (Some (as_current (with_username (Some "Alice")
                                                 (Sample.video "a" 1)))), snd run))
    by (vm_compute; reflexivity).
  pose proof (playNextVideo_promotes_the_best_item Sample.clock 10 "r1" "alice"
                Sample.fresh _ _ Hrun) as (_ & Hcurrent & Hbest).
  eexists. eexists. split; [exact Hrun|]. split; [exact Hcurrent|].
  apply Hbest. unfold eligible.
  split; [right; left; reflexivity|].
  repeat split; try reflexivity. exists "Alice". vm_compute. reflexivity.
Defined.

Lemma room_current_id_updated roomId adminId videoId d :
  is_admin roomId adminId d ->
  room_current_id roomId (update_room_current videoId roomId d) = videoId.
Proof.
  intros (r & Hr & _). unfold room_current_id, update_room_current. cbn.
  rewrite lookup_alter_eq, Hr. reflexivity.
Qed.

Lemma advance_store_room_current_id timestamp roomId adminId d :
  is_admin roomId adminId d ->
  room_current_id roomId (advance_store timestamp roomId d)
  = RoomService.id_or_null (option_map as_current (next_video timestamp roomId d)).
Proof.
  intros Hadmin. unfold advance_store.
  assert (Hadmin1 : is_admin roomId adminId (mark_current_played roomId timestamp d))
    by exact Hadmin.
  destruct (next_video timestamp roomId d) as [row|]; cbn [option_map].
  - apply room_current_id_updated with (adminId := adminId). exact Hadmin1.
  - apply room_current_id_updated with (adminId := adminId). exact Hadmin1.
Qed.

Lemma advance_store_votes timestamp roomId d :
  video_votes (advance_store timestamp roomId d) = video_votes d.
Proof.
  unfold advance_store. destruct (next_video timestamp roomId d); reflexivity.
Qed.

Lemma advance_store_users timestamp roomId d :
  users (advance_store timestamp roomId d) = users d.
Proof.
  unfold advance_store. destruct (next_video timestamp roomId d); reflexivity.
Qed.

(** The rows of the room after an advance: the promoted one is current,
    no other is. *)
Lemma advance_store_current timestamp roomId d v :
  In v (queue_videos (advance_store timestamp roomId d)) ->
  qv_room_id v = roomId ->
  (qv_is_current v = true
   <-> exists row, next_video timestamp roomId d = Some row /\ qv_id v = qv_id row).
Proof.
  intros Hin Hroom. rewrite advance_store_queue in Hin.
  destruct (next_video timestamp roomId d) as [row|] eqn:Hrow.
  - apply update_where_In in Hin.
    destruct Hin as (x & Hx & [[Hc ->]|[Hc ->]]).
    + apply String.eqb_eq in Hc. split; [|reflexivity].
      intros _. exists row. split; [reflexivity | exact Hc].
    + apply mark_current_played_clears in Hx.
      rewrite Hroom, String.eqb_refl in Hx. cbn in Hx. rewrite Hx.
      split; [discriminate|]. intros (row' & Hrow' & Hid).
      inversion Hrow'; subst row'. apply String.eqb_neq in Hc. contradiction.
  - apply mark_current_played_clears in Hin.
    rewrite Hroom, String.eqb_refl in Hin. cbn in Hin. rewrite Hin.
    split; [discriminate|]. intros (row' & Hrow' & _). discriminate.
Qed.

(** The row that was current is retired, with the time of the advance. *)
Lemma advance_store_retires timestamp roomId d v :
  primary_key d ->
  In v (queue_videos d) -> qv_room_id v = roomId -> qv_is_current v = true ->
  In (with_flags true false (Some timestamp) v)
     (queue_videos (advance_store timestamp roomId d)).
Proof.
  intros Hpk Hin Hroom Hcurrent. rewrite advance_store_queue.
  assert (Hretired : In (with_flags true false (Some timestamp) v)
                        (queue_videos (mark_current_played roomId timestamp d))).
  { cbn. unfold update_where. apply in_map_iff. exists v. split; [|exact Hin].
    rewrite Hroom, String.eqb_refl, Hcurrent. reflexivity. }
  destruct (next_video timestamp roomId d) as [row|] eqn:Hrow; [|exact Hretired].
  apply update_where_keeps; [exact Hretired|].
  destruct (next_video_source roomId timestamp d row Hrow)
    as (v0 & name & (Hv0 & _ & _ & Hcur0 & _) & ->).
  cbn. apply String.eqb_neq. intros Hid.
  assert (v = v0) by (eapply NoDup_map_eq; eassumption).
  subst v0. congruence.
Qed.

(** The rows of the other rooms are not touched. *)
Lemma advance_store_other_rooms timestamp roomId d v :
  primary_key d -> qv_room_id v <> roomId ->
  (In v (queue_videos (advance_store timestamp roomId d)) <-> In v (queue_videos d)).
Proof.
  intros Hpk Hroom. rewrite advance_store_queue.
  assert (Hcond : String.eqb (qv_room_id v) roomId && qv_is_current v = false).
  { apply andb_false_iff. left. apply String.eqb_neq. exact Hroom. }
  assert (H1 : In v (queue_videos (mark_current_played roomId timestamp d))
               <-> In v (queue_videos d)).
  { split.
    - intros Hin. cbn in Hin. apply update_where_In in Hin.
      destruct Hin as (x & Hx & [[Hc ->]|[Hc ->]]); [|exact Hx].
      apply andb_true_iff in Hc. destruct Hc as [Hc _].
      apply String.eqb_eq in Hc. cbn in Hroom. contradiction.
    - intros Hin. cbn. apply update_where_keeps; assumption. }
  destruct (next_video timestamp roomId d) as [row|] eqn:Hrow; [|exact H1].
  destruct (next_video_source roomId timestamp d row Hrow)
    as (v0 & name & (Hv0 & Hroom0 & _) & ->).
  cbn [qv_id with_username].
  assert (Hids : forall x, In x (queue_videos (mark_current_played roomId timestamp d)) ->
                           qv_id x = qv_id v0 -> qv_room_id x = roomId).
  { intros x Hx Hid. cbn in Hx. apply update_where_In in Hx.
    destruct Hx as (x0 & Hx0 & [[_ ->]|[_ ->]]).
    - cbn in Hid |- *. assert (x0 = v0) by (eapply NoDup_map_eq; eassumption).
      subst x0. exact Hroom0.
    - assert (x0 = v0) by (eapply NoDup_map_eq; eassumption).
      subst x0. exact Hroom0. }
  rewrite <- H1. split.
  - intros Hin. apply update_where_In in Hin.
    destruct Hin as (x & Hx & [[Hc ->]|[Hc ->]]); [|exact Hx].
    apply String.eqb_eq in Hc. apply Hids in Hx; [|exact Hc].
    cbn in Hroom. contradiction.
  - intros Hin. apply update_where_keeps; [exact Hin|].
    apply String.eqb_neq. intros Hid. apply Hroom. apply Hids; assumption.
Qed.

(** X8 (RoomService.playNextVideo, RoomService.getCurrentVideo): an
    advance that goes through retires the item that was playing, stamped
    with the time of the advance; of the rows of the room exactly the
    returned item is current afterwards; the room's reference and the
    next read of the current item give the returned item, or nothing
    when none was returned; the votes and the rows of other rooms are
    not touched. *)
Theorem playNextVideo_effects :
  forall clock timestamp roomId adminId w result w',
    primary_key (db w) ->
    RoomService.playNextVideo clock timestamp roomId adminId w = (Ok result, w') ->
    (forall v, In v (queue_videos (db w)) -> qv_room_id v = roomId ->
               qv_is_current v = true ->
               In (with_flags true false (Some timestamp) v) (queue_videos (db w')))
    /\ (forall v, In v (queue_videos (db w')) -> qv_room_id v = roomId ->
                  (qv_is_current v = true
                   <-> exists next, result = Some next /\ qv_id v = qv_id next))
    /\ room_current_id roomId (db w') = RoomService.id_or_null result
    /\ fst (RoomService.getCurrentVideo clock roomId w') = Ok result
    /\ (forall v, qv_room_id v <> roomId ->
                  (In v (queue_videos (db w')) <-> In v (queue_videos (db w))))
    /\ video_votes (db w') = video_votes (db w).
Proof.
  intros clock timestamp roomId adminId w result w' Hpk Hrun.
  destruct (playNextVideo_outcome clock timestamp roomId adminId w)
    as [[Hadmin _]|[_ Hthrow]]; [|rewrite Hthrow in Hrun; discriminate].
  destruct (playNextVideo_run clock timestamp roomId adminId w Hadmin)
    as (w1 & Hrun1 & Hdb & Hcache & _).
  rewrite Hrun1 in Hrun. inversion Hrun as [[Hresult Hw]]. subst w1. clear Hrun.
  split; [|split; [|split; [|split; [|split]]]].
  - intros v Hin Hroom Hcurrent. rewrite Hdb.
    apply advance_store_retires; assumption.
  - intros v Hin Hroom. rewrite Hdb in Hin.
    rewrite (advance_store_current timestamp roomId (db w) v Hin Hroom).
    destruct (next_video timestamp roomId (db w)) as [row|]; cbn [option_map].
    + split.
      * intros (row' & Hrow' & Hid). inversion Hrow'; subst row'.
        exists (as_current row). split; [reflexivity | exact Hid].
      * intros (next & Hnext & Hid). inversion Hnext; subst next.
        exists row. split; [reflexivity | exact Hid].
    + split; intros (x & Hx & _); discriminate.
  - rewrite Hdb. apply advance_store_room_current_id with (adminId := adminId).
    exact Hadmin.
  - destruct (getCurrentVideo_run clock roomId w') as (w2 & Hget & _).
    rewrite Hget. cbn [fst]. f_equal. unfold current_read. rewrite Hcache.
    destruct (next_video timestamp roomId (db w)) as [row|] eqn:Hrow;
      cbn [option_map]; [reflexivity|].
    unfold select_current.
    replace (List.filter (fun v => String.eqb (qv_room_id v) roomId && qv_is_current v)
               (queue_videos (db w'))) with (@nil QueueVideo); [reflexivity|].
    symmetry. apply current_rows_nil. intros x Hx.
    rewrite Hdb, advance_store_queue, Hrow in Hx.
    apply mark_current_played_clears in Hx. exact Hx.
  - intros v Hroom. rewrite Hdb. apply advance_store_other_rooms; assumption.
  - rewrite Hdb. apply advance_store_votes.
Qed.

Lemma playNextVideo_effects_witness :
  exists result w',
    RoomService.playNextVideo Sample.clock 10 "r1" "alice" Sample.fresh = (Ok result, w')
    /\ room_current_id "r1" (db w') = RoomService.id_or_null result
    /\ fst (RoomService.getCurrentVideo Sample.clock "r1" w') = Ok result.
Proof.
  set (run := RoomService.playNextVideo Sample.clock 10 "r1" "alice" Sample.fresh).
  assert (Hrun : run = (fst run, snd run)) by (destruct run; reflexivity).
  assert (Hok : fst run = Ok (Some (as_current (with_username (Some "Alice")
                                                  (Sample.video "a" 1)))))
    by (vm_compute; reflexivity).
  rewrite Hok in Hrun.
  assert (Hpk : primary_key (db Sample.fresh)).
  { unfold primary_key. cbn. repeat constructor; cbn; intuition discriminate. }
  pose proof (playNextVideo_effects Sample.clock 10 "r1" "alice" Sample.fresh _ _
                Hpk Hrun) as (_ & _ & Hid & Hread & _).
  eexists. eexists. split; [exact Hrun|]. split; [exact Hid | exact Hread].
Defined.

(** * Submitting an item *)

Lemma length_zero_nil {A} (l : list A) : (0 <? Z.of_nat (length l)) = false -> l = [].
Proof.
  intros H. destruct l; [reflexivity|]. cbn [length] in H.
  apply Z.ltb_ge in H. lia.
Qed.

Lemma addVideoToQueue_inv clock getVideoInfo newId timestamp roomId userId url w video w' :
  RoomService.addVideoToQueue clock getVideoInfo newId timestamp roomId userId url w
    = (Ok video, w') ->
  exists videoId info,
    YouTubeService.extractVideoId url = YouTubeService.JsString videoId
    /\ videoId <> EmptyString
    /\ getVideoInfo videoId = Some info
    /\ RoomService.select_active_duplicate roomId videoId (db w) = []
    /\ existsb (fun v => String.eqb (qv_id v) newId) (queue_videos (db w)) = false
    /\ video = RoomService.new_queue_video newId timestamp roomId videoId info userId 0
    /\ db w' = set_queue_videos (queue_videos (db w) ++ [video]) (db w)
    /\ redis w' = RedisService.updateRoomQueue_pipeline roomId
                    (select_queue roomId (db w)) (clock (ticks w)) (redis w).
Proof.
  unfold RoomService.addVideoToQueue. run_monad.
  destruct (YouTubeService.extractVideoId url) as [videoId| |] eqn:Hid;
    try discriminate.
  destruct (YouTubeService.falsy _) eqn:Hfalsy; [discriminate|].
  destruct (getVideoInfo videoId) as [info|] eqn:Hinfo; [|discriminate].
  run_monad.
  destruct (0 <? Z.of_nat (length _)) eqn:Hdup; [discriminate|].
  cbn [qv_id RoomService.new_queue_video].
  destruct (existsb _ (queue_videos (db w))) eqn:E; run_monad; [discriminate|].
  intros [= <- <-]. simpl_world.
  exists videoId, info. split; [reflexivity|]. split.
  { intros ->. cbn in Hfalsy. discriminate. }
  split; [exact Hinfo|]. split; [apply length_zero_nil; exact Hdup|].
  split; [reflexivity|]. repeat split.
Qed.

Lemma addVideoToQueue_duplicate clock getVideoInfo newId timestamp roomId userId url w
    videoId info :
  YouTubeService.extractVideoId url = YouTubeService.JsString videoId ->
  videoId <> EmptyString ->
  getVideoInfo videoId = Some info ->
  RoomService.select_active_duplicate roomId videoId (db w) <> [] ->
  RoomService.addVideoToQueue clock getVideoInfo newId timestamp roomId userId url w
  = (Throw AlreadyInQueue, record StoreRead w).
Proof.
  intros Hid Hne Hinfo Hdup.
  unfold RoomService.addVideoToQueue. run_monad. rewrite Hid.
  replace (YouTubeService.falsy (YouTubeService.JsString videoId)) with false.
  2:{ symmetry. cbn. apply String.eqb_neq. exact Hne. }
  rewrite Hinfo. run_monad.
  destruct (RoomService.select_active_duplicate roomId videoId (db w)) as [|x l];
    [congruence|].
  reflexivity.
Qed.

Lemma addVideoToQueue_no_info clock getVideoInfo newId timestamp roomId userId url w
    videoId :
  YouTubeService.extractVideoId url = YouTubeService.JsString videoId ->
  videoId <> EmptyString ->
  getVideoInfo videoId = None ->
  exists w',
    RoomService.addVideoToQueue clock getVideoInfo newId timestamp roomId userId url w
    = (Throw NoVideoInfo, w')
    /\ db w' = db w /\ redis w' = redis w.
Proof.
  intros Hid Hne Hinfo.
  unfold RoomService.addVideoToQueue. run_monad. rewrite Hid.
  replace (YouTubeService.falsy (YouTubeService.JsString videoId)) with false.
  2:{ symmetry. cbn. apply String.eqb_neq. exact Hne. }
  rewrite Hinfo. eexists. split; [reflexivity|]. split; reflexivity.
Qed.

(** X9 (RoomService.addVideoToQueue): a submission that goes through
    appends one row for the video id found in the URL, in the room and
    under the name of the submitter, and touches nothing else in the
    store.  As long as that row is not played, submitting the same URL
    to the room again, by anyone, is refused and changes nothing: the
    call looks the video up again before it checks the queue, so it is
    refused as already in the queue when that lookup answers, and for
    want of video information when it does not. *)
Theorem addVideoToQueue_appends_once :
  forall clock getVideoInfo newId timestamp roomId userId url w video w',
    RoomService.addVideoToQueue clock getVideoInfo newId timestamp roomId userId url w
      = (Ok video, w') ->
    (exists videoId,
        YouTubeService.extractVideoId url = YouTubeService.JsString videoId
        /\ qv_youtube_video_id video = videoId)
    /\ qv_id video = newId /\ qv_room_id video = roomId /\ qv_added_by video = userId
    /\ queue_videos (db w') = (queue_videos (db w) ++ [video])%list
    /\ video_votes (db w') = video_votes (db w)
    /\ rooms (db w') = rooms (db w)
    /\ (forall clock' getVideoInfo' newId' timestamp' userId',
          exists e w'',
            RoomService.addVideoToQueue clock' getVideoInfo' newId' timestamp'
              roomId userId' url w' = (Throw e, w'')
            /\ db w'' = db w' /\ redis w'' = redis w'
            /\ (e = AlreadyInQueue
                <-> exists info, getVideoInfo' (qv_youtube_video_id video) = Some info)
            /\ (e = NoVideoInfo
                <-> getVideoInfo' (qv_youtube_video_id video) = None)).
Proof.
  intros clock getVideoInfo newId timestamp roomId userId url w video w' Hrun.
  destruct (addVideoToQueue_inv _ _ _ _ _ _ _ _ _ _ Hrun)
    as (videoId & info & Hid & Hne & Hinfo & Hdup & Hfresh & -> & Hdb & Hredis).
  split; [exists videoId; split; [exact Hid | reflexivity]|].
  split; [reflexivity|]. split; [reflexivity|]. split; [reflexivity|].
  rewrite Hdb. split; [reflexivity|]. split; [reflexivity|]. split; [reflexivity|].
  intros clock' getVideoInfo' newId' timestamp' userId'.
  cbn [qv_youtube_video_id RoomService.new_queue_video].
  destruct (getVideoInfo' videoId) as [info'|] eqn:Hinfo'.
  - exists AlreadyInQueue. eexists. split.
    + apply addVideoToQueue_duplicate with (videoId := videoId) (info := info');
        try assumption.
      rewrite Hdb. unfold RoomService.select_active_duplicate.
      cbn [queue_videos set_queue_videos]. rewrite List.filter_app, map_app.
      cbn. rewrite !String.eqb_refl. cbn. intros H.
      apply app_eq_nil in H. destruct H as [_ H]. discriminate.
    + split; [simpl_world; exact Hdb|]. split; [reflexivity|].
      split; split; try discriminate; intros _; [exists info'|]; reflexivity.
  - destruct (addVideoToQueue_no_info clock' getVideoInfo' newId' timestamp' roomId
                userId' url w' videoId Hid Hne Hinfo') as (w'' & Hagain & Hdb' & Hredis').
    exists NoVideoInfo, w''. split; [exact Hagain|].
    split; [rewrite Hdb'; exact Hdb|]. split; [exact Hredis'|].
    split; split; try discriminate; try reflexivity. intros [info' H]. discriminate.
Qed.

Lemma addVideoToQueue_appends_once_witness :
  exists video w1 w2 w3,
    RoomService.addVideoToQueue Sample.clock Sample.info "c" 3 "r1" "bob"
      "https://youtu.be/abcdefghijk" Sample.fresh = (Ok video, w1)
    /\ qv_youtube_video_id video = "abcdefghijk"
    /\ RoomService.addVideoToQueue Sample.clock Sample.info "d" 4 "r1" "alice"
         "https://youtu.be/abcdefghijk" w1 = (Throw AlreadyInQueue, w2)
    /\ RoomService.addVideoToQueue Sample.clock (fun _ => None) "d" 4 "r1" "alice"
         "https://youtu.be/abcdefghijk" w1 = (Throw NoVideoInfo, w3).
Proof.
  set (run := RoomService.addVideoToQueue Sample.clock Sample.info "c" 3 "r1" "bob"
                "https://youtu.be/abcdefghijk" Sample.fresh).
  assert (Hrun : run = (Ok (RoomService.new_queue_video "c" 3 "r1" "abcdefghijk"
                              (mkYouTubeVideoInfo "abcdefghijk" "YouTube Video" "thumb" 0)
                              "bob" 0), snd run))
    by (vm_compute; reflexivity).
  pose proof (addVideoToQueue_appends_once Sample.clock Sample.info "c" 3 "r1" "bob"
                "https://youtu.be/abcdefghijk" Sample.fresh _ _ Hrun)
    as (_ & _ & _ & _ & _ & _ & _ & Hagain).
  destruct (Hagain Sample.clock Sample.info "d" 4 "alice")
    as (e & w2 & Hsecond & _ & _ & [_ Hdup] & _).
  destruct (Hagain Sample.clock (fun _ => None) "d" 4 "alice")
    as (e' & w3 & Hthird & _ & _ & _ & [_ Hnone]).
  rewrite Hdup in Hsecond by (eexists; reflexivity).
  rewrite Hnone in Hthird by reflexivity.
  eexists. exists (snd run), w2, w3.
  split; [exact Hrun|]. split; [reflexivity|]. split; [exact Hsecond | exact Hthird].
Defined.

Lemma addVideoToQueue_refused :
  forall clock getVideoInfo newId timestamp roomId userId url w e w',
    RoomService.addVideoToQueue clock getVideoInfo newId timestamp roomId userId url w
      = (Throw e, w') ->
    db w' = db w /\ redis w' = redis w /\ ticks w' = ticks w
    /\ (e = InvalidUrl
        <-> YouTubeService.falsy (YouTubeService.extractVideoId url) = true)
    /\ (e = AlreadyInQueue ->
        exists videoId v,
          YouTubeService.extractVideoId url = YouTubeService.JsString videoId
          /\ In v (queue_videos (db w)) /\ qv_room_id v = roomId
          /\ qv_youtube_video_id v = videoId /\ qv_is_played v = false).
Proof.
  intros clock getVideoInfo newId timestamp roomId userId url w e w'.
  unfold RoomService.addVideoToQueue. run_monad.
  destruct (YouTubeService.extractVideoId url) as [videoId| |] eqn:Hid.
  2,3: cbn; intros [= <- <-]; repeat split; discriminate.
  destruct (YouTubeService.falsy _) eqn:Hfalsy.
  { intros [= <- <-]. repeat split. discriminate. }
  destruct (getVideoInfo videoId) as [info|] eqn:Hinfo.
  2:{ intros [= <- <-]. repeat split; discriminate. }
  run_monad.
  destruct (0 <? Z.of_nat (length _)) eqn:Hdup.
  { intros [= <- <-]. repeat split; try discriminate.
    intros _. unfold RoomService.select_active_duplicate in Hdup.
    destruct (List.filter _ (queue_videos (db w))) as [|v l] eqn:Hf;
      [cbn in Hdup; discriminate|].
    assert (Hv : In v (List.filter
                         (fun v => String.eqb (qv_room_id v) roomId
                                   && String.eqb (qv_youtube_video_id v) videoId
                                   && negb (qv_is_played v))
                         (queue_videos (db w)))) by (rewrite Hf; left; reflexivity).
    apply filter_In in Hv. destruct Hv as [Hv Hc].
    apply andb_true_iff in Hc. destruct Hc as [Hc Hp].
    apply andb_true_iff in Hc. destruct Hc as [Hr Hy].
    apply String.eqb_eq in Hr, Hy. apply negb_true_iff in Hp.
    exists videoId, v. repeat split; assumption. }
  cbn [qv_id RoomService.new_queue_video].
  destruct (existsb _ (queue_videos (db w))) eqn:E; run_monad; [|discriminate].
  intros [= <- <-]. repeat split; discriminate.
Qed.

(** X10 (RoomService.addVideoToQueue): a submission that is refused
    leaves the store and the cache as they were, the cursor included.
    It is refused as an invalid URL exactly when no video id is found in
    the URL, and as already in the queue only when an unplayed row of
    the room has the video id. *)
Theorem addVideoToQueue_refused_changes_nothing :
  forall clock getVideoInfo newId timestamp roomId userId url w e w',
    RoomService.addVideoToQueue clock getVideoInfo newId timestamp roomId userId url w
      = (Throw e, w') ->
    db w' = db w /\ redis w' = redis w /\ ticks w' = ticks w
    /\ (e = InvalidUrl
        <-> YouTubeService.falsy (YouTubeService.extractVideoId url) = true)
    /\ (e = AlreadyInQueue ->
        exists videoId v,
          YouTubeService.extractVideoId url = YouTubeService.JsString videoId
          /\ In v (queue_videos (db w)) /\ qv_room_id v = roomId
          /\ qv_youtube_video_id v = videoId /\ qv_is_played v = false).
Proof. exact addVideoToQueue_refused. Qed.

Lemma addVideoToQueue_refused_changes_nothing_witness :
  exists w',
    RoomService.addVideoToQueue Sample.clock Sample.info "c" 3 "r1" "bob"
      "https://example.com/video" Sample.fresh = (Throw InvalidUrl, w')
    /\ db w' = db Sample.fresh /\ redis w' = redis Sample.fresh.
Proof.
  set (run := RoomService.addVideoToQueue Sample.clock Sample.info "c" 3 "r1" "bob"
                "https://example.com/video" Sample.fresh).
  assert (Hrun : run = (Throw InvalidUrl, snd run)) by (vm_compute; reflexivity).
  pose proof (addVideoToQueue_refused_changes_nothing Sample.clock Sample.info "c" 3
                "r1" "bob" "https://example.com/video" Sample.fresh _ _ Hrun)
    as (Hdb & Hredis & _).
  exists (snd run). split; [exact Hrun|]. split; [exact Hdb | exact Hredis].
Defined.

(** * What the cache holds after a mutation *)

Lemma record_set_not_nil e l : RedisService.record_set e l <> [].
Proof.
  destruct l as [|x l]; cbn; [discriminate|].
  destruct (String.eqb (z_member x) (z_member e)); discriminate.
Qed.

Lemma videoData_fold_not_nil videos acc :
  acc <> [] ->
  fold_left (fun acc video =>
               RedisService.record_set
                 (mkZEntry (JSON_stringify video) video (qv_net_votes video)) acc)
            videos acc <> [].
Proof.
  revert acc. induction videos as [|v videos IH]; intros acc Hacc; cbn; [exact Hacc|].
  apply IH. apply record_set_not_nil.
Qed.

Lemma videoData_not_nil videos : videos <> [] -> RedisService.videoData videos <> [].
Proof.
  destruct videos as [|v videos]; [congruence|]. intros _.
  unfold RedisService.videoData. cbn [fold_left].
  apply videoData_fold_not_nil. apply record_set_not_nil.
Qed.

Lemma zRange_REV_not_nil entries : entries <> [] -> RedisService.zRange_REV entries <> [].
Proof.
  intros Hne H. unfold RedisService.zRange_REV in H.
  apply (f_equal (@rev ZEntry)) in H. rewrite rev_involutive in H. cbn in H.
  apply sort_by_nil in H. contradiction.
Qed.

Lemma updateRoomQueue_pipeline_room_queue_only roomId videos now r r' :
  room_queue r = room_queue r' ->
  room_queue (RedisService.updateRoomQueue_pipeline roomId videos now r)
  = room_queue (RedisService.updateRoomQueue_pipeline roomId videos now r').
Proof.
  intros H. unfold RedisService.updateRoomQueue_pipeline.
  destruct (0 <? Z.of_nat (length videos)); cbn; rewrite H; reflexivity.
Qed.

Lemma updateVideoVote_pipeline_room_queue roomId videoId userId oldVote newVote now r :
  room_queue (RedisService.updateVideoVote_pipeline roomId videoId userId
                oldVote newVote now r) = room_queue r.
Proof.
  unfold RedisService.updateVideoVote_pipeline.
  destruct (newVote =? 0); destruct oldVote as [old|];
    try destruct (old =? 1); cbn [negb]; try destruct (newVote =? 1); reflexivity.
Qed.

(** The queue an advance leaves in the cache is the one of the committed
    rows, read before the advance commits. *)
Lemma playNextVideo_room_queue clock timestamp roomId adminId w :
  is_admin roomId adminId (db w) ->
  room_queue (redis (snd (RoomService.playNextVideo clock timestamp roomId adminId w)))
  = room_queue (RedisService.updateRoomQueue_pipeline roomId
                  (select_queue roomId (db w)) (clock (S (ticks w))) (redis w)).
Proof.
  intros (r & Hr & Ha). unfold RoomService.playNextVideo.
  run_monad. rewrite Hr. apply String.eqb_eq in Ha. rewrite Ha.
  cbv beta iota delta [negb].
  destruct (select_queue roomId (mark_current_played roomId timestamp (db w)))
    as [|row rest]; run_monad; cbn [take head option_map]; run_monad;
    cbn [snd]; simpl_world;
    apply updateRoomQueue_pipeline_room_queue_only; reflexivity.
Qed.

(** After a mutation that went through, the cached queue of the room it
    refreshes is the image of the store's queue as it was before. *)
Lemma perform_room_queue clock m w w' roomId :
  perform clock m w = (Ok tt, w') ->
  refreshes m w roomId ->
  select_queue roomId (db w) <> [] ->
  room_queue (redis w') !! roomId
  = Some (RedisService.videoData (select_queue roomId (db w))).
Proof.
  intros Hrun Href Hne. destruct m; cbn [perform refreshes] in Hrun, Href.
  - apply forget_ok in Hrun. destruct Hrun as (r & Hrun).
    destruct (voteVideo_ok_fault _ _ _ _ _ _ _ _ Hrun) as [-> _].
    destruct Href as (video & rest & Hsel & ->).
    destruct (voteVideo_run clock userId videoId voteType w video rest Hsel)
      as (w1 & Hrun1 & _ & Hredis & _).
    rewrite Hrun1 in Hrun. inversion Hrun; subst w1.
    rewrite Hredis. apply updateRoomQueue_pipeline_room_queue. exact Hne.
  - apply forget_ok in Hrun. destruct Hrun as (r & Hrun). subst roomId0.
    destruct (addVideoToQueue_inv _ _ _ _ _ _ _ _ _ _ Hrun)
      as (videoId & info & _ & _ & _ & _ & _ & _ & _ & Hredis).
    rewrite Hredis. apply updateRoomQueue_pipeline_room_queue. exact Hne.
  - apply forget_ok in Hrun. destruct Hrun as (r & Hrun). subst roomId0.
    destruct (playNextVideo_outcome clock timestamp roomId adminId w)
      as [[Hadmin _]|[_ Hthrow]]; [|rewrite Hthrow in Hrun; discriminate].
    pose proof (playNextVideo_room_queue clock timestamp roomId adminId w Hadmin) as Hq.
    rewrite Hrun in Hq. cbn [snd] in Hq. rewrite Hq.
    apply updateRoomQueue_pipeline_room_queue. exact Hne.
  - destruct Href.
Qed.

(** X11 (RoomService.syncQueueToRedis, as called by voteVideo,
    addVideoToQueue and playNextVideo; RoomService.getRoomQueue): the
    refresh of the cached queue runs on a connection of its own before
    the mutation commits, so the queue read after a mutation that went
    through is served from the cache and holds rows of the store's queue
    as it was before the mutation. *)
Theorem refreshed_queue_is_the_one_before :
  forall clock m w w' roomId,
    perform clock m w = (Ok tt, w') ->
    refreshes m w roomId ->
    select_queue roomId (db w) <> [] ->
    exists queue,
      RoomService.getRoomQueue clock roomId w' = (Ok queue, record CacheRead w')
      /\ queue <> []
      /\ (forall v, In v queue -> In v (select_queue roomId (db w))).
Proof.
  intros clock m w w' roomId Hrun Href Hne.
  pose proof (perform_room_queue clock m w w' roomId Hrun Href Hne) as Hq.
  unfold RoomService.getRoomQueue. run_monad. rewrite Hq. cbn [default from_option id].
  set (entries := RedisService.videoData (select_queue roomId (db w))).
  assert (Hentries : RedisService.zRange_REV entries <> []).
  { apply zRange_REV_not_nil. apply videoData_not_nil. exact Hne. }
  destruct (RedisService.zRange_REV entries) as [|e rest] eqn:Hz; [congruence|].
  replace (0 <? Z.of_nat (length (map z_video (e :: rest)))) with true
    by (symmetry; apply Z.ltb_lt; cbn; lia).
  eexists. split; [reflexivity|]. split; [discriminate|].
  intros v Hv. apply in_map_iff in Hv. destruct Hv as (x & <- & Hx).
  rewrite <- Hz in Hx. unfold RedisService.zRange_REV in Hx.
  apply in_rev in Hx. apply In_sort_by in Hx. apply In_videoData in Hx.
  destruct Hx as (v & Hv & ->). exact Hv.
Qed.

Lemma refreshed_queue_is_the_one_before_witness :
  exists w' queue,
    perform Sample.clock (Vote None "bob" "a" 1) Sample.fresh = (Ok tt, w')
    /\ option_map qv_net_votes (item_row "a" (db w')) = Some 1
    /\ RoomService.getRoomQueue Sample.clock "r1" w' = (Ok queue, record CacheRead w')
    /\ (forall v, In v queue -> qv_net_votes v = 0).
Proof.
  set (w' := snd (perform Sample.clock (Vote None "bob" "a" 1) Sample.fresh)).
  assert (Hrun : perform Sample.clock (Vote None "bob" "a" 1) Sample.fresh = (Ok tt, w'))
    by (vm_compute; reflexivity).
  assert (Href : refreshes (Vote None "bob" "a" 1) Sample.fresh "r1").
  { exists (Sample.video "a" 1), []. split; vm_compute; reflexivity. }
  assert (Hne : select_queue "r1" (db Sample.fresh) <> []) by (vm_compute; discriminate).
  destruct (refreshed_queue_is_the_one_before Sample.clock _ _ _ _ Hrun Href Hne)
    as (queue & Hread & _ & Hold).
  exists w', queue. split; [exact Hrun|].
  split; [vm_compute; reflexivity|]. split; [exact Hread|].
  intros v Hv. apply Hold in Hv. vm_compute in Hv.
  destruct Hv as [<-|[<-|[]]]; reflexivity.
Defined.

(** * Closing a room *)

Lemma closeRoom_unauthorized roomId adminId w :
  ~ is_admin roomId adminId (db w) ->
  RoomService.closeRoom roomId adminId w = (Throw Unauthorized, record StoreRead w).
Proof.
  intros Hno. unfold RoomService.closeRoom. run_monad.
  destruct (rooms (db w) !! roomId) as [r|] eqn:Hr; [|reflexivity].
  destruct (String.eqb (r_admin_id r) adminId) eqn:Ha; [|reflexivity].
  exfalso. apply Hno. exists r. split; [exact Hr|]. apply String.eqb_eq. exact Ha.
Qed.

Lemma closeRoom_run roomId adminId w :
  is_admin roomId adminId (db w) ->
  exists w',
    RoomService.closeRoom roomId adminId w = (Ok tt, w')
    /\ db w' = set_rooms
                 (alter (fun r => {| r_admin_id := r_admin_id r; r_is_active := false;
                                     r_current_video_id := r_current_video_id r |})
                    roomId (rooms (db w))) (db w)
    /\ redis w' = redis (snd (RedisService.clearRoomData roomId w))
    /\ ticks w' = ticks w.
Proof.
  intros (r & Hr & Ha). unfold RoomService.closeRoom. run_monad.
  rewrite Hr. apply String.eqb_eq in Ha. rewrite Ha. cbv beta iota delta [negb].
  eexists. repeat split; reflexivity.
Qed.

Lemma select_votable_rooms videoId d d' :
  queue_videos d' = queue_videos d ->
  (forall k, has_key (rooms d') k = has_key (rooms d) k) ->
  select_votable videoId d' = select_votable videoId d.
Proof.
  intros Hq Hk. unfold select_votable. rewrite Hq.
  apply List.filter_ext. intros v. rewrite Hk. reflexivity.
Qed.

(** X12 (RoomService.closeRoom): only the administrator of the room can
    close it, and a refused call changes nothing.  Closing marks the
    room inactive, keeps its rows, its votes and the other rooms, and
    drops the room's cache, so that the cursor reads 0 and the queue is
    read from the store again.  Items of the closed room stay votable:
    a vote on any of them still goes through. *)
Theorem closeRoom_effects :
  forall roomId adminId w,
    (~ is_admin roomId adminId (db w) ->
     exists w', RoomService.closeRoom roomId adminId w = (Throw Unauthorized, w')
                /\ db w' = db w /\ redis w' = redis w)
    /\ (is_admin roomId adminId (db w) ->
        exists w',
          RoomService.closeRoom roomId adminId w = (Ok tt, w')
          /\ (exists r, rooms (db w') !! roomId = Some r
                        /\ r_is_active r = false /\ r_admin_id r = adminId)
          /\ (forall roomId', roomId' <> roomId ->
                rooms (db w') !! roomId' = rooms (db w) !! roomId')
          /\ queue_videos (db w') = queue_videos (db w)
          /\ video_votes (db w') = video_votes (db w)
          /\ cursor roomId w' = 0
          /\ queue_read roomId w' = select_queue roomId (db w)
          /\ user_votes (redis w') = user_votes (redis w)
          /\ (forall clock userId videoId voteType video rest,
                select_votable videoId (db w) = video :: rest ->
                exists r w'',
                  RoomService.voteVideo clock None userId videoId voteType w'
                  = (Ok r, w''))).
Proof.
  intros roomId adminId w. split.
  - intros Hno. eexists. split; [apply closeRoom_unauthorized; exact Hno|].
    split; reflexivity.
  - intros Hadmin.
    destruct (closeRoom_run roomId adminId w Hadmin) as (w' & Hrun & Hdb & Hredis & _).
    exists w'. split; [exact Hrun|].
    destruct Hadmin as (r & Hr & Ha).
    split; [|split; [|split; [|split; [|split; [|split; [|split]]]]]].
    + rewrite Hdb. cbn [rooms set_rooms]. rewrite lookup_alter_eq, Hr.
      eexists. split; [reflexivity|]. split; [reflexivity | exact Ha].
    + intros roomId' Hne. rewrite Hdb. cbn [rooms set_rooms].
      apply lookup_alter_ne. congruence.
    + rewrite Hdb. reflexivity.
    + rewrite Hdb. reflexivity.
    + unfold cursor. rewrite Hredis. run_monad. cbn [snd]. simpl_world.
      cbn [last_update]. rewrite lookup_delete_eq. reflexivity.
    + unfold queue_read. rewrite Hredis. run_monad. cbn [snd]. simpl_world.
      cbn [room_queue]. rewrite lookup_delete_eq. cbn.
      rewrite Hdb. apply select_queue_ext; reflexivity.
    + rewrite Hredis. reflexivity.
    + intros clock userId videoId voteType video rest Hsel.
      assert (Hsel' : select_votable videoId (db w') = video :: rest).
      { rewrite <- Hsel. apply select_votable_rooms.
        - rewrite Hdb. reflexivity.
        - intros k. rewrite Hdb. cbn [rooms set_rooms]. unfold has_key.
          destruct (decide (k = roomId)) as [->|Hne].
          + rewrite lookup_alter_eq, Hr. reflexivity.
          + rewrite lookup_alter_ne by congruence. reflexivity. }
      destruct (voteVideo_run clock userId videoId voteType w' video rest Hsel')
        as (w'' & Hvote & _).
      eexists. exists w''. exact Hvote.
Qed.

(** * The vote index after a vote *)

Lemma user_vote_after_vote clock fault userId videoId voteType w r w' :
  RoomService.voteVideo clock fault userId videoId voteType w = (Ok r, w') ->
  user_vote userId videoId w' = recorded_vote userId videoId (db w')
  /\ recorded_vote userId videoId (db w')
     = (if snd (RoomService.vote_changes
                  (recorded_vote userId videoId (db w)) voteType) =? 0
        then None
        else Some (snd (RoomService.vote_changes
                          (recorded_vote userId videoId (db w)) voteType))).
Proof.
  intros Hrun.
  destruct (voteVideo_ok_fault _ _ _ _ _ _ _ _ Hrun) as [-> Hne].
  destruct (select_votable videoId (db w)) as [|video rest] eqn:Hsel; [congruence|].
  destruct (voteVideo_run clock userId videoId voteType w video rest Hsel)
    as (w1 & Hrun1 & Hdb & Hredis & _).
  rewrite Hrun1 in Hrun. inversion Hrun; subst w1. clear Hrun.
  assert (Hrec : recorded_vote userId videoId (db w')
                 = (if snd (RoomService.vote_changes
                              (recorded_vote userId videoId (db w)) voteType) =? 0
                    then None
                    else Some (snd (RoomService.vote_changes
                                      (recorded_vote userId videoId (db w)) voteType)))).
  { rewrite Hdb. apply recorded_vote_apply_vote. }
  split; [|exact Hrec].
  unfold user_vote.
  rewrite Hredis, updateRoomQueue_pipeline_user_votes,
    updateVideoVote_pipeline_user_votes.
  fold (recorded_vote userId videoId (db w')). rewrite Hrec.
  destruct (snd (RoomService.vote_changes (recorded_vote userId videoId (db w))
                   voteType) =? 0).
  - rewrite hGet_hDel_eq. reflexivity.
  - rewrite hGet_hSet_eq. reflexivity.
Qed.

(** X13 (RoomService.voteVideo, RoomService.getUserVote): after a vote
    that went through, the vote read back for the voter and the item,
    cache index first, is the vote the store has on record: the vote
    cast, or none when the vote was withdrawn. *)
Theorem getUserVote_after_vote :
  forall clock fault userId videoId voteType w r w',
    RoomService.voteVideo clock fault userId videoId voteType w = (Ok r, w') ->
    fst (RoomService.getUserVote userId videoId w')
    = Ok (recorded_vote userId videoId (db w'))
    /\ recorded_vote userId videoId (db w')
       = (if snd (RoomService.vote_changes
                    (recorded_vote userId videoId (db w)) voteType) =? 0
          then None
          else Some (snd (RoomService.vote_changes
                            (recorded_vote userId videoId (db w)) voteType))).
Proof.
  intros clock fault userId videoId voteType w r w' Hrun.
  destruct (user_vote_after_vote _ _ _ _ _ _ _ _ Hrun) as [Hvote Hrec].
  split; [|exact Hrec].
  destruct (getUserVote_run userId videoId w') as (w2 & Hget & _).
  rewrite Hget. cbn [fst]. rewrite Hvote. reflexivity.
Qed.

Lemma getUserVote_after_vote_witness :
  exists r w',
    RoomService.voteVideo Sample.clock None "bob" "a" (-1) Sample.downvoted = (Ok r, w')
    /\ fst (RoomService.getUserVote "bob" "a" w') = Ok None.
Proof.
  set (run := RoomService.voteVideo Sample.clock None "bob" "a" (-1) Sample.downvoted).
  assert (Hrun : run = (fst run, snd run)) by (destruct run; reflexivity).
  assert (Hok : fst run = Ok (Some (Sample.video "a" 1))) by (vm_compute; reflexivity).
  rewrite Hok in Hrun.
  pose proof (getUserVote_after_vote Sample.clock None "bob" "a" (-1) Sample.downvoted
                _ _ Hrun) as (Hget & Hrec).
  eexists. exists (snd run). split; [exact Hrun|].
  rewrite Hget, Hrec. vm_compute. reflexivity.
Defined.

(** * Counters and the vote table *)

Lemma tally_cons t' v' r l :
  tally t' v' (r :: l) = tally t' v' [r] + tally t' v' l.
Proof.
  unfold tally. cbn [List.filter].
  destruct (String.eqb (vv_video_id r) v' && (vv_vote_type r =? t')); cbn [length]; lia.
Qed.

Lemma tally_app t' v' l l' :
  tally t' v' (l ++ l') = tally t' v' l + tally t' v' l'.
Proof.
  unfold tally. rewrite List.filter_app, length_app. lia.
Qed.

Lemma tally_single t' v' videoId userId t :
  tally t' v' [mkVideoVote videoId userId t]
  = if String.eqb videoId v' && (t =? t') then 1 else 0.
Proof.
  unfold tally. cbn [List.filter vv_video_id vv_vote_type].
  destruct (String.eqb videoId v' && (t =? t')); reflexivity.
Qed.

Lemma tally_same_key t' v' videoId userId r :
  vote_matches videoId userId r = true ->
  tally t' v' [r] = tally t' v' [mkVideoVote videoId userId (vv_vote_type r)].
Proof.
  intros Hm. apply vote_matches_spec in Hm. destruct Hm as [Hv Hu].
  unfold tally. cbn [List.filter vv_video_id vv_vote_type]. rewrite Hv.
  destruct (String.eqb videoId v' && (vv_vote_type r =? t')); reflexivity.
Qed.

Lemma no_match_delete (p : VideoVote -> bool) l :
  List.filter p l = [] -> List.filter (fun r => negb (p r)) l = l.
Proof.
  induction l as [|r l IH]; cbn; [reflexivity|].
  destruct (p r); cbn; [discriminate|]. intros H. rewrite IH by exact H.
  reflexivity.
Qed.

Lemma no_match_replace (p : VideoVote -> bool) (row : VideoVote) l :
  List.filter p l = [] -> map (fun r => if p r then row else r) l = l.
Proof.
  induction l as [|r l IH]; cbn; [reflexivity|].
  destruct (p r); cbn; [discriminate|]. intros H. rewrite IH by exact H.
  reflexivity.
Qed.

Lemma length_le_1_tail {A} (x : A) l : (length (x :: l) <= 1)%nat -> l = [].
Proof. destruct l; cbn; [reflexivity | lia]. Qed.

(** Deleting the one vote of the pair lowers the tally of its type. *)
Lemma tally_delete videoId userId t' v' old l :
  (length (List.filter (vote_matches videoId userId) l) <= 1)%nat ->
  head (map vv_vote_type (List.filter (vote_matches videoId userId) l)) = Some old ->
  tally t' v' (List.filter (fun r => negb (vote_matches videoId userId r)) l)
  = tally t' v' l - tally t' v' [mkVideoVote videoId userId old].
Proof.
  induction l as [|r l IH]; cbn [List.filter]; [discriminate|].
  destruct (vote_matches videoId userId r) eqn:Hm; cbn [negb map head].
  - intros Hlen Hhead. apply length_le_1_tail in Hlen.
    rewrite no_match_delete by exact Hlen. rewrite (tally_cons _ _ r).
    rewrite (tally_same_key _ _ _ _ _ Hm). inversion Hhead. lia.
  - intros Hlen Hhead.
    rewrite (tally_cons _ _ r), (tally_cons _ _ r l), IH by assumption. lia.
Qed.

(** Rewriting the one vote of the pair moves it from the tally of the
    old type to the tally of the new one. *)
Lemma tally_replace videoId userId t' v' old new l :
  (length (List.filter (vote_matches videoId userId) l) <= 1)%nat ->
  head (map vv_vote_type (List.filter (vote_matches videoId userId) l)) = Some old ->
  tally t' v' (map (fun r => if vote_matches videoId userId r
                             then mkVideoVote videoId userId new else r) l)
  = tally t' v' l - tally t' v' [mkVideoVote videoId userId old]
    + tally t' v' [mkVideoVote videoId userId new].
Proof.
  induction l as [|r l IH]; cbn [List.filter map]; [discriminate|].
  destruct (vote_matches videoId userId r) eqn:Hm; cbn [map head].
  - intros Hlen Hhead. apply length_le_1_tail in Hlen.
    rewrite no_match_replace by exact Hlen.
    rewrite (tally_cons _ _ (mkVideoVote videoId userId new)), (tally_cons _ _ r l).
    rewrite (tally_same_key _ _ _ _ _ Hm). inversion Hhead. lia.
  - intros Hlen Hhead.
    rewrite (tally_cons _ _ r), (tally_cons _ _ r l), IH by assumption. lia.
Qed.

Lemma existsb_filter_nil {A} (p : A -> bool) l : List.filter p l = [] -> existsb p l = false.
Proof.
  induction l as [|x l IH]; cbn; [reflexivity|].
  destruct (p x); [discriminate|]. exact IH.
Qed.

Lemma filter_not_nil_existsb {A} (p : A -> bool) l :
  List.filter p l <> [] -> existsb p l = true.
Proof.
  induction l as [|x l IH]; cbn; [congruence|].
  destruct (p x); [reflexivity|]. exact IH.
Qed.

Lemma recorded_vote_valid userId videoId d old :
  vote_types_valid d -> recorded_vote userId videoId d = Some old ->
  old = 1 \/ old = -1.
Proof.
  unfold recorded_vote, select_vote. intros Hvalid Hhead.
  destruct (List.filter (vote_matches videoId userId) (video_votes d))
    as [|r l] eqn:Hf; [discriminate|].
  cbn in Hhead. inversion Hhead; subst old. apply Hvalid.
  assert (Hin : In r (List.filter (vote_matches videoId userId) (video_votes d)))
    by (rewrite Hf; left; reflexivity).
  apply filter_In in Hin. tauto.
Qed.

Ltac compute_vote_changes :=
  match goal with
  | |- context [RoomService.vote_changes ?o ?t] =>
      let r := eval vm_compute in (RoomService.vote_changes o t) in
      change (RoomService.vote_changes o t) with r
  end.

(** The vote table after a vote, against the one before. *)
Lemma tally_apply_vote userId videoId t' v' voteType d :
  t' = 1 \/ t' = -1 ->
  voteType = 1 \/ voteType = -1 ->
  votes_unique d -> vote_types_valid d ->
  tally t' v' (video_votes (apply_vote userId videoId voteType d))
  = tally t' v' (video_votes d)
    + (if String.eqb videoId v'
       then (if t' =? 1
             then fst (fst (RoomService.vote_changes
                              (recorded_vote userId videoId d) voteType))
             else snd (fst (RoomService.vote_changes
                              (recorded_vote userId videoId d) voteType)))
       else 0).
Proof.
  intros Ht Hvt Hunique Hvalid.
  pose proof (Hunique videoId userId) as Hlen.
  pose proof (recorded_vote_valid userId videoId d) as Hold.
  unfold apply_vote. fold (recorded_vote userId videoId d).
  destruct (recorded_vote userId videoId d) as [old|] eqn:Hrec.
  - specialize (Hold old Hvalid eq_refl).
    unfold recorded_vote, select_vote in Hrec.
    assert (Hex : existsb (vote_matches videoId userId) (video_votes d) = true).
    { apply filter_not_nil_existsb. intros Hnil. rewrite Hnil in Hrec. discriminate. }
    destruct Hold as [-> | ->]; destruct Hvt as [-> | ->]; destruct Ht as [-> | ->];
      repeat compute_vote_changes;
      cbn [fst snd Z.eqb Pos.eqb video_votes update_vote_counts delete_vote upsert_vote
             set_video_votes set_queue_videos];
      rewrite ?Hex;
      first [ rewrite (tally_delete videoId userId _ _ _ _ Hlen Hrec)
            | rewrite (tally_replace videoId userId _ _ _ _ _ Hlen Hrec) ];
      rewrite ?tally_single;
      destruct (String.eqb videoId v'); cbn [andb Z.eqb Pos.eqb]; lia.
  - unfold recorded_vote, select_vote in Hrec.
    assert (Hnil : List.filter (vote_matches videoId userId) (video_votes d) = []).
    { destruct (List.filter (vote_matches videoId userId) (video_votes d));
        [reflexivity | discriminate]. }
    destruct Hvt as [-> | ->]; destruct Ht as [-> | ->];
      repeat compute_vote_changes;
      cbn [fst snd Z.eqb Pos.eqb video_votes update_vote_counts delete_vote upsert_vote
             set_video_votes set_queue_videos];
      rewrite (existsb_filter_nil _ _ Hnil), tally_app, tally_single;
      destruct (String.eqb videoId v'); cbn [andb Z.eqb Pos.eqb]; lia.
Qed.

Lemma apply_vote_queue_exact userId videoId voteType d :
  queue_videos (apply_vote userId videoId voteType d)
  = update_where (fun v => String.eqb (qv_id v) videoId)
      (fun v =>
         with_votes
           (qv_upvotes v
            + fst (fst (RoomService.vote_changes
                          (recorded_vote userId videoId d) voteType)))
           (qv_downvotes v
            + snd (fst (RoomService.vote_changes
                          (recorded_vote userId videoId d) voteType)))
           (qv_upvotes v
            + fst (fst (RoomService.vote_changes
                          (recorded_vote userId videoId d) voteType))
            - (qv_downvotes v
               + snd (fst (RoomService.vote_changes
                             (recorded_vote userId videoId d) voteType)))) v)
      (queue_videos d).
Proof.
  unfold apply_vote. fold (recorded_vote userId videoId d).
  destruct (RoomService.vote_changes (recorded_vote userId videoId d) voteType)
    as [[du dd] final].
  destruct (final =? 0); reflexivity.
Qed.

Lemma vote_changes_final old voteType :
  snd (RoomService.vote_changes old voteType) = 0
  \/ snd (RoomService.vote_changes old voteType) = voteType.
Proof.
  unfold RoomService.vote_changes. destruct old as [old|].
  - destruct (old =? voteType); cbn [negb].
    + destruct (old =? 1); left; reflexivity.
    + destruct (voteType =? 1); right; reflexivity.
  - destruct (voteType =? 1); right; reflexivity.
Qed.

Lemma apply_vote_types_valid userId videoId voteType d :
  voteType = 1 \/ voteType = -1 ->
  vote_types_valid d -> vote_types_valid (apply_vote userId videoId voteType d).
Proof.
  intros Hvt Hvalid r Hr. unfold apply_vote in Hr.
  fold (recorded_vote userId videoId d) in Hr.
  pose proof (vote_changes_final (recorded_vote userId videoId d) voteType) as Hfinal.
  destruct (RoomService.vote_changes (recorded_vote userId videoId d) voteType)
    as [[du dd] final].
  cbn [snd] in Hfinal.
  destruct (final =? 0) eqn:Hz;
    cbn [video_votes update_vote_counts delete_vote upsert_vote set_video_votes
           set_queue_videos] in Hr.
  - apply filter_In in Hr. apply Hvalid. tauto.
  - apply Z.eqb_neq in Hz. destruct Hfinal as [->| ->]; [congruence|].
    destruct (existsb (vote_matches videoId userId) (video_votes d)).
    + apply in_map_iff in Hr. destruct Hr as (x & Hx & Hin).
      destruct (vote_matches videoId userId x); subst r; [exact Hvt | apply Hvalid; exact Hin].
    + apply in_app_iff in Hr. destruct Hr as [Hr|[<-|[]]]; [apply Hvalid; exact Hr|].
      exact Hvt.
Qed.

Lemma apply_vote_tallied userId videoId voteType d :
  voteType = 1 \/ voteType = -1 ->
  votes_unique d -> vote_types_valid d -> counters_tallied d ->
  counters_tallied (apply_vote userId videoId voteType d).
Proof.
  intros Hvt Hunique Hvalid Htallied row Hrow.
  rewrite apply_vote_queue_exact in Hrow.
  apply update_where_In in Hrow.
  rewrite !(tally_apply_vote userId videoId) by (auto; lia).
  destruct Hrow as (x & Hx & [[Hc ->]|[Hc ->]]); destruct (Htallied x Hx) as [Hup Hdown].
  - apply String.eqb_eq in Hc. cbn [qv_id qv_upvotes qv_downvotes with_votes].
    rewrite Hc, String.eqb_refl. cbn [Z.eqb Pos.eqb]. rewrite <- Hc. lia.
  - rewrite String.eqb_sym, Hc. lia.
Qed.

Lemma tally_nonneg t v l : 0 <= tally t v l.
Proof. unfold tally. lia. Qed.

Lemma voteVideo_tallied clock fault userId videoId voteType w :
  voteType = 1 \/ voteType = -1 ->
  votes_unique (db w) -> vote_types_valid (db w) -> counters_tallied (db w) ->
  votes_unique (db (snd (RoomService.voteVideo clock fault userId videoId voteType w)))
  /\ vote_types_valid
       (db (snd (RoomService.voteVideo clock fault userId videoId voteType w)))
  /\ counters_tallied
       (db (snd (RoomService.voteVideo clock fault userId videoId voteType w))).
Proof.
  intros Hvt Hunique Hvalid Htallied.
  destruct (voteVideo_db clock fault userId videoId voteType w) as [->|[_ ->]].
  - auto.
  - split; [apply votes_unique_apply_vote; exact Hunique|].
    split; [apply apply_vote_types_valid; assumption|].
    apply apply_vote_tallied; assumption.
Qed.

(** X14 (RoomService.voteVideo): if the counters of every item are the
    numbers of upvotes and downvotes the vote table holds for it, with
    one vote per voter and item, they still are after any run of votes
    of type 1 or -1, failed calls included; so no counter is ever
    negative. *)
Theorem counters_match_the_vote_table :
  forall clock calls w,
    valid_calls calls ->
    votes_unique (db w) -> vote_types_valid (db w) -> counters_tallied (db w) ->
    counters_tallied (db (vote_all clock calls w))
    /\ votes_unique (db (vote_all clock calls w))
    /\ vote_types_valid (db (vote_all clock calls w))
    /\ (forall row, In row (queue_videos (db (vote_all clock calls w))) ->
                    0 <= qv_upvotes row /\ 0 <= qv_downvotes row).
Proof.
  intros clock calls. induction calls as [|[[[fault userId] videoId] voteType] calls IH];
    intros w Hcalls Hunique Hvalid Htallied.
  - cbn [vote_all]. split; [exact Htallied|]. split; [exact Hunique|].
    split; [exact Hvalid|]. intros row Hrow.
    destruct (Htallied row Hrow) as [-> ->]. split; apply tally_nonneg.
  - cbn [vote_all]. inversion Hcalls as [|call calls' Hcall Hrest]; subst.
    cbn [snd] in Hcall.
    destruct (voteVideo_tallied clock fault userId videoId voteType w Hcall
                Hunique Hvalid Htallied) as (Hu & Hv & Ht).
    apply IH; assumption.
Qed.

Lemma counters_match_the_vote_table_witness :
  counters_tallied
    (db (vote_all Sample.clock
           [ (None, "bob", "a", 1); (None, "alice", "a", -1);
             (Some RoomService.StepCommit, "alice", "b", 1);
             (None, "bob", "a", -1); (None, "bob", "b", 1) ]
           Sample.fresh)).
Proof.
  apply (counters_match_the_vote_table Sample.clock
           [ (None, "bob", "a", 1); (None, "alice", "a", -1);
             (Some RoomService.StepCommit, "alice", "b", 1);
             (None, "bob", "a", -1); (None, "bob", "b", 1) ]
           Sample.fresh).
  - repeat constructor; cbn; lia.
  - intros videoId userId. cbn. lia.
  - intros r [].
  - intros row [<-|[<-|[]]]; split; reflexivity.
Defined.

(** * Reading the queue *)

Lemma getRoomQueue_hit clock roomId w cached :
  fst (RedisService.getRoomQueue roomId w) = Ok cached ->
  cached <> [] ->
  RoomService.getRoomQueue clock roomId w = (Ok cached, record CacheRead w).
Proof.
  unfold RoomService.getRoomQueue. run_monad. cbn [fst]. intros [= <-] Hne.
  destruct (map z_video _) as [|v l]; [congruence|].
  replace (0 <? Z.of_nat (length (v :: l))) with true
    by (symmetry; apply Z.ltb_lt; cbn; lia).
  reflexivity.
Qed.

Lemma getRoomQueue_miss clock roomId w :
  fst (RedisService.getRoomQueue roomId w) = Ok [] ->
  exists w',
    RoomService.getRoomQueue clock roomId w = (Ok (select_queue roomId (db w)), w')
    /\ db w' = db w
    /\ redis w' = (match select_queue roomId (db w) with
                   | [] => redis w
                   | videos => RedisService.updateRoomQueue_pipeline roomId videos
                                 (clock (ticks w)) (redis w)
                   end)
    /\ ticks w' = (match select_queue roomId (db w) with
                   | [] => ticks w
                   | _ => S (ticks w)
                   end).
Proof.
  unfold RoomService.getRoomQueue. run_monad. cbn [fst]. intros [= ->].
  change (0 <? Z.of_nat (length (@nil QueueVideo))) with false.
  cbv beta iota. simpl_world.
  destruct (select_queue roomId (db w)) as [|v l] eqn:Hq.
  - change (0 <? Z.of_nat (length (@nil QueueVideo))) with false.
    run_monad. eexists. repeat split; reflexivity.
  - replace (0 <? Z.of_nat (length (v :: l))) with true
      by (symmetry; apply Z.ltb_lt; cbn; lia).
    run_monad. eexists. repeat split; reflexivity.
Qed.

(** X15 (RoomService.getRoomQueue): a read of the queue is served from
    the cache alone when the cached queue has rows.  Otherwise it
    returns the store's queue, which is in descending order of net
    votes, earlier submissions first among equals; when that queue is
    empty nothing is written, and when it has rows the read fills the
    cache and moves the cursor of the room to the clock reading, after
    which the next read is served from the cache with rows of that
    queue. *)
Theorem getRoomQueue_paths :
  forall clock roomId w cached,
    fst (RedisService.getRoomQueue roomId w) = Ok cached ->
    (cached <> [] ->
     RoomService.getRoomQueue clock roomId w = (Ok cached, record CacheRead w))
    /\ (cached = [] ->
        exists w',
          RoomService.getRoomQueue clock roomId w
            = (Ok (select_queue roomId (db w)), w')
          /\ StronglySorted plays_before (select_queue roomId (db w))
          /\ db w' = db w
          /\ (select_queue roomId (db w) = [] ->
              redis w' = redis w /\ ticks w' = ticks w)
          /\ (select_queue roomId (db w) <> [] ->
              cursor roomId w' = clock (ticks w)
              /\ exists again,
                   RoomService.getRoomQueue clock roomId w'
                     = (Ok again, record CacheRead w')
                   /\ again <> []
                   /\ (forall v, In v again -> In v (select_queue roomId (db w))))).
Proof.
  intros clock roomId w cached Hcached. split.
  - intros Hne. apply getRoomQueue_hit; assumption.
  - intros ->. destruct (getRoomQueue_miss clock roomId w Hcached)
      as (w' & Hrun & Hdb & Hredis & Hticks).
    exists w'. split; [exact Hrun|].
    split; [apply queue_order_sorted|]. split; [exact Hdb|].
    destruct (select_queue roomId (db w)) as [|v l] eqn:Hq.
    + split; [intros _; split; assumption | congruence].
    + split; [discriminate|]. intros _.
      assert (Hcache : room_queue (redis w') !! roomId
                       = Some (RedisService.videoData (v :: l))).
      { rewrite Hredis. apply updateRoomQueue_pipeline_room_queue. discriminate. }
      split.
      { unfold cursor. rewrite Hredis, updateRoomQueue_pipeline_last_update.
        rewrite lookup_insert_eq. reflexivity. }
      assert (Hne : RedisService.zRange_REV (RedisService.videoData (v :: l)) <> []).
      { apply zRange_REV_not_nil. apply videoData_not_nil. discriminate. }
      exists (map z_video (RedisService.zRange_REV (RedisService.videoData (v :: l)))).
      split; [|split].
      * apply getRoomQueue_hit.
        -- run_monad. cbn [fst]. rewrite Hcache. reflexivity.
        -- intros Hnil. apply map_eq_nil in Hnil. contradiction.
      * intros Hnil. apply map_eq_nil in Hnil. contradiction.
      * intros x Hx. apply in_map_iff in Hx. destruct Hx as (e & <- & He).
        unfold RedisService.zRange_REV in He.
        apply in_rev in He. apply In_sort_by in He. apply In_videoData in He.
        destruct He as (x & Hx & ->). exact Hx.
Qed.

Lemma getRoomQueue_paths_witness :
  exists w' again,
    RoomService.getRoomQueue Sample.clock "r1" Sample.fresh
      = (Ok (select_queue "r1" (db Sample.fresh)), w')
    /\ cursor "r1" Sample.fresh = 0
    /\ cursor "r1" w' = 1000
    /\ RoomService.getRoomQueue Sample.clock "r1" w' = (Ok again, record CacheRead w').
Proof.
  assert (Hcached : fst (RedisService.getRoomQueue "r1" Sample.fresh) = Ok [])
    by (vm_compute; reflexivity).
  destruct (getRoomQueue_paths Sample.clock "r1" Sample.fresh [] Hcached) as [_ Hmiss].
  destruct (Hmiss eq_refl) as (w' & Hrun & _ & _ & _ & Hfill).
  assert (Hne : select_queue "r1" (db Sample.fresh) <> []) by (vm_compute; discriminate).
  destruct (Hfill Hne) as (Hcursor & again & Hagain & _).
  exists w', again. split; [exact Hrun|]. split; [reflexivity|].
  split; [exact Hcursor | exact Hagain].
Defined.

(** * Reading the current item *)

Lemma select_current_In roomId d v :
  In v (select_current roomId d) ->
  qv_room_id v = roomId /\ qv_is_current v = true
  /\ exists row name, In row (queue_videos d) /\ v = with_username (Some name) row.
Proof.
  unfold select_current. intros Hin. apply In_omap in Hin.
  destruct Hin as (row & Hrow & Hjoin). apply filter_In in Hrow.
  destruct Hrow as [Hrow Hcond]. apply andb_true_iff in Hcond.
  destruct Hcond as [Hroom Hcurrent]. apply String.eqb_eq in Hroom.
  unfold join_user in Hjoin. destruct (users d !! qv_added_by row) as [name|];
    [|discriminate].
  inversion Hjoin; subst v. split; [exact Hroom|]. split; [exact Hcurrent|].
  exists row, name. split; [exact Hrow | reflexivity].
Qed.

(** X23 (RoomService.getCurrentVideo): a read of the current item is
    served from the cache alone when the cache has one for the room.
    Otherwise it returns the first row of the room that the store marks
    current, with the name of its submitter; when there is none nothing
    is written, and when there is one the read fills the cache and moves
    the cursor of the room to the clock reading, after which the next
    read is served from the cache with the same row. *)
Theorem getCurrentVideo_paths :
  forall clock roomId w,
    (forall v, room_current (redis w) !! roomId = Some v ->
               RoomService.getCurrentVideo clock roomId w
               = (Ok (Some v), record CacheRead w))
    /\ (room_current (redis w) !! roomId = None ->
        exists w',
          RoomService.getCurrentVideo clock roomId w
            = (Ok (head (select_current roomId (db w))), w')
          /\ db w' = db w
          /\ (select_current roomId (db w) = [] ->
              redis w' = redis w /\ ticks w' = ticks w)
          /\ (forall v, head (select_current roomId (db w)) = Some v ->
                qv_room_id v = roomId /\ qv_is_current v = true
                /\ cursor roomId w' = clock (ticks w)
                /\ RoomService.getCurrentVideo clock roomId w'
                   = (Ok (Some v), record CacheRead w'))).
Proof.
  intros clock roomId w. split.
  - intros v Hv. unfold RoomService.getCurrentVideo. run_monad. rewrite Hv. reflexivity.
  - intros Hnone. unfold RoomService.getCurrentVideo. run_monad. rewrite Hnone.
    cbv beta iota. simpl_world.
    destruct (select_current roomId (db w)) as [|v rest] eqn:Hsel; cbn [head].
    + run_monad. eexists. split; [reflexivity|]. split; [reflexivity|].
      split; [intros _; split; reflexivity | discriminate].
    + run_monad. eexists. split; [reflexivity|]. split; [reflexivity|].
      split; [discriminate|]. intros v' [= <-].
      assert (Hin : In v (select_current roomId (db w))) by (rewrite Hsel; left; reflexivity).
      apply select_current_In in Hin. destruct Hin as (Hroom & Hcurrent & _).
      split; [exact Hroom|]. split; [exact Hcurrent|].
      unfold cursor. simpl_world.
      cbn [last_update room_current RedisService.set_last_update
             RedisService.set_room_current].
      rewrite !lookup_insert_eq. split; reflexivity.
Qed.

(** * The cached order without ties *)

(** X24 (RoomService.getRoomQueue, RedisService.updateRoomQueue,
    RedisService.getRoomQueue): when no two rows of the store's queue
    have the same net votes and their JSON texts differ, the read that
    fills the cache and the read served from the cache after it return
    the same rows in the same order. *)
Theorem cached_queue_keeps_order_without_ties :
  forall clock roomId w,
    fst (RedisService.getRoomQueue roomId w) = Ok [] ->
    select_queue roomId (db w) <> [] ->
    List.NoDup (map JSON_stringify (select_queue roomId (db w))) ->
    strictly_descending (select_queue roomId (db w)) ->
    exists w',
      RoomService.getRoomQueue clock roomId w = (Ok (select_queue roomId (db w)), w')
      /\ RoomService.getRoomQueue clock roomId w'
         = (Ok (select_queue roomId (db w)), record CacheRead w').
Proof.
  intros clock roomId w Hcached Hne Hnd Hdesc.
  destruct (getRoomQueue_miss clock roomId w Hcached) as (w' & Hrun & _ & Hredis & _).
  exists w'. split; [exact Hrun|].
  apply getRoomQueue_hit; [|exact Hne].
  pose proof (cache_order_without_ties clock roomId _ w Hne Hnd Hdesc) as Hsame.
  rewrite written_queue_read in Hsame.
  run_monad. cbn [fst]. rewrite Hredis.
  destruct (select_queue roomId (db w)) as [|v l] eqn:Hq; [congruence|].
  rewrite updateRoomQueue_pipeline_room_queue by discriminate.
  exact Hsame.
Qed.

Lemma cached_queue_keeps_order_without_ties_witness :
  let voted := snd (RoomService.voteVideo Sample.clock None "bob" "a" 1 Sample.fresh) in
  let cold := set_redis Sample.empty_cache voted in
  exists w',
    RoomService.getRoomQueue Sample.clock "r1" cold
      = (Ok (select_queue "r1" (db cold)), w')
    /\ RoomService.getRoomQueue Sample.clock "r1" w'
       = (Ok (select_queue "r1" (db cold)), record CacheRead w').
Proof.
  intros voted cold.
  apply (cached_queue_keeps_order_without_ties Sample.clock "r1" cold).
  - vm_compute. reflexivity.
  - vm_compute. discriminate.
  - vm_compute. repeat constructor; simpl; intuition discriminate.
  - vm_compute. repeat constructor.
Defined.

(** * Video ids and URLs *)

Lemma append_nil (b : string) : EmptyString +:+ b = b.
Proof. reflexivity. Qed.

Lemma append_cons (x : ascii) (a b : string) : String x a +:+ b = String x (a +:+ b).
Proof. reflexivity. Qed.

Lemma string_app_assoc (a b c : string) : (a +:+ b) +:+ c = a +:+ (b +:+ c).
Proof.
  induction a as [|x a IH]; [reflexivity|].
  rewrite !append_cons, IH. reflexivity.
Qed.

Lemma strip_prefix_app p s : YouTubeService.strip_prefix p (p +:+ s) = Some s.
Proof.
  induction p as [|c p IH]; [destruct s; reflexivity|].
  rewrite append_cons. cbn. rewrite Ascii.eqb_refl. exact IH.
Qed.

Lemma strip_prefix_spec p s rest :
  YouTubeService.strip_prefix p s = Some rest -> s = p +:+ rest.
Proof.
  revert s. induction p as [|c p IH]; intros s; cbn.
  - destruct s; intros [= <-]; reflexivity.
  - destruct s as [|b s]; [discriminate|].
    destruct (Ascii.eqb c b) eqn:Hc; [|discriminate].
    apply Ascii.eqb_eq in Hc. subst b. intros H. rewrite (IH s H) at 1. reflexivity.
Qed.

Lemma take_id_part_spec s :
  YouTubeService.all_chars YouTubeService.id_part_char
    (YouTubeService.take_id_part s) = true
  /\ exists post, s = YouTubeService.take_id_part s +:+ post /\ delimits post.
Proof.
  induction s as [|c s (IHall & post & IHs & IHpost)]; cbn.
  - split; [reflexivity|]. exists EmptyString. split; [reflexivity | exact I].
  - destruct (YouTubeService.id_part_char c) eqn:Hc; cbn.
    + rewrite Hc, IHall. split; [reflexivity|].
      exists post. split; [rewrite append_cons, <- IHs; reflexivity | exact IHpost].
    + split; [reflexivity|]. exists (String c s). split; [reflexivity | exact Hc].
Qed.

Lemma take_id_part_app id tail :
  YouTubeService.all_chars YouTubeService.id_part_char id = true ->
  delimits tail ->
  YouTubeService.take_id_part (id +:+ tail) = id.
Proof.
  intros Hid Htail. induction id as [|c id IH].
  - rewrite append_nil. destruct tail as [|c tail]; [reflexivity|].
    cbn in Htail |- *. rewrite Htail. reflexivity.
  - cbn in Hid. apply andb_true_iff in Hid. destruct Hid as [Hc Hid].
    rewrite append_cons. cbn. rewrite Hc, IH by exact Hid. reflexivity.
Qed.

(** What a match of [(?:p1|p2|...)([^&\n?#]+)] at the head of [s] is. *)
Lemma match_here_spec ps s m :
  YouTubeService.match_here ps s = Some m ->
  exists p g post,
    In p ps /\ m = [p +:+ g; g] /\ id_like g
    /\ s = p +:+ g +:+ post /\ delimits post.
Proof.
  induction ps as [|p ps IH]; cbn; [discriminate|].
  assert (Hnext : YouTubeService.match_here ps s = Some m ->
                  exists p0 g post,
                    (p = p0 \/ In p0 ps) /\ m = [p0 +:+ g; g] /\ id_like g
                    /\ s = p0 +:+ g +:+ post /\ delimits post).
  { intros H. destruct (IH H) as (p0 & g & post & Hin & Hrest).
    exists p0, g, post. split; [right; exact Hin | exact Hrest]. }
  destruct (YouTubeService.strip_prefix p s) as [rest|] eqn:Hstrip; [|exact Hnext].
  destruct (take_id_part_spec rest) as (Hall & post & Hrest & Hpost).
  destruct (YouTubeService.take_id_part rest) as [|c g] eqn:Hg; [exact Hnext|].
  intros [= <-]. exists p, (String c g), post.
  split; [left; reflexivity|]. split; [reflexivity|].
  split; [split; [discriminate | exact Hall]|].
  split; [|exact Hpost].
  apply strip_prefix_spec in Hstrip. rewrite Hstrip, Hrest. reflexivity.
Qed.

Lemma match_prefixed_spec ps s m :
  YouTubeService.match_prefixed ps s = Some m ->
  exists pre p g post,
    In p ps /\ m = [p +:+ g; g] /\ id_like g
    /\ s = pre +:+ p +:+ g +:+ post /\ delimits post.
Proof.
  induction s as [|c s IH]; cbn.
  - destruct (YouTubeService.match_here ps EmptyString) as [m0|] eqn:Hm; [|discriminate].
    intros [= <-]. apply match_here_spec in Hm.
    destruct Hm as (p & g & post & H). exists EmptyString, p, g, post. exact H.
  - destruct (YouTubeService.match_here ps (String c s)) as [m0|] eqn:Hm.
    + intros [= <-]. apply match_here_spec in Hm.
      destruct Hm as (p & g & post & H). exists EmptyString, p, g, post. exact H.
    + intros H. destruct (IH H) as (pre & p & g & post & Hin & Hm' & Hg & Hs & Hpost).
      exists (String c pre), p, g, post.
      split; [exact Hin|]. split; [exact Hm'|]. split; [exact Hg|].
      split; [|exact Hpost]. rewrite append_cons, <- Hs. reflexivity.
Qed.

Lemma extractVideoId_shape :
  forall url id,
    YouTubeService.extractVideoId url = YouTubeService.JsString id ->
    id_like id
    /\ YouTubeService.falsy (YouTubeService.JsString id) = false
    /\ exists pre p post,
         In p (standard_prefixes ++ [shorts_prefix])%list
         /\ url = pre +:+ p +:+ id +:+ post /\ delimits post.
Proof.
  intros url id. unfold YouTubeService.extractVideoId, YouTubeService.patterns.
  cbn [YouTubeService.first_match].
  assert (Hshape : forall ps m,
             YouTubeService.match_prefixed ps url = Some m ->
             YouTubeService.group1 m = YouTubeService.JsString id ->
             id_like id
             /\ exists pre p post,
                  In p ps /\ url = pre +:+ p +:+ id +:+ post /\ delimits post).
  { intros ps m Hm Hg. apply match_prefixed_spec in Hm.
    destruct Hm as (pre & p & g & post & Hin & -> & Hlike & Hurl & Hpost).
    cbn in Hg. inversion Hg; subst g. split; [exact Hlike|].
    exists pre, p, post. split; [exact Hin|]. split; [exact Hurl | exact Hpost]. }
  assert (Hfalsy : id_like id ->
                   YouTubeService.falsy (YouTubeService.JsString id) = false).
  { intros [Hne _]. cbn. apply String.eqb_neq. exact Hne. }
  destruct (YouTubeService.match_prefixed
              ["youtube.com/watch?v="; "youtu.be/"; "youtube.com/embed/"] url)
    as [m|] eqn:H1.
  - intros Hg. destruct (Hshape _ _ H1 Hg) as (Hlike & pre & p & post & Hin & Hrest).
    split; [exact Hlike|]. split; [apply Hfalsy; exact Hlike|].
    exists pre, p, post. split; [|exact Hrest].
    apply in_or_app. left. exact Hin.
  - destruct (YouTubeService.match_prefixed ["youtube.com/shorts/"] url)
      as [m|] eqn:H2.
    + intros Hg. destruct (Hshape _ _ H2 Hg) as (Hlike & pre & p & post & Hin & Hrest).
      split; [exact Hlike|]. split; [apply Hfalsy; exact Hlike|].
      exists pre, p, post. split; [|exact Hrest].
      apply in_or_app. right. exact Hin.
    + unfold YouTubeService.match_bare_id.
      destruct ((String.length url =? 11)%nat
                && YouTubeService.all_chars YouTubeService.video_id_char url);
        cbn; discriminate.
Qed.

(** X16 (YouTubeService.extractVideoId): an id that is returned as a
    string is never empty, has none of the characters [&], newline, [?]
    and [#], and stands in the URL right after one of the four prefixes,
    up to the end of the URL or the next of those characters. *)
Theorem extractVideoId_result_shape :
  forall url id,
    YouTubeService.extractVideoId url = YouTubeService.JsString id ->
    id_like id
    /\ YouTubeService.falsy (YouTubeService.JsString id) = false
    /\ exists pre p post,
         In p (standard_prefixes ++ [shorts_prefix])%list
         /\ url = pre +:+ p +:+ id +:+ post /\ delimits post.
Proof. exact extractVideoId_shape. Qed.

Lemma extractVideoId_result_shape_witness :
  id_like "dQw4w9WgXcQ"
  /\ exists pre p post,
       In p (standard_prefixes ++ [shorts_prefix])%list
       /\ "https://www.youtube.com/watch?v=dQw4w9WgXcQ&t=1"
          = pre +:+ p +:+ "dQw4w9WgXcQ" +:+ post
       /\ delimits post.
Proof.
  pose proof (extractVideoId_result_shape
                "https://www.youtube.com/watch?v=dQw4w9WgXcQ&t=1" "dQw4w9WgXcQ"
                eq_refl) as (Hlike & _ & Hurl).
  split; [exact Hlike | exact Hurl].
Defined.

Lemma all_chars_app f a b :
  YouTubeService.all_chars f (a +:+ b)
  = YouTubeService.all_chars f a && YouTubeService.all_chars f b.
Proof.
  induction a as [|c a IH]; [reflexivity|].
  rewrite append_cons. cbn. rewrite IH. apply andb_assoc.
Qed.

Lemma match_prefixed_cons ps c s :
  YouTubeService.match_prefixed ps (String c s)
  = match YouTubeService.match_here ps (String c s) with
    | Some m => Some m
    | None => YouTubeService.match_prefixed ps s
    end.
Proof. reflexivity. Qed.

Lemma match_prefixed_here ps s m :
  YouTubeService.match_here ps s = Some m ->
  YouTubeService.match_prefixed ps s = Some m.
Proof. intros H. destruct s; cbn; rewrite H; reflexivity. Qed.

(** No prefix starts at a character other than its first one. *)
Lemma match_here_other_head ps c s :
  Forall (fun p => exists p', p = String "y" p') ps ->
  Ascii.eqb c "y" = false ->
  YouTubeService.match_here ps (String c s) = None.
Proof.
  intros Hps Hc. induction Hps as [|p ps (p' & ->) _ IH]; [reflexivity|].
  cbn [YouTubeService.match_here YouTubeService.strip_prefix].
  rewrite Ascii.eqb_sym, Hc. exact IH.
Qed.

Lemma match_prefixed_skip ps pre s :
  Forall (fun p => exists p', p = String "y" p') ps ->
  lacks "y" pre ->
  YouTubeService.match_prefixed ps (pre +:+ s) = YouTubeService.match_prefixed ps s.
Proof.
  intros Hps Hpre. induction pre as [|c pre IH]; [reflexivity|].
  unfold lacks in Hpre. cbn in Hpre. apply andb_true_iff in Hpre.
  destruct Hpre as [Hc Hpre]. apply negb_true_iff in Hc.
  rewrite append_cons, match_prefixed_cons, match_here_other_head by assumption.
  apply IH. exact Hpre.
Qed.

(** The alternative that matches at the head of the string. *)
Lemma match_here_at before p after id tail :
  Forall (fun q => YouTubeService.strip_prefix q (p +:+ id +:+ tail) = None) before ->
  id_like id -> delimits tail ->
  YouTubeService.match_here (before ++ p :: after) (p +:+ id +:+ tail)
  = Some [p +:+ id; id].
Proof.
  intros Hbefore [Hne Hid] Htail.
  induction Hbefore as [|q before Hq _ IH]; cbn [app YouTubeService.match_here].
  - rewrite strip_prefix_app, take_id_part_app by assumption.
    destruct id; [congruence | reflexivity].
  - rewrite Hq. exact IH.
Qed.

Lemma standard_start :
  Forall (fun p => exists p', p = String "y" p') standard_prefixes.
Proof. repeat constructor; eexists; reflexivity. Qed.

Lemma shorts_start :
  Forall (fun p => exists p', p = String "y" p') [shorts_prefix].
Proof. repeat constructor; eexists; reflexivity. Qed.

Lemma standard_match p id tail :
  In p standard_prefixes -> id_like id -> delimits tail ->
  YouTubeService.match_here standard_prefixes (p +:+ id +:+ tail)
  = Some [p +:+ id; id].
Proof.
  intros Hin Hid Htail. unfold standard_prefixes in *.
  destruct Hin as [<-|[<-|[<-|[]]]].
  - apply (match_here_at [] _ _ id tail); [constructor | assumption | assumption].
  - apply (match_here_at ["youtube.com/watch?v="] _ _ id tail);
      [repeat constructor | assumption | assumption].
  - apply (match_here_at ["youtube.com/watch?v="; "youtu.be/"] _ _ id tail);
      [repeat constructor | assumption | assumption].
Qed.

Lemma extractVideoId_first_pattern url g whole :
  YouTubeService.match_prefixed standard_prefixes url = Some [whole; g] ->
  YouTubeService.extractVideoId url = YouTubeService.JsString g.
Proof.
  intros H. unfold YouTubeService.extractVideoId, YouTubeService.patterns.
  cbn [YouTubeService.first_match]. unfold standard_prefixes in H. rewrite H.
  reflexivity.
Qed.

Lemma lacks_no_standard s :
  lacks "y" s -> YouTubeService.match_prefixed standard_prefixes s = None.
Proof.
  intros H. apply (match_prefixed_none (fun x => negb (Ascii.eqb x "y"))); [|exact H].
  repeat constructor.
Qed.

Lemma extractVideoId_standard pre p id tail :
  lacks "y" pre -> id_like id -> delimits tail -> In p standard_prefixes ->
  YouTubeService.extractVideoId (pre +:+ p +:+ id +:+ tail) = YouTubeService.JsString id.
Proof.
  intros Hpre Hid Htail Hp.
  apply extractVideoId_first_pattern with (whole := p +:+ id).
  rewrite match_prefixed_skip by (exact standard_start || exact Hpre).
  apply match_prefixed_here. apply standard_match; assumption.
Qed.

(** X17 (YouTubeService.extractVideoId): for a URL that has one of the
    three standard prefixes after a lead without the letter y, the id
    found is the run of characters after the prefix up to the next of
    [&], newline, [?], [#] or the end.  The same holds for the shorts
    prefix when no y follows it; a standard prefix further on in a
    shorts URL wins over the shorts id. *)
Theorem extractVideoId_reads_the_id :
  forall pre id tail,
    lacks "y" pre -> id_like id -> delimits tail ->
    (forall p, In p standard_prefixes ->
               YouTubeService.extractVideoId (pre +:+ p +:+ id +:+ tail)
               = YouTubeService.JsString id)
    /\ (lacks "y" id -> lacks "y" tail ->
        YouTubeService.extractVideoId (pre +:+ shorts_prefix +:+ id +:+ tail)
        = YouTubeService.JsString id)
    /\ (forall short between,
          lacks "y" short -> lacks "y" between ->
          YouTubeService.extractVideoId
            (pre +:+ shorts_prefix +:+ short +:+ between +:+ "youtu.be/" +:+ id +:+ tail)
          = YouTubeService.JsString id).
Proof.
  intros pre id tail Hpre Hid Htail. split; [|split].
  - intros p Hp. apply extractVideoId_standard; assumption.
  - intros Hyid Hytail.
    assert (H1 : YouTubeService.match_prefixed standard_prefixes
                   (pre +:+ shorts_prefix +:+ id +:+ tail) = None).
    { rewrite match_prefixed_skip by (exact standard_start || exact Hpre).
      change (shorts_prefix +:+ id +:+ tail)
        with (String "y" ("outube.com/shorts/" +:+ id +:+ tail)).
      rewrite match_prefixed_cons.
      change (YouTubeService.match_here standard_prefixes
                (String "y" ("outube.com/shorts/" +:+ id +:+ tail)))
        with (@None (list string)).
      cbv iota. apply lacks_no_standard. unfold lacks.
      rewrite !all_chars_app. rewrite Hyid, Hytail. reflexivity. }
    unfold YouTubeService.extractVideoId, YouTubeService.patterns.
    cbn [YouTubeService.first_match]. unfold standard_prefixes in H1. rewrite H1.
    fold shorts_prefix.
    rewrite match_prefixed_skip by (exact shorts_start || exact Hpre).
    rewrite (match_prefixed_here _ _ [shorts_prefix +:+ id; id]); [reflexivity|].
    apply (match_here_at [] shorts_prefix [] id tail); [constructor | assumption..].
  - intros short between Hshort Hbetween.
    apply extractVideoId_first_pattern with (whole := "youtu.be/" +:+ id).
    rewrite match_prefixed_skip by (exact standard_start || exact Hpre).
    change (shorts_prefix +:+ short +:+ between +:+ "youtu.be/" +:+ id +:+ tail)
      with (String "y" ("outube.com/shorts/" +:+ short +:+ between
                        +:+ "youtu.be/" +:+ id +:+ tail)).
    rewrite match_prefixed_cons.
    change (YouTubeService.match_here standard_prefixes
              (String "y" ("outube.com/shorts/" +:+ short +:+ between
                           +:+ "youtu.be/" +:+ id +:+ tail)))
      with (@None (list string)).
    cbv iota.
    rewrite <- !string_app_assoc.
    rewrite (string_app_assoc _ id tail), (string_app_assoc _ "youtu.be/" (id +:+ tail)).
    rewrite match_prefixed_skip.
    + apply match_prefixed_here. apply standard_match; [|assumption..].
      right. left. reflexivity.
    + exact standard_start.
    + unfold lacks. rewrite !all_chars_app. rewrite Hshort, Hbetween. reflexivity.
Qed.

Lemma extractVideoId_reads_the_id_witness :
  YouTubeService.extractVideoId
    ("https://www." +:+ "youtube.com/watch?v=" +:+ "dQw4w9WgXcQ" +:+ "&t=1")
  = YouTubeService.JsString "dQw4w9WgXcQ"
  /\ YouTubeService.extractVideoId
       ("https://" +:+ shorts_prefix +:+ "abc" +:+ "?feature=" +:+ "youtu.be/"
        +:+ "dQw4w9WgXcQ" +:+ EmptyString)
     = YouTubeService.JsString "dQw4w9WgXcQ".
Proof.
  assert (Hpre : lacks "y" "https://www.") by reflexivity.
  assert (Hpre' : lacks "y" "https://") by reflexivity.
  assert (Hid : id_like "dQw4w9WgXcQ") by (split; [discriminate | reflexivity]).
  assert (Htail : delimits "&t=1") by reflexivity.
  pose proof (extractVideoId_reads_the_id "https://www." "dQw4w9WgXcQ" "&t=1"
                Hpre Hid Htail) as (Hstandard & _ & _).
  pose proof (extractVideoId_reads_the_id "https://" "dQw4w9WgXcQ" EmptyString
                Hpre' Hid I) as (_ & _ & Hshorts).
  split.
  - apply Hstandard. left. reflexivity.
  - apply (Hshorts "abc" "?feature="); reflexivity.
Defined.

(** X18 (YouTubeService.getEmbedUrl, YouTubeService.extractVideoId): the
    embed URL built for an id parses back to that id, whatever the
    origin and the autoplay flag; in particular the embed URL of an id
    that was extracted from a URL gives the same id again. *)
Theorem embed_url_round_trip :
  forall corsOrigin autoplay,
    (forall id, id_like id ->
                YouTubeService.extractVideoId
                  (YouTubeEmbed.getEmbedUrl corsOrigin id autoplay)
                = YouTubeService.JsString id)
    /\ (forall url id,
          YouTubeService.extractVideoId url = YouTubeService.JsString id ->
          YouTubeService.extractVideoId
            (YouTubeEmbed.getEmbedUrl corsOrigin id autoplay)
          = YouTubeService.JsString id).
Proof.
  intros corsOrigin autoplay.
  assert (Hid : forall id, id_like id ->
                           YouTubeService.extractVideoId
                             (YouTubeEmbed.getEmbedUrl corsOrigin id autoplay)
                           = YouTubeService.JsString id).
  { intros id Hid. unfold YouTubeEmbed.getEmbedUrl.
    set (query := YouTubeEmbed.URLSearchParams_toString _).
    change ("https://www.youtube.com/embed/" +:+ id +:+ "?" +:+ query)
      with ("https://www." +:+ "youtube.com/embed/" +:+ id +:+ (String "?" query)).
    apply (extractVideoId_standard "https://www." _ id (String "?" query)).
    - reflexivity.
    - exact Hid.
    - reflexivity.
    - right. right. left. reflexivity. }
  split; [exact Hid|].
  intros url id Hurl. apply Hid.
  apply extractVideoId_shape in Hurl. tauto.
Qed.

(** * Durations and video information *)

Lemma take_digits_app ds c rest :
  YouTubeService.all_chars YouTubeInfo.is_digit ds = true ->
  YouTubeInfo.is_digit c = false ->
  YouTubeInfo.take_digits (ds +:+ String c rest) = (ds, String c rest).
Proof.
  intros Hds Hc. induction ds as [|d ds IH].
  - rewrite append_nil. cbn [YouTubeInfo.take_digits]. rewrite Hc. reflexivity.
  - cbn in Hds. apply andb_true_iff in Hds. destruct Hds as [Hd Hds].
    rewrite append_cons. cbn [YouTubeInfo.take_digits]. rewrite Hd, IH by exact Hds.
    reflexivity.
Qed.

Lemma optional_component_hit unit ds rest :
  digits ds -> YouTubeInfo.is_digit unit = false ->
  YouTubeInfo.optional_component unit ((ds +:+ String unit EmptyString) +:+ rest)
  = (Some ds, rest).
Proof.
  intros [Hne Hds] Hunit. rewrite string_app_assoc.
  change (String unit EmptyString +:+ rest) with (String unit rest).
  unfold YouTubeInfo.optional_component. rewrite take_digits_app by assumption.
  destruct ds as [|d ds]; [congruence|]. rewrite Ascii.eqb_refl. reflexivity.
Qed.

Lemma optional_component_other unit c ds rest :
  YouTubeService.all_chars YouTubeInfo.is_digit ds = true ->
  YouTubeInfo.is_digit c = false -> Ascii.eqb c unit = false ->
  YouTubeInfo.optional_component unit ((ds +:+ String c EmptyString) +:+ rest)
  = (None, (ds +:+ String c EmptyString) +:+ rest).
Proof.
  intros Hds Hc Hne. rewrite string_app_assoc.
  change (String c EmptyString +:+ rest) with (String c rest).
  unfold YouTubeInfo.optional_component. rewrite take_digits_app by assumption.
  destruct ds as [|d ds]; [reflexivity|]. rewrite Hne. reflexivity.
Qed.

Lemma optional_component_tail unit tail :
  match tail with
  | EmptyString => True
  | String c _ => YouTubeInfo.is_digit c = false
  end ->
  YouTubeInfo.optional_component unit tail = (None, tail).
Proof.
  intros Htail. unfold YouTubeInfo.optional_component.
  destruct tail as [|c tail]; [reflexivity|].
  cbn [YouTubeInfo.take_digits]. rewrite Htail. reflexivity.
Qed.

Lemma is_digit_not_P c : YouTubeInfo.is_digit c = true -> Ascii.eqb c "P" = false.
Proof.
  intros H. destruct (Ascii.eqb_spec c "P") as [->|]; [discriminate | reflexivity].
Qed.

Lemma after_PT_lacks s : lacks "P" s -> YouTubeInfo.after_PT s = None.
Proof.
  unfold lacks. induction s as [|c s IH]; [reflexivity|].
  cbn [YouTubeService.all_chars]. intros H. apply andb_true_iff in H.
  destruct H as [Hc Hs]. apply negb_true_iff in Hc.
  cbn [YouTubeInfo.after_PT]. rewrite Hc. destruct s; apply IH; exact Hs.
Qed.

Lemma digits_lack_P ds :
  YouTubeService.all_chars YouTubeInfo.is_digit ds = true -> lacks "P" ds.
Proof.
  unfold lacks. induction ds as [|d ds IH]; [reflexivity|].
  cbn [YouTubeService.all_chars]. intros H. apply andb_true_iff in H.
  destruct H as [Hd Hds]. rewrite (is_digit_not_P d Hd), IH by exact Hds. reflexivity.
Qed.

Ltac match_components :=
  repeat first
    [ rewrite optional_component_hit by (assumption || reflexivity)
    | rewrite optional_component_other by (assumption || reflexivity)
    | rewrite optional_component_tail by assumption ];
  cbv beta iota.

(** X19 (YouTubeService.parseDuration): a duration written as PT
    followed by optional hours, minutes and seconds components, in that
    order, is read as the number of seconds it stands for, a missing
    component counting as 0, as long as that number is at most 2^53, the
    range in which the doubles of JavaScript are the integers.  A
    duration with a date part, such as one with days, has no PT and is
    read as 0. *)
Theorem parseDuration_reads_components :
  forall hours minutes seconds tail,
    component_ok hours -> component_ok minutes -> component_ok seconds ->
    component_value hours * 3600 + component_value minutes * 60
    + component_value seconds <= 2 ^ 53 ->
    match tail with
    | EmptyString => True
    | String c _ => YouTubeInfo.is_digit c = false
    end ->
    YouTubeInfo.parseDuration
      ("PT" +:+ component hours "H" +:+ component minutes "M"
       +:+ component seconds "S" +:+ tail)
    = component_value hours * 3600 + component_value minutes * 60
      + component_value seconds
    /\ (forall days rest,
          digits days -> lacks "P" rest ->
          YouTubeInfo.parseDuration ("P" +:+ days +:+ "D" +:+ rest) = 0).
Proof.
  intros hours minutes seconds tail Hh Hm Hs _ Htail. split.
  - unfold YouTubeInfo.parseDuration.
    change (YouTubeInfo.after_PT
              ("PT" +:+ component hours "H" +:+ component minutes "M"
               +:+ component seconds "S" +:+ tail))
      with (Some (component hours "H" +:+ component minutes "M"
                  +:+ component seconds "S" +:+ tail)).
    cbv beta iota.
    destruct hours as [hs|]; destruct minutes as [ms|]; destruct seconds as [ss|];
      cbn [component component_ok component_value YouTubeInfo.or_zero] in *;
      try (pose proof (proj2 Hh) as Hh'); try (pose proof (proj2 Hm) as Hm');
      try (pose proof (proj2 Hs) as Hs');
      rewrite ?append_nil; match_components;
      cbn [YouTubeInfo.or_zero]; change (YouTubeInfo.parseInt "0") with 0; lia.
  - intros days rest [Hne Hdays] Hrest. unfold YouTubeInfo.parseDuration.
    destruct days as [|d days]; [congruence|].
    assert (Hlacks : lacks "P" (String d days +:+ "D" +:+ rest)).
    { unfold lacks. rewrite !all_chars_app.
      pose proof (digits_lack_P _ Hdays) as HP. unfold lacks in HP, Hrest.
      rewrite HP, Hrest. reflexivity. }
    change ("P" +:+ String d days +:+ "D" +:+ rest)
      with (String "P" (String d (days +:+ "D" +:+ rest))).
    cbn [YouTubeInfo.after_PT]. rewrite Ascii.eqb_refl.
    cbn in Hdays. apply andb_true_iff in Hdays. destruct Hdays as [Hd _].
    replace (Ascii.eqb d "T") with false.
    2:{ symmetry. destruct (Ascii.eqb_spec d "T") as [->|]; [discriminate | reflexivity]. }
    pose proof (after_PT_lacks _ Hlacks) as Hnone.
    change (String d days +:+ "D" +:+ rest)
      with (String d (days +:+ "D" +:+ rest)) in Hnone.
    cbn [YouTubeInfo.after_PT] in Hnone. rewrite Hnone. reflexivity.
Qed.

Lemma parseDuration_reads_components_witness :
  YouTubeInfo.parseDuration "PT4M13S" = 4 * 60 + 13
  /\ YouTubeInfo.parseDuration "P1DT2H" = 0.
Proof.
  assert (H4 : digits "4") by (split; [discriminate | reflexivity]).
  assert (H13 : digits "13") by (split; [discriminate | reflexivity]).
  assert (H1 : digits "1") by (split; [discriminate | reflexivity]).
  assert (Hbound : component_value None * 3600 + component_value (Some "4") * 60
                   + component_value (Some "13") <= 2 ^ 53)
    by (vm_compute; discriminate).
  pose proof (parseDuration_reads_components None (Some "4") (Some "13") EmptyString
                I H4 H13 Hbound I) as (Hread & Hdays).
  split.
  - exact Hread.
  - apply (Hdays "1" "T2H" H1). reflexivity.
Defined.

Lemma take_digits_fst s :
  YouTubeService.all_chars YouTubeInfo.is_digit (fst (YouTubeInfo.take_digits s)) = true.
Proof.
  induction s as [|c s IH]; [reflexivity|].
  cbn [YouTubeInfo.take_digits]. destruct (YouTubeInfo.is_digit c) eqn:Hc; [|reflexivity].
  destruct (YouTubeInfo.take_digits s) as [ds rest]. cbn in IH |- *.
  rewrite Hc, IH. reflexivity.
Qed.

Lemma optional_component_digits unit s group rest :
  YouTubeInfo.optional_component unit s = (Some group, rest) ->
  YouTubeService.all_chars YouTubeInfo.is_digit group = true.
Proof.
  unfold YouTubeInfo.optional_component. intros H.
  pose proof (take_digits_fst s) as Hds.
  destruct (YouTubeInfo.take_digits s) as [ds after].
  destruct ds as [|d ds]; [discriminate|].
  destruct after as [|c after]; [discriminate|].
  destruct (Ascii.eqb c unit); [|discriminate].
  inversion H; subst. exact Hds.
Qed.

Lemma digit_value_nonneg c :
  YouTubeInfo.is_digit c = true -> 0 <= YouTubeInfo.digit_value c.
Proof.
  unfold YouTubeInfo.is_digit, YouTubeInfo.digit_value. intros H.
  apply andb_true_iff in H. destruct H as [H _]. apply Nat.leb_le in H. lia.
Qed.

Lemma parseInt_from_nonneg acc s :
  0 <= acc -> YouTubeService.all_chars YouTubeInfo.is_digit s = true ->
  0 <= YouTubeInfo.parseInt_from acc s.
Proof.
  revert acc. induction s as [|c s IH]; intros acc Hacc Hs; [exact Hacc|].
  cbn in Hs. apply andb_true_iff in Hs. destruct Hs as [Hc Hs].
  cbn [YouTubeInfo.parseInt_from]. apply IH; [|exact Hs].
  pose proof (digit_value_nonneg c Hc). lia.
Qed.

Lemma component_nonneg unit s :
  0 <= YouTubeInfo.parseInt
         (YouTubeInfo.or_zero (fst (YouTubeInfo.optional_component unit s))).
Proof.
  destruct (YouTubeInfo.optional_component unit s) as [[group|] rest] eqn:H.
  - cbn [fst YouTubeInfo.or_zero]. apply parseInt_from_nonneg; [lia|].
    eapply optional_component_digits. exact H.
  - cbn [fst YouTubeInfo.or_zero]. change (YouTubeInfo.parseInt "0") with 0. lia.
Qed.

Lemma parseDuration_nonneg duration : 0 <= YouTubeInfo.parseDuration duration.
Proof.
  unfold YouTubeInfo.parseDuration.
  destruct (YouTubeInfo.after_PT duration) as [rest|]; [|lia].
  pose proof (component_nonneg "H" rest) as Hh.
  destruct (YouTubeInfo.optional_component "H" rest) as [hours rest1].
  pose proof (component_nonneg "M" rest1) as Hm.
  destruct (YouTubeInfo.optional_component "M" rest1) as [minutes rest2].
  pose proof (component_nonneg "S" rest2) as Hs.
  destruct (YouTubeInfo.optional_component "S" rest2) as [seconds rest3].
  cbn [fst] in Hh, Hm, Hs. lia.
Qed.

(** X20 (YouTubeService.getVideoInfo, getBasicVideoInfo, parseDuration;
    RoomService.addVideoToQueue): the lookup gives nothing only when an
    API key is set and the API answers without an item; without a key,
    or when the API call fails, it gives the placeholder information.
    The information it gives carries the id asked for and a duration
    that is not negative.  So without a key no submission is refused
    for lack of video information. *)
Theorem getVideoInfo_result :
  forall apiKey api videoId,
    (YouTubeInfo.getVideoInfo apiKey api videoId = None
     <-> apiKey <> EmptyString
         /\ (api videoId = YouTubeInfo.ApiAnswers None
             \/ api videoId = YouTubeInfo.ApiAnswers (Some [])))
    /\ (apiKey = EmptyString \/ api videoId = YouTubeInfo.ApiRejects ->
        YouTubeInfo.getVideoInfo apiKey api videoId
        = Some (YouTubeInfo.getBasicVideoInfo videoId))
    /\ (forall info,
          YouTubeInfo.getVideoInfo apiKey api videoId = Some info ->
          yt_video_id info = videoId /\ 0 <= yt_duration info)
    /\ (forall clock newId timestamp roomId userId url w e w',
          RoomService.addVideoToQueue clock (YouTubeInfo.getVideoInfo EmptyString api)
            newId timestamp roomId userId url w = (Throw e, w') ->
          e <> NoVideoInfo).
Proof.
  intros apiKey api videoId. unfold YouTubeInfo.getVideoInfo.
  split; [|split; [|split]].
  - destruct (String.eqb_spec apiKey EmptyString) as [->|Hkey].
    + split; [discriminate | intros [H _]; congruence].
    + destruct (api videoId) as [|[[|video rest]|]].
      * split; [discriminate | intros [_ [H|H]]; discriminate].
      * split; [intros _; split; [exact Hkey | right; reflexivity] | reflexivity].
      * split; [discriminate | intros [_ [H|H]]; discriminate].
      * split; [intros _; split; [exact Hkey | left; reflexivity] | reflexivity].
  - intros [->|Hapi]; [reflexivity|]. rewrite Hapi.
    destruct (String.eqb apiKey EmptyString); reflexivity.
  - intros info.
    destruct (String.eqb apiKey EmptyString).
    + intros [= <-]. split; [reflexivity | cbn [yt_duration YouTubeInfo.getBasicVideoInfo]; lia].
    + destruct (api videoId) as [|[[|video rest]|]]; try discriminate.
      * intros [= <-]. split; [reflexivity | cbn [yt_duration YouTubeInfo.getBasicVideoInfo]; lia].
      * intros [= <-]. split; [reflexivity | apply parseDuration_nonneg].
  - intros clock newId timestamp roomId userId url w e w'.
    unfold RoomService.addVideoToQueue. run_monad.
    destruct (YouTubeService.extractVideoId url) as [id| |].
    2,3: cbn; intros [= <- <-]; discriminate.
    destruct (YouTubeService.falsy _); [intros [= <- <-]; discriminate|].
    change (String.eqb EmptyString EmptyString) with true. cbv iota.
    run_monad.
    destruct (0 <? Z.of_nat (length _)); [intros [= <- <-]; discriminate|].
    cbn [qv_id RoomService.new_queue_video].
    destruct (existsb _ (queue_videos (db w))); run_monad;
      [intros [= <- <-]; discriminate | discriminate].
Qed.

(** * Withdrawing a vote *)

Lemma deleteVote_run clock fault userId videoId w :
  exists w1,
    db w1 = db w /\ redis w1 = redis w /\ ticks w1 = ticks w
    /\ VideoRoutes.deleteVote clock fault userId videoId w
       = match user_vote userId videoId w with
         | None => (Ok VideoRoutes.NoVoteToRemove, w1)
         | Some vote =>
             if vote =? 0 then (Ok VideoRoutes.NoVoteToRemove, w1)
             else match RoomService.voteVideo clock fault userId videoId vote w1 with
                  | (Ok updatedVideo, w') => (Ok (VideoRoutes.VoteRemoved updatedVideo), w')
                  | (Throw e, w') => (Throw e, w')
                  end
         end.
Proof.
  destruct (getUserVote_run userId videoId w) as (w1 & Hget & Hdb & Hredis & Hticks).
  exists w1. split; [exact Hdb|]. split; [exact Hredis|]. split; [exact Hticks|].
  unfold VideoRoutes.deleteVote.
  cbv beta iota delta [bind]. rewrite Hget. cbv beta iota.
  destruct (user_vote userId videoId w) as [vote|]; [|reflexivity].
  destruct (vote =? 0); [reflexivity|].
  cbv beta iota delta [bind ret].
  destruct (RoomService.voteVideo clock fault userId videoId vote w1) as [[r|e] w'];
    reflexivity.
Qed.

(** X21 (DELETE /api/videos/:videoId/vote; RoomService.getUserVote,
    RoomService.voteVideo): when the voter has no vote on the item the
    request is refused with nothing changed.  When the vote read, cache
    index first, is the one on record, the request removes it: no vote
    is on record or in the index afterwards, and the matching counter of
    the item goes down by one.  When the index holds a vote that is not
    on record, the request records that vote instead of removing one. *)
Theorem deleteVote_cases :
  forall clock userId videoId w,
    (user_vote userId videoId w = None ->
     exists w',
       VideoRoutes.deleteVote clock None userId videoId w
         = (Ok VideoRoutes.NoVoteToRemove, w')
       /\ db w' = db w /\ redis w' = redis w)
    /\ (forall vote video rest item,
          user_vote userId videoId w = Some vote ->
          recorded_vote userId videoId (db w) = Some vote ->
          vote = 1 \/ vote = -1 ->
          select_votable videoId (db w) = video :: rest ->
          item_row videoId (db w) = Some item ->
          exists item' w',
            VideoRoutes.deleteVote clock None userId videoId w
              = (Ok (VideoRoutes.VoteRemoved (Some item')), w')
            /\ recorded_vote userId videoId (db w') = None
            /\ fst (RoomService.getUserVote userId videoId w') = Ok None
            /\ qv_upvotes item' = qv_upvotes item - (if vote =? 1 then 1 else 0)
            /\ qv_downvotes item' = qv_downvotes item - (if vote =? 1 then 0 else 1))
    /\ (forall vote video rest,
          user_vote userId videoId w = Some vote ->
          vote <> 0 ->
          recorded_vote userId videoId (db w) = None ->
          select_votable videoId (db w) = video :: rest ->
          exists r w',
            VideoRoutes.deleteVote clock None userId videoId w
              = (Ok (VideoRoutes.VoteRemoved r), w')
            /\ recorded_vote userId videoId (db w') = Some vote).
Proof.
  intros clock userId videoId w.
  destruct (deleteVote_run clock None userId videoId w)
    as (w1 & Hdb1 & Hredis1 & _ & Hrun).
  split; [|split].
  - intros Hnone. rewrite Hnone in Hrun. exists w1. auto.
  - intros vote video rest item Hvote Hrec Hvalid Hsel Hitem.
    rewrite Hvote in Hrun.
    replace (vote =? 0) with false in Hrun by (symmetry; apply Z.eqb_neq; lia).
    rewrite <- Hdb1 in Hsel.
    destruct (voteVideo_run clock userId videoId vote w1 video rest Hsel)
      as (w' & Hvote1 & Hdb & _).
    rewrite Hdb1 in Hvote1, Hdb.
    rewrite item_row_apply_vote, Hitem, Hrec in Hvote1. cbn [option_map] in Hvote1.
    rewrite Hvote1 in Hrun.
    destruct (user_vote_after_vote _ _ _ _ _ _ _ _ Hvote1) as [Huser Hafter].
    rewrite Hdb1, Hrec in Hafter.
    assert (Hfinal : snd (RoomService.vote_changes (Some vote) vote) = 0).
    { unfold RoomService.vote_changes. rewrite Z.eqb_refl. cbn [negb].
      destruct (vote =? 1); reflexivity. }
    rewrite Hfinal in Hafter. cbn in Hafter.
    eexists. exists w'. split; [exact Hrun|]. split; [exact Hafter|].
    split.
    { destruct (getUserVote_run userId videoId w') as (w2 & Hget & _).
      rewrite Hget. cbn [fst]. rewrite Huser, Hafter. reflexivity. }
    unfold RoomService.vote_changes. rewrite Z.eqb_refl. cbn [negb].
    destruct (vote =? 1); cbn [qv_upvotes qv_downvotes with_votes]; lia.
  - intros vote video rest Hvote Hne Hrec Hsel.
    rewrite Hvote in Hrun.
    replace (vote =? 0) with false in Hrun by (symmetry; apply Z.eqb_neq; exact Hne).
    rewrite <- Hdb1 in Hsel.
    destruct (voteVideo_run clock userId videoId vote w1 video rest Hsel)
      as (w' & Hvote1 & Hdb & _).
    rewrite Hvote1 in Hrun.
    destruct (user_vote_after_vote _ _ _ _ _ _ _ _ Hvote1) as [_ Hafter].
    rewrite Hdb1, Hrec in Hafter.
    assert (Hfinal : snd (RoomService.vote_changes None vote) = vote).
    { unfold RoomService.vote_changes. destruct (vote =? 1); reflexivity. }
    rewrite Hfinal in Hafter.
    replace (vote =? 0) with false in Hafter by (symmetry; apply Z.eqb_neq; exact Hne).
    eexists. exists w'. split; [exact Hrun | exact Hafter].
Qed.

(** * Submitting through the route *)

Lemma getRoomById_run roomId w :
  RoomQueries.getRoomById roomId w = (Ok (rooms (db w) !! roomId), record StoreRead w).
Proof. unfold RoomQueries.getRoomById. run_monad. reflexivity. Qed.

Lemma addVideo_run clock getVideoInfo newId timestamp roomId userId url w :
  VideoRoutes.addVideo clock getVideoInfo newId timestamp roomId userId url w
  = match rooms (db w) !! roomId with
    | None => (Ok VideoRoutes.RoomNotFound, record StoreRead w)
    | Some r =>
        if negb (r_is_active r)
        then (Ok VideoRoutes.RoomNotActive, record StoreRead w)
        else match RoomService.addVideoToQueue clock getVideoInfo newId timestamp
                     roomId userId url (record StoreRead w) with
             | (Ok video, w') => (Ok (VideoRoutes.VideoAdded video), w')
             | (Throw InvalidUrl, w') => (Ok VideoRoutes.InvalidUrlFormat, w')
             | (Throw AlreadyInQueue, w') => (Ok VideoRoutes.AlreadyInTheQueue, w')
             | (Throw NoVideoInfo, w') => (Ok VideoRoutes.NoVideoInformation, w')
             | (Throw e, w') => (Throw e, w')
             end
    end.
Proof.
  unfold VideoRoutes.addVideo. cbv beta iota delta [bind].
  rewrite getRoomById_run. cbv beta iota.
  destruct (rooms (db w) !! roomId) as [r|]; [|reflexivity].
  destruct (negb (r_is_active r)); [reflexivity|].
  cbv beta iota delta [try_catch bind ret throw].
  destruct (RoomService.addVideoToQueue clock getVideoInfo newId timestamp roomId
              userId url (record StoreRead w)) as [[video|e] w'];
    [reflexivity | destruct e; reflexivity].
Qed.

(** X22 (POST /api/videos/add; RoomService.getRoomById,
    RoomService.addVideoToQueue, RoomService.closeRoom): the request is
    answered with room not found or room not active exactly when the
    room is missing or inactive, and then nothing is changed; so a room
    that was closed takes no more submissions.  For an active room, the
    answer that a video was added comes with that one row appended to
    the store, and each of the other answers leaves the store and the
    cache as they were. *)
Theorem addVideo_route :
  forall clock getVideoInfo newId timestamp roomId userId url w,
    (forall response w',
        VideoRoutes.addVideo clock getVideoInfo newId timestamp roomId userId url w
          = (Ok response, w') ->
        (response = VideoRoutes.RoomNotFound <-> rooms (db w) !! roomId = None)
        /\ (response = VideoRoutes.RoomNotActive
            <-> exists r, rooms (db w) !! roomId = Some r /\ r_is_active r = false)
        /\ match response with
           | VideoRoutes.VideoAdded video =>
               queue_videos (db w') = (queue_videos (db w) ++ [video])%list
               /\ qv_room_id video = roomId /\ qv_added_by video = userId
           | _ => db w' = db w /\ redis w' = redis w
           end)
    /\ (forall adminId closed,
          RoomService.closeRoom roomId adminId w = (Ok tt, closed) ->
          exists w',
            VideoRoutes.addVideo clock getVideoInfo newId timestamp roomId userId url
              closed = (Ok VideoRoutes.RoomNotActive, w')
            /\ db w' = db closed /\ redis w' = redis closed).
Proof.
  intros clock getVideoInfo newId timestamp roomId userId url w. split.
  - intros response w'. rewrite addVideo_run.
    destruct (rooms (db w) !! roomId) as [r|] eqn:Hr.
    + destruct (r_is_active r) eqn:Hactive; cbn [negb].
      * destruct (RoomService.addVideoToQueue clock getVideoInfo newId timestamp roomId
                    userId url (record StoreRead w)) as [[video|e] w1] eqn:Hadd.
        -- intros [= <- <-].
           split; [split; discriminate|].
           split; [split; [discriminate | intros (r' & [= <-] & Hr'); congruence]|].
           destruct (addVideoToQueue_inv _ _ _ _ _ _ _ _ _ _ Hadd)
             as (videoId & info & _ & _ & _ & _ & _ & -> & Hdb & _).
           rewrite Hdb. repeat split.
        -- destruct (addVideoToQueue_refused _ _ _ _ _ _ _ _ _ _ Hadd)
             as (Hdb & Hredis & _).
           destruct e; intros [= <- <-];
             (split; [split; discriminate|]);
             (split; [split; [discriminate | intros (r' & [= <-] & Hr'); congruence]|]);
             split; assumption.
      * intros [= <- <-].
        split; [split; discriminate|].
        split; [split; [intros _; exists r; split; [reflexivity | exact Hactive]
                       | reflexivity]|].
        split; reflexivity.
    + intros [= <- <-].
      split; [split; reflexivity|].
      split; [split; [discriminate | intros (r' & Hr' & _); discriminate]|].
      split; reflexivity.
  - intros adminId closed Hclose.
    assert (Hadmin : is_admin roomId adminId (db w)).
    { destruct (rooms (db w) !! roomId) as [r|] eqn:Hr.
      - destruct (String.eqb_spec (r_admin_id r) adminId) as [Ha|Ha].
        + exists r. split; assumption.
        + rewrite closeRoom_unauthorized in Hclose; [discriminate|].
          intros (r' & Hr' & Ha'). congruence.
      - rewrite closeRoom_unauthorized in Hclose; [discriminate|].
        intros (r' & Hr' & _). congruence. }
    destruct (closeRoom_run roomId adminId w Hadmin) as (w1 & Hrun & Hdb & _).
    rewrite Hrun in Hclose. inversion Hclose; subst w1.
    destruct Hadmin as (r & Hr & _).
    rewrite addVideo_run, Hdb. cbn [rooms set_rooms].
    rewrite lookup_alter_eq, Hr. cbn.
    eexists. split; [reflexivity|]. split; [simpl_world; exact Hdb | reflexivity].
Qed.

(** * The reads of a sync *)







(** The two reads of the handler that can write to the cache. *)
Lemma getCurrentVideo_state clock roomId w :
  exists w',
    RoomService.getCurrentVideo clock roomId w = (Ok (current_read roomId w), w')
    /\ db w' = db w
    /\ room_queue (redis w') = room_queue (redis w)
    /\ user_votes (redis w') = user_votes (redis w)
    /\ room_members (redis w') = room_members (redis w)
    /\ (room_current (redis w) !! roomId = None /\ current_read roomId w <> None ->
        ticks w' = S (ticks w)
        /\ last_update (redis w') !! roomId = Some (clock (ticks w)))
    /\ (~ (room_current (redis w) !! roomId = None /\ current_read roomId w <> None) ->
        redis w' = redis w /\ ticks w' = ticks w)
    /\ ((last_update (redis w') = last_update (redis w) /\ ticks w' = ticks w)
        \/ (last_update (redis w') = <[roomId := clock (ticks w)]> (last_update (redis w))
            /\ ticks w' = S (ticks w))).
Proof.
  unfold RoomService.getCurrentVideo, current_read. run_monad.
  destruct (room_current (redis w) !! roomId) as [cached|]; run_monad.
  - eexists. do 5 (split; [reflexivity|]).
    split; [intros [H _]; discriminate|].
    split; [intros _; split; reflexivity | left; split; reflexivity].
  - simpl_world.
    destruct (select_current roomId (db w)) as [|v rest]; cbn [head]; run_monad.
    + eexists. do 5 (split; [reflexivity|]).
      split; [intros [_ H]; congruence|].
      split; [intros _; split; reflexivity | left; split; reflexivity].
    + eexists. split; [reflexivity|]. split; [reflexivity|].
      split; [reflexivity|]. split; [reflexivity|]. split; [reflexivity|].
      split; [|split].
      * intros _. simpl_world. cbn. rewrite lookup_insert_eq. split; reflexivity.
      * intros H. exfalso. apply H. split; [reflexivity | discriminate].
      * right. split; reflexivity.
Qed.

Lemma getRoomQueue_state clock roomId w :
  exists w',
    RoomService.getRoomQueue clock roomId w = (Ok (queue_read roomId w), w')
    /\ db w' = db w
    /\ user_votes (redis w') = user_votes (redis w)
    /\ room_members (redis w') = room_members (redis w)
    /\ (cached_queue roomId w = [] /\ queue_read roomId w <> [] ->
        ticks w' = S (ticks w)
        /\ last_update (redis w') !! roomId = Some (clock (ticks w)))
    /\ (~ (cached_queue roomId w = [] /\ queue_read roomId w <> []) ->
        redis w' = redis w /\ ticks w' = ticks w)
    /\ ((last_update (redis w') = last_update (redis w) /\ ticks w' = ticks w)
        \/ (last_update (redis w') = <[roomId := clock (ticks w)]> (last_update (redis w))
            /\ ticks w' = S (ticks w))).
Proof.
  destruct (default [] (room_queue (redis w) !! roomId)) as [|e entries] eqn:Hcached.
  - assert (Hmiss : fst (RedisService.getRoomQueue roomId w) = Ok []).
    { run_monad. cbn [fst]. rewrite Hcached. reflexivity. }
    destruct (getRoomQueue_miss clock roomId w Hmiss)
      as (w' & Hrun & Hdb & Hredis & Hticks).
    assert (Hread : queue_read roomId w = select_queue roomId (db w)).
    { unfold queue_read. rewrite Hcached. reflexivity. }
    exists w'. rewrite Hread. split; [exact Hrun|]. split; [exact Hdb|].
    unfold cached_queue. rewrite Hcached.
    destruct (select_queue roomId (db w)) as [|v rest].
    + rewrite Hredis. do 2 (split; [reflexivity|]).
      split; [intros [_ H]; congruence|].
      split; [intros _; split; [reflexivity | exact Hticks]|].
      left. split; [reflexivity | exact Hticks].
    + rewrite Hredis.
      split; [apply updateRoomQueue_pipeline_user_votes|].
      split; [apply updateRoomQueue_pipeline_room_members|].
      split; [|split].
      * intros _. split; [exact Hticks|].
        rewrite updateRoomQueue_pipeline_last_update. apply lookup_insert_eq.
      * intros H. exfalso. apply H. split; [reflexivity | discriminate].
      * right. split; [apply updateRoomQueue_pipeline_last_update | exact Hticks].
  - assert (Hne : RedisService.zRange_REV (e :: entries) <> [])
      by (apply zRange_REV_not_nil; discriminate).
    assert (Hread : queue_read roomId w
                    = map z_video (RedisService.zRange_REV (e :: entries))).
    { unfold queue_read. rewrite Hcached.
      replace (0 <? Z.of_nat (length (map z_video
                                        (RedisService.zRange_REV (e :: entries)))))
        with true; [reflexivity|].
      symmetry. apply Z.ltb_lt. rewrite length_map.
      destruct (RedisService.zRange_REV (e :: entries)); [congruence | cbn; lia]. }
    exists (record CacheRead w). rewrite Hread. split.
    + apply getRoomQueue_hit.
      * run_monad. cbn [fst]. rewrite Hcached. reflexivity.
      * intros H. apply map_eq_nil in H. contradiction.
    + unfold cached_queue. rewrite Hcached. do 3 (split; [reflexivity|]).
      split; [intros [H _]; discriminate|].
      split; [intros _; split; reflexivity | left; split; reflexivity].
Qed.

(** A full sync, with what it leaves in the cache. *)
Lemma sync_updates_state clock roomId userId lastUpdate w :
  lastUpdate < cursor roomId w ->
  exists w',
    RoomRoutes.sync clock roomId userId lastUpdate w
    = (Ok (RoomRoutes.Updates
             (current_read roomId w)
             (map (fun video => (video, user_vote userId (qv_id video) w))
                  (queue_read roomId w))
             (members_read roomId w)
             (length (members_read roomId w))
             (cursor roomId w)), w')
    /\ db w' = db w
    /\ (~ refills roomId w (current_read roomId w) (queue_read roomId w) ->
        redis w' = redis w /\ ticks w' = ticks w)
    /\ (refills roomId w (current_read roomId w) (queue_read roomId w) ->
        (ticks w < ticks w')%nat
        /\ cursor roomId w' = clock (pred (ticks w')))
    /\ cursor_writes clock w w'.
Proof.
  intros H. apply Z.leb_gt in H.
  destruct (getCurrentVideo_state clock roomId (record CacheRead w))
    as (w1 & H1 & Hdb1 & Hq1 & Hu1 & Hm1 & Hfill1 & Hkeep1 & Hlast1).
  destruct (getRoomQueue_state clock roomId w1)
    as (w2 & H2 & Hdb2 & Hu2 & Hm2 & Hfill2 & Hkeep2 & Hlast2).
  destruct (annotate_run userId (queue_read roomId w1) (record CacheRead w2))
    as (w3 & H3 & Hdb3 & Hredis3 & Hticks3).
  assert (Hqueue : queue_read roomId w1 = queue_read roomId w)
    by (unfold queue_read; rewrite Hq1, Hdb1; reflexivity).
  assert (Hcached : cached_queue roomId w1 = cached_queue roomId w)
    by (unfold cached_queue; rewrite Hq1; reflexivity).
  rewrite Hqueue, Hcached in Hfill2, Hkeep2.
  change (current_read roomId (record CacheRead w)) with (current_read roomId w)
    in H1, Hfill1, Hkeep1.
  change (room_current (redis (record CacheRead w))) with (room_current (redis w))
    in Hfill1, Hkeep1.
  change (redis (record CacheRead w)) with (redis w) in Hkeep1.
  change (ticks (record CacheRead w)) with (ticks w) in Hfill1, Hkeep1, Hlast1.
  change (redis (record CacheRead w)) with (redis w) in Hlast1.
  change (redis (record CacheRead w2)) with (redis w2) in Hredis3.
  change (ticks (record CacheRead w2)) with (ticks w2) in Hticks3.
  exists w3. split; [|split; [|split; [|split]]].
  - unfold RoomRoutes.sync, RedisService.getLastUpdate, RedisService.redis_read.
    unfold bind at 1. unfold bind at 1. unfold ret at 1.
    fold (cursor roomId w). rewrite H.
    unfold bind at 1. rewrite H1.
    unfold bind at 1. rewrite H2.
    unfold bind at 1. unfold RedisService.getRoomMembers, RedisService.redis_read.
    unfold bind at 1. rewrite Hqueue in H3. rewrite Hqueue. rewrite H3. unfold ret.
    assert (members_read roomId w = map snd (map_to_list
              (default ∅ (room_members (redis w2) !! roomId)))) as <-
      by (unfold members_read; rewrite Hm2, Hm1; reflexivity).
    do 3 f_equal. apply map_ext. intros v. f_equal.
    apply user_vote_ext; simpl_world.
    + rewrite Hdb2, Hdb1. reflexivity.
    + rewrite Hu2, Hu1. reflexivity.
  - rewrite Hdb3. simpl_world. rewrite Hdb2, Hdb1. reflexivity.
  - intros Hno. rewrite Hredis3, Hticks3.
    destruct Hkeep2 as [Hr2 Ht2]; [intros Hq; apply Hno; right; exact Hq|].
    destruct Hkeep1 as [Hr1 Ht1]; [intros Hc; apply Hno; left; exact Hc|].
    rewrite Hr2, Ht2, Hr1, Ht1. split; reflexivity.
  - intros Hfills. rewrite Hticks3. unfold cursor. rewrite Hredis3.
    assert (Hticks1 : (ticks w <= ticks w1)%nat).
    { destruct (room_current (redis w) !! roomId) as [cached|] eqn:Hc.
      - destruct Hkeep1 as [_ ->]; [intros [Hn _]; discriminate | lia].
      - destruct (current_read roomId w) as [v|] eqn:Hcur.
        + destruct Hfill1 as [-> _]; [split; [reflexivity | discriminate] | lia].
        + destruct Hkeep1 as [_ ->]; [intros [_ Hn]; congruence | lia]. }
    destruct (cached_queue roomId w) as [|e entries] eqn:Hcq.
    + destruct (queue_read roomId w) as [|v rest] eqn:Hqr.
      * destruct Hkeep2 as [Hr2 Ht2]; [intros [_ Hn]; congruence|].
        destruct Hfills as [Hc|[_ Hq]]; [|congruence].
        destruct (Hfill1 Hc) as [Ht1 Hl1].
        rewrite Hr2, Ht2, Hl1, Ht1. split; [lia | reflexivity].
      * destruct Hfill2 as [Ht2 Hl2]; [split; [reflexivity | discriminate]|].
        rewrite Hl2, Ht2. split; [lia | reflexivity].
    + destruct Hkeep2 as [Hr2 Ht2]; [intros [Hn _]; discriminate|].
      destruct Hfills as [Hc|[Hq _]]; [|congruence].
      destruct (Hfill1 Hc) as [Ht1 Hl1].
      rewrite Hr2, Ht2, Hl1, Ht1. split; [lia | reflexivity].
  - unfold cursor_writes. rewrite Hredis3, Hticks3.
    destruct Hlast1 as [[Hl1 Ht1]|[Hl1 Ht1]], Hlast2 as [[Hl2 Ht2]|[Hl2 Ht2]];
      rewrite Hl2, Ht2, Hl1, Ht1.
    + left. split; reflexivity.
    + right; left. exists roomId. split; reflexivity.
    + right; left. exists roomId. split; reflexivity.
    + right; right. exists roomId. split; reflexivity.
Qed.

(** What a sync does to the cursors. *)
Lemma sync_cursor_writes clock roomId userId lastUpdate w :
  cursor_writes clock w (snd (RoomRoutes.sync clock roomId userId lastUpdate w)).
Proof.
  destruct (Z_le_gt_dec (cursor roomId w) lastUpdate) as [Hle|Hgt].
  - rewrite (sync_no_updates clock roomId userId lastUpdate w Hle).
    left. split; reflexivity.
  - destruct (sync_updates_state clock roomId userId lastUpdate w) as (w' & Hrun & H);
      [lia|].
    rewrite Hrun. apply H.
Qed.

(** * C4: the update cursor *)

(** What closing a room does to the cursors: nothing, or the cursor key
    of the room is deleted; the clock is not read. *)
Lemma closeRoom_last_update roomId adminId w :
  (last_update (redis (snd (RoomService.closeRoom roomId adminId w)))
   = last_update (redis w)
   \/ last_update (redis (snd (RoomService.closeRoom roomId adminId w)))
      = delete roomId (last_update (redis w)))
  /\ ticks (snd (RoomService.closeRoom roomId adminId w)) = ticks w.
Proof.
  unfold RoomService.closeRoom. run_monad.
  destruct (rooms (db w) !! roomId) as [r|]; [|split; [left|]; reflexivity].
  destruct (negb (String.eqb (r_admin_id r) adminId));
    [split; [left|]; reflexivity | split; [right|]; reflexivity].
Qed.

Lemma lapse_last_update key r roomId :
  key <> LAST_UPDATE roomId ->
  last_update (lapse key r) !! roomId = last_update r !! roomId.
Proof.
  intros Hne. destruct key as [k|k|k|k|k|k]; try reflexivity.
  cbn. apply lookup_delete_ne. congruence.
Qed.

(** Writes of clock readings do not lower the cursor of a room, and
    leave it behind the clock. *)
Lemma cursor_writes_monotone clock roomId w w' :
  clock_monotone clock -> cursor_not_ahead clock roomId w ->
  cursor_writes clock w w' ->
  cursor roomId w <= cursor roomId w' /\ cursor_not_ahead clock roomId w'.
Proof.
  intros Hmono Hahead [[Hlast Hticks] | [(r & Hlast & Hticks) | (r & Hlast & Hticks)]].
  - assert (Hcur : cursor roomId w' = cursor roomId w)
      by (unfold cursor; rewrite Hlast; reflexivity).
    split; [lia|]. intros n Hn. rewrite Hcur. apply Hahead. lia.
  - assert (Hcur : cursor roomId w'
                   = if decide (r = roomId) then clock (ticks w) else cursor roomId w)
      by (apply cursor_insert; exact Hlast).
    rewrite Hcur. split.
    + destruct (decide (r = roomId)); [apply Hahead|]; lia.
    + intros n Hn. rewrite Hcur.
      destruct (decide (r = roomId)); [apply Hmono | apply Hahead]; lia.
  - assert (Hcur : cursor roomId w'
                   = if decide (r = roomId) then clock (S (ticks w))
                     else cursor roomId w).
    { rewrite (cursor_insert roomId _ _ _ _ Hlast).
      destruct (decide (r = roomId)); [reflexivity|].
      unfold cursor. rewrite lookup_insert_ne by assumption. reflexivity. }
    rewrite Hcur. split.
    + destruct (decide (r = roomId)); [apply Hahead|]; lia.
    + intros n Hn. rewrite Hcur.
      destruct (decide (r = roomId)); [apply Hmono | apply Hahead]; lia.
Qed.

(** An event that keeps the cursor key of the room does not lower the
    cursor of the room, and leaves it behind the clock. *)
Lemma happen_cursor_monotone clock e w roomId :
  clock_monotone clock -> keeps_cursor roomId e -> cursor_not_ahead clock roomId w ->
  cursor roomId w <= cursor roomId (happen clock e w)
  /\ cursor_not_ahead clock roomId (happen clock e w).
Proof.
  intros Hmono Hk Hahead.
  assert (Hsame : forall w',
             last_update (redis w') !! roomId = last_update (redis w) !! roomId ->
             ticks w' = ticks w ->
             cursor roomId w <= cursor roomId w' /\ cursor_not_ahead clock roomId w').
  { intros w' Hlast Hticks.
    assert (Hcur : cursor roomId w' = cursor roomId w)
      by (unfold cursor; rewrite Hlast; reflexivity).
    split; [lia|]. intros n Hn. rewrite Hcur. apply Hahead. lia. }
  destruct e as [m|r userId lastUpdate|key]; cbn [happen keeps_cursor] in *.
  - destruct m as [fault userId videoId voteType
                  | getVideoInfo newId timestamp r userId url
                  | timestamp r adminId | r adminId];
      try (apply cursor_writes_monotone with (w := w); try assumption;
           apply perform_last_update; exact I).
    cbn [perform]. rewrite snd_forget.
    destruct (closeRoom_last_update r adminId w) as [[Hlast|Hlast] Hticks].
    + apply Hsame; [rewrite Hlast; reflexivity | exact Hticks].
    + apply Hsame; [|exact Hticks].
      rewrite Hlast. apply lookup_delete_ne. exact Hk.
  - apply cursor_writes_monotone with (w := w); try assumption.
    apply sync_cursor_writes.
  - apply Hsame; [|reflexivity]. simpl_world. apply lapse_last_update. exact Hk.
Qed.

Lemma happen_all_cursor_monotone clock es roomId :
  clock_monotone clock -> Forall (keeps_cursor roomId) es ->
  forall w, cursor_not_ahead clock roomId w ->
            cursor roomId w <= cursor roomId (happen_all clock es w).
Proof.
  intros Hmono Hks. induction Hks as [|e es Hk _ IH]; intros w Hahead.
  - cbn. lia.
  - cbn [happen_all].
    destruct (happen_cursor_monotone clock e w roomId Hmono Hk Hahead)
      as [Hstep Hahead'].
    specialize (IH _ Hahead'). lia.
Qed.

(** C4, amended.  A vote, a submission or an advance that succeeds sets
    the cursor of its room to the last reading of the wall clock it
    took: the cursor strictly increases when the readings to come are
    above it, and then a sync that presents the cursor of before reports
    [has_updates = true].  Over any sequence of calls, failed ones
    included, of syncs, whose reads fill the cache when they miss it,
    and of lapses of keys, the cursor of a room does not decrease,
    provided the clock does not go backwards, the cursor is not ahead of
    it, the room is not closed and its cursor key does not lapse.  Once
    the cursor key has lapsed the cursor reads 0. *)
Theorem C4_cursor_follows_clock :
  forall clock,
    (forall m w w' roomId,
        perform clock m w = (Ok tt, w') ->
        refreshes m w roomId ->
        (ticks w < ticks w')%nat
        /\ cursor roomId w' = clock (pred (ticks w'))
        /\ ((forall n, (ticks w <= n)%nat -> cursor roomId w < clock n) ->
            cursor roomId w < cursor roomId w'
            /\ forall clock' userId,
                 exists data w'',
                   RoomRoutes.sync clock' roomId userId (cursor roomId w) w'
                   = (Ok data, w'')
                   /\ RoomRoutes.has_updates data = true))
    /\ (forall es w roomId,
          clock_monotone clock -> cursor_not_ahead clock roomId w ->
          Forall (keeps_cursor roomId) es ->
          cursor roomId w <= cursor roomId (happen_all clock es w))
    /\ (forall w roomId,
          cursor roomId (happen clock (Lapse (LAST_UPDATE roomId)) w) = 0).
Proof.
  intros clock. split; [|split].
  - intros m w w' roomId Hrun Href.
    destruct (perform_cursor clock m w w' roomId Hrun Href) as [Hticks Hlast].
    assert (cursor roomId w' = clock (pred (ticks w'))) as Hcur
      by (unfold cursor; now rewrite Hlast).
    split; [exact Hticks|]. split; [exact Hcur|].
    intros Hclock.
    assert (cursor roomId w < cursor roomId w') as Hlt
      by (rewrite Hcur; apply Hclock; lia).
    split; [exact Hlt|]. intros clock' userId.
    destruct (sync_updates clock' roomId userId (cursor roomId w) w' Hlt)
      as (w'' & Hsync & _).
    do 2 eexists. split; [exact Hsync | reflexivity].
  - intros es w roomId Hmono Hahead Hks.
    now apply happen_all_cursor_monotone.
  - intros w roomId. unfold cursor. cbn. rewrite lookup_delete_eq. reflexivity.
Qed.

Lemma C4_cursor_follows_clock_witness :
  (exists w',
      perform Sample.clock (Vote None "bob" "a" 1) Sample.fresh = (Ok tt, w')
      /\ cursor "r1" Sample.fresh < cursor "r1" w'
      /\ exists data w'',
           RoomRoutes.sync Sample.clock "r1" "alice" (cursor "r1" Sample.fresh) w'
             = (Ok data, w'')
           /\ RoomRoutes.has_updates data = true)
  /\ cursor "r1" Sample.fresh
     <= cursor "r1"
          (happen_all Sample.clock
             [ Call (Vote None "bob" "a" 1);
               Call (Vote (Some RoomService.StepCommit) "alice" "b" 1);
               Lapse (ROOM_QUEUE "r1");
               Sync "r1" "bob" 0;
               Call (Advance 10 "r1" "alice");
               Lapse (LAST_UPDATE "r2");
               Call (Close "r2" "alice");
               Call (Add Sample.info "c" 11 "r1" "bob" "https://youtu.be/abcdefghijk") ]
             Sample.fresh).
Proof.
  destruct (C4_cursor_follows_clock Sample.clock) as (Hone & Hall & _).
  split.
  - set (w' := snd (perform Sample.clock (Vote None "bob" "a" 1) Sample.fresh)).
    assert (perform Sample.clock (Vote None "bob" "a" 1) Sample.fresh = (Ok tt, w'))
      as Hrun by (vm_compute; reflexivity).
    assert (refreshes (Vote None "bob" "a" 1) Sample.fresh "r1") as Href.
    { exists (Sample.video "a" 1), []. split; [vm_compute; reflexivity | reflexivity]. }
    assert (forall n, (ticks Sample.fresh <= n)%nat ->
                      cursor "r1" Sample.fresh < Sample.clock n) as Hclock.
    { intros n _. change (cursor "r1" Sample.fresh) with 0. unfold Sample.clock. lia. }
    pose proof (Hone _ _ _ _ Hrun Href) as (_ & _ & Hstrict).
    pose proof (Hstrict Hclock) as [Hlt Hsync].
    exists w'. split; [exact Hrun|]. split; [exact Hlt|].
    exact (Hsync Sample.clock "alice").
  - apply Hall.
    + intros i j Hij. unfold Sample.clock. lia.
    + intros n _. change (cursor "r1" Sample.fresh) with 0. unfold Sample.clock. lia.
    + repeat constructor; cbn; congruence.
Defined.

(** The claim of C4 fails in four ways.  Two votes whose [Date.now()]
    readings fall in the same millisecond: the second vote succeeds and
    the cursor stays at 1000, so a sync that presents the cursor of
    before the vote reports no updates.  A clock that is set back
    between two votes takes the cursor from 1000 to 900.  Closing the
    room takes the cursor back to 0.  And so does the lapse of the
    cursor key, 24 hours after the last write: a sync that presents the
    cursor 1000 of before then reports no updates. *)
Lemma C4_counterexample :
  let w1 := snd (RoomService.voteVideo Sample.same_ms None "alice" "a" 1
                   Sample.fresh) in
  let call := RoomService.voteVideo Sample.same_ms None "bob" "a" 1 w1 in
  let set_back := RoomService.voteVideo (fun _ => 900) None "bob" "a" 1 w1 in
  let lapsed := happen Sample.same_ms (Lapse (LAST_UPDATE "r1")) w1 in
  (exists r, fst call = Ok r)
  /\ cursor "r1" w1 = 1000
  /\ cursor "r1" (snd call) = 1000
  /\ fst (RoomRoutes.sync Sample.same_ms "r1" "alice" (cursor "r1" w1) (snd call))
     = Ok (RoomRoutes.NoUpdates 1000)
  /\ (exists r, fst set_back = Ok r)
  /\ cursor "r1" (snd set_back) = 900
  /\ cursor "r1" (snd (RoomService.closeRoom "r1" "alice" (snd call))) = 0
  /\ cursor "r1" lapsed = 0
  /\ fst (RoomRoutes.sync Sample.same_ms "r1" "alice" (cursor "r1" w1) lapsed)
     = Ok (RoomRoutes.NoUpdates 0).
Proof.
  vm_compute. repeat split; try reflexivity; eexists; reflexivity.
Qed.

(** * C9: the sync handler *)



